(** * creative.py: quantum toys on a gate-based backend

    A shallow embedding of [ladder], [twobit], [bitstring_superposer] and
    [layout] from [creative.py], and the properties of them that the
    specification states.

    Conventions of the embedding.
    - A Python [str] is a [list ascii]; a [dict] is an association list in
      insertion order with at most one entry per key.
    - Code that can raise returns a [result]; the constructors of [exn] are
      the Python exceptions that the modelled lines can raise.
    - Python [float] arithmetic is read as exact arithmetic where a single
      quotient or a trigonometric value is at stake: rationals [Q] for the
      fractions [count/shots], reals [R] where the code calls [sqrt],
      [arcsin] and uses [pi].  [layout.calculate_probs] adds many quotients
      up, and there rounding shows: its definitions take the arithmetic as
      a parameter, instantiated at IEEE 754 binary64 and at exact
      fractions.
    - The execution backend is not part of the file.  Functions that call
      [execute] take the counts it reports as a parameter; the noiseless
      backends used by the round-trip properties are defined here from the
      textbook action of the gates. *)

From Stdlib Require Import List Bool Arith NArith ZArith QArith Reals Ascii String.
From Stdlib Require Import FinFun.
From Stdlib Require Import Lia Lra.
From Stdlib Require Lqa.
From Stdlib Require SpecFloat.
Import ListNotations.

Set Implicit Arguments.

(* ================================================================== *)
(** * Python values shared by all classes *)
(* ================================================================== *)

Module Py.

(** The exceptions raised by the modelled lines. *)
Inductive exn : Type :=
| IndexError
| KeyError
| ZeroDivisionError
| AttributeError
| ValueError
| OverflowError
| QISKitError.

Inductive result (A : Type) : Type :=
| Ok (a : A)
| Raise (e : exn).
Arguments Ok {A} a.
Arguments Raise {A} e.

Definition bind {A B} (r : result A) (k : A -> result B) : result B :=
  match r with
  | Ok a => k a
  | Raise e => Raise e
  end.

(** [for a in xs: s = body a s], stopping at the first exception. *)
Fixpoint for_each {A S} (xs : list A) (body : A -> S -> result S) (s : S)
  : result S :=
  match xs with
  | [] => Ok s
  | a :: xs' => bind (body a s) (for_each xs' body)
  end.

(** [str] and the characters the code compares against. *)
Definition str := list ascii.
Definition lit (s : string) : str := list_ascii_of_string s.

Fixpoint str_eqb (s t : str) : bool :=
  match s, t with
  | [], [] => true
  | c :: s', d :: t' => Ascii.eqb c d && str_eqb s' t'
  | _, _ => false
  end.

(** [s[i]] for a Python integer [i]: negative indices count from the end. *)
Definition index {A} (s : list A) (i : Z) : result A :=
  let n := Z.of_nat (List.length s) in
  let j := if (i <? 0)%Z then (i + n)%Z else i in
  if ((0 <=? j)%Z && (j <? n)%Z)%bool then
    match nth_error s (Z.to_nat j) with
    | Some c => Ok c
    | None => Raise IndexError
    end
  else Raise IndexError.

(** [range(n)] *)
Definition range (n : Z) : list Z :=
  List.map Z.of_nat (seq 0 (Z.to_nat n)).

(** Comparisons on exact fractions. *)
Definition Qltb (x y : Q) : bool := negb (Qle_bool y x).

(** [sum(l)] on exact fractions. *)
Definition Qsum (l : list Q) : Q := fold_right Qplus 0 l.

End Py.

Notation "x <- c ;; k" := (Py.bind c (fun x => k))
  (at level 61, c at next level, right associativity).

(** Python [dict]: entries in insertion order, one per key. *)
Module Dict.
Section Dict.
Variables K V : Type.
Variable eqb : K -> K -> bool.

Definition t := list (K * V).

Fixpoint get (d : t) (k : K) : option V :=
  match d with
  | [] => None
  | (k', v) :: d' => if eqb k' k then Some v else get d' k
  end.

(** [d[k] = v]: overwrite in place, or append a new entry. *)
Fixpoint set (d : t) (k : K) (v : V) : t :=
  match d with
  | [] => [(k, v)]
  | (k', v') :: d' =>
      if eqb k' k then (k', v) :: d' else (k', v') :: set d' k v
  end.

Definition mem (d : t) (k : K) : bool :=
  match get d k with Some _ => true | None => false end.

Definition keys (d : t) : list K := List.map fst d.
Definition values (d : t) : list V := List.map snd d.

(** [d[k]] as an expression. *)
Definition item (d : t) (k : K) : Py.result V :=
  match get d k with
  | Some v => Py.Ok v
  | None => Py.Raise Py.KeyError
  end.
End Dict.
End Dict.

(* ================================================================== *)
(** * class twobit *)
(* ================================================================== *)

Module Twobit.
Import Py.

(** Operations on the single qubit [qr[0]]. *)
Inductive gate : Type := h | s | x | barrier | measure.

(** The object: [qr] and [cr] are fixed one-bit registers, [qc] is the
    list of operations appended so far. *)
Record twobit : Type := { qc : list gate }.

(** The argument of [prepare]: a dict from basis name to a boolean or
    [None]. *)
Definition state := Dict.t str (option bool).

Definition truthy (v : option bool) : bool :=
  match v with Some b => b | None => false end.

Definition prepare (st : state) (self : twobit) : result twobit :=
  let qc0 := [] in
  if Dict.mem str_eqb st (lit "Y") then
    Ok {| qc := qc0 ++ [h] ++ [s] |}
  else if Dict.mem str_eqb st (lit "X") then
    v <- Dict.item str_eqb st (lit "X") ;;
    let qc1 := if truthy v then qc0 ++ [x] else qc0 in
    Ok {| qc := qc1 ++ [h] |}
  else if Dict.mem str_eqb st (lit "Z") then
    v <- Dict.item str_eqb st (lit "Z") ;;
    Ok {| qc := if truthy v then qc0 ++ [x] else qc0 |}
  else Ok {| qc := qc0 |}.

Definition init : result twobit :=
  prepare [(lit "Y", None)] {| qc := [] |}.

(** Lines 105-109: the threshold applied when [mitigate] is set. *)
Definition mitigate (p : Q) : Q :=
  if Qltb p (1 # 10) then 0
  else if Qltb (9 # 10) p then 1
  else p.

(** Lines 101-104: the fraction of shots that read ['1']. *)
Definition fraction (stats : Dict.t str Q) (shots : Z) : result Q :=
  if Dict.mem str_eqb stats (lit "1") then
    c <- Dict.item str_eqb stats (lit "1") ;;
    if (shots =? 0)%Z then Raise ZeroDivisionError
    else Ok (c / inject_Z shots)
  else Ok 0.

(** The program that [value] hands to [execute]. *)
Definition measured (basis : str) (self : twobit) : list gate :=
  let qc1 := if str_eqb basis (lit "X") then qc self ++ [h] else qc self in
  qc1 ++ [barrier] ++ [measure].

Section Value.
(** [execute(qc, backend, shots).result().get_counts()] *)
Variable execute : list gate -> Z -> Dict.t str Q.

(** [value(basis, backend, shots, mitigate)]; [rnd] is the number that
    [random.random()] returns in this call. *)
Definition value (basis : str) (shots : Z) (mit : bool) (rnd : Q)
           (self : twobit) : result (bool * twobit) :=
  let stats := execute (measured basis self) shots in
  p <- fraction stats shots ;;
  let p := if mit then mitigate p else p in
  let measured_value := Qltb rnd p in
  self' <- prepare [(basis, Some measured_value)] self ;;
  Ok (measured_value, self').
End Value.

End Twobit.

(* ================================================================== *)
(** * class ladder *)
(* ================================================================== *)

Module Ladder.
Import Py.
Local Open Scope R_scope.

(** Operations on the single qubit [qr[0]]. *)
Inductive gate : Type :=
| rx (theta : R)
| barrier
| measure.

Definition circuit := list gate.

(** [QuantumCircuit] objects are mutable and are reached through
    references: the store lists them in order of creation and a reference
    is a position in it. *)
Definition heap := list circuit.

Definition deref (r : nat) (hp : heap) : circuit := nth r hp [].

Fixpoint update (r : nat) (f : circuit -> circuit) (hp : heap) : heap :=
  match hp, r with
  | [], _ => []
  | c :: hp', O => f c :: hp'
  | c :: hp', S r' => c :: update r' f hp'
  end.

(** [QuantumCircuit(...)] and [copy.deepcopy(c)]: a new object. *)
Definition alloc (c : circuit) (hp : heap) : nat * heap :=
  (List.length hp, hp ++ [c]).

(** [c.rx(theta, qr[0])], [c.barrier(qr)], [c.measure(qr, cr)]. *)
Definition append (r : nat) (g : gate) (hp : heap) : heap :=
  update r (fun c => c ++ [g]) hp.

(** The attributes of the object: [self.d] and the reference [self.qc]
    ([self.qr] and [self.cr] are one-bit registers). *)
Record ladder : Type := { d : Z; qc : nat }.

Definition init (d0 : Z) (hp : heap) : ladder * heap :=
  let (r, hp') := alloc [] hp in
  ({| d := d0; qc := r |}, hp').

(** [add(delta)]: the angle is computed first, then the gate is appended
    to [self.qc] itself. *)
Definition add (delta : R) (self : ladder) (hp : heap) : result heap :=
  if (d self =? 0)%Z then Raise ZeroDivisionError
  else Ok (append (qc self) (rx (PI * delta / IZR (d self))) hp).

(** Python's [round]: to the nearest integer, ties to the even one. *)
Definition floor (u : R) : Z := (up u - 1)%Z.

Definition round (u : R) : Z :=
  let f := floor u in
  let frac := u - IZR f in
  if Rlt_dec frac (1 / 2) then f
  else if Rlt_dec (1 / 2) frac then (f + 1)%Z
  else if Z.even f then f else (f + 1)%Z.

(** Lines 54-57. *)
Definition fraction (counts : Dict.t str R) (shots : Z) : result R :=
  if Dict.mem str_eqb counts (lit "1") then
    c <- Dict.item str_eqb counts (lit "1") ;;
    if (shots =? 0)%Z then Raise ZeroDivisionError
    else Ok (c / IZR shots)
  else Ok 0.

(** Lines 58-59.  Outside [0,1] numpy's [sqrt] or [arcsin] yields [nan],
    which [round]/[int] refuse. *)
Definition decode (p : R) (d0 : Z) : result Z :=
  if Rlt_dec p 0 then Raise ValueError
  else if Rlt_dec 1 p then Raise ValueError
  else Ok (round (2 * asin (sqrt p) * IZR d0 / PI)).

Section Value.
(** [execute(qc, backend, shots).result().get_counts()] *)
Variable execute : circuit -> Z -> Dict.t str R.

(** [value(backend, shots)] returns the outcome of the call together
    with the object and the store as the call leaves them. *)
Definition value (shots : Z) (self : ladder) (hp : heap)
  : result Z * ladder * heap :=
  let (temp_qc, hp1) := alloc (deref (qc self) hp) hp in
  let hp2 := append temp_qc barrier hp1 in
  let hp3 := append temp_qc measure hp2 in
  let counts := execute (deref temp_qc hp3) shots in
  (p <- fraction counts shots ;; decode p (d self), self, hp3).
End Value.

(** The integer a call reports. *)
Definition returned (r : result Z * ladder * heap) : result Z :=
  fst (fst r).

(** ** The noiseless one-qubit backend

    Amplitudes are complex numbers [(re, im)].  [rx(theta)] is the matrix
    [[cos(theta/2), -i sin(theta/2)], [-i sin(theta/2), cos(theta/2)]];
    the final measurement reads the distribution and [barrier] does
    nothing. *)
Record qubit : Type := { a0 : R * R; a1 : R * R }.

Definition ket0 : qubit := {| a0 := (1, 0); a1 := (0, 0) |}.

Definition apply (g : gate) (q : qubit) : qubit :=
  match g with
  | rx theta =>
      let c := cos (theta / 2) in
      let s := sin (theta / 2) in
      let '(ar, ai) := a0 q in
      let '(br, bi) := a1 q in
      {| a0 := (c * ar + s * bi, c * ai - s * br);
         a1 := (s * ai + c * br, c * bi - s * ar) |}
  | barrier => q
  | measure => q
  end.

Definition run (c : circuit) : qubit :=
  fold_left (fun q g => apply g q) c ket0.

Definition norm2 (z : R * R) : R := fst z * fst z + snd z * snd z.

(** The accumulated phase: the sum of the rotation angles of a circuit. *)
Fixpoint angle (c : circuit) : R :=
  match c with
  | [] => 0
  | rx theta :: c' => theta + angle c'
  | _ :: c' => angle c'
  end.

(** Expected counts: an outcome of probability zero is absent. *)
Definition noiseless (c : circuit) (shots : Z) : Dict.t str R :=
  let q := run c in
  (if Req_dec_T (norm2 (a0 q)) 0 then []
   else [(lit "0", norm2 (a0 q) * IZR shots)]) ++
  (if Req_dec_T (norm2 (a1 q)) 0 then []
   else [(lit "1", norm2 (a1 q) * IZR shots)]).

End Ladder.

(* ================================================================== *)
(** * The numbers of calculate_probs *)
(* ================================================================== *)

Module Arith.

(** What [calculate_probs] computes with: the quotient [a/b] of two
    [int]s, which is a [float], unless it is too large for one and the
    division raises [OverflowError]; the sum [x + y] of two such numbers;
    and the [0] that the sums start from.  The definitions of the class take
    the arithmetic as a parameter, so that what is proved of them for every
    arithmetic holds of the floats of the code. *)
Record t : Type := {
  num : Type;
  zero : num;
  add : num -> num -> num;
  quot : Z -> Z -> num;
  overflow : Z -> Z -> bool
}.

(** The same computation without rounding, on fractions. *)
Definition Exact : t :=
  {| num := Q;
     zero := 0%Q;
     add := Qplus;
     quot := fun a b => (inject_Z a / inject_Z b)%Q;
     overflow := fun _ _ => false |}.

(** Binary64: 53 bits of precision, exponents below 1024. *)
Definition prec : Z := 53.
Definition emax : Z := 1024.

(** An [int] as a number with an unbounded significand. *)
Definition of_int (n : Z) : SpecFloat.spec_float :=
  match n with
  | Z0 => SpecFloat.S754_zero false
  | Zpos m => SpecFloat.S754_finite false m 0
  | Zneg m => SpecFloat.S754_finite true m 0
  end.

(** [a/b] for two [int]s, [b] not 0: the quotient of the two integers
    rounded once, to the nearest binary64 number, ties to even. *)
Definition rounded (a b : Z) : SpecFloat.spec_float :=
  SpecFloat.SFdiv prec emax (of_int a) (of_int b).

(** The arithmetic of the code: IEEE 754 binary64, rounding to nearest,
    as the library specifies it.  A quotient beyond the largest float
    rounds to an infinity, which is where Python raises. *)
Definition Binary64 : t :=
  {| num := SpecFloat.spec_float;
     zero := SpecFloat.S754_zero false;
     add := SpecFloat.SFadd prec emax;
     quot := rounded;
     overflow := fun a b =>
                   match rounded a b with
                   | SpecFloat.S754_infinity _ => true
                   | _ => false
                   end |}.

(** The float [1.0]. *)
Definition one : SpecFloat.spec_float := rounded 1 1.

(** A zero, a float above zero or the infinity above zero: not a NaN and
    nothing below zero. *)
Definition nonneg (x : SpecFloat.spec_float) : Prop :=
  match x with
  | SpecFloat.S754_zero _
  | SpecFloat.S754_finite false _ _
  | SpecFloat.S754_infinity false => True
  | _ => False
  end.

End Arith.

(* ================================================================== *)
(** * class layout *)
(* ================================================================== *)

Module Layout.
Import Py.
Local Open Scope Z_scope.

(** The argument of the constructor. *)
Inductive device : Type :=
| Name (name : str)      (** a [str] *)
| Grid (dims : list Z)   (** a [list] of integers *)
| Other.                 (** any other value: [None], a tuple, a number *)

(** A one-character [str] is identified by its code point; [chr] raises
    outside the Unicode range. *)
Definition chr (c : Z) : result Z :=
  if (0 <=? c) && (c <? 1114112) then Ok c else Raise ValueError.

(** The keys of [pos] and of the probability map: an element index (an
    [int]) or a coupler label (a [str]). *)
Inductive node : Type :=
| Qubit (n : Z)
| Coupler (label : Z).

Definition node_eqb (a b : node) : bool :=
  match a, b with
  | Qubit n, Qubit m => n =? m
  | Coupler c, Coupler e => c =? e
  | _, _ => false
  end.

Record layout : Type := {
  num : Z;
  pairs : Dict.t Z (Z * Z);
  pos : Dict.t node (Q * Q)
}.

(** What the constructor does besides building the object. *)
Inductive event : Type :=
| Print (text : string)
| GetBackend (name : str).

Definition not_recognized : string :=
  "Error: Device not recognized.
Make sure it is a list of two integers (to specify a grid) or one of the supported IBM devices ('ibmqx2', 'ibmqx4' and 'ibmqx5').".

(** [backend.configuration] *)
Record configuration : Type := {
  n_qubits : Z;
  coupling_map : list (Z * Z)
}.

Definition pos_ibmqx2 : Dict.t node (Q * Q) :=
  [(Qubit 0, (1, 1)); (Qubit 1, (1, 0)); (Qubit 2, (1 # 2, 1 # 2));
   (Qubit 3, (0, 0)); (Qubit 4, (0, 1))]%Q.

Definition pos_ibmqx5 : Dict.t node (Q * Q) :=
  [(Qubit 0, (0, 0)); (Qubit 1, (0, 1)); (Qubit 2, (1, 1));
   (Qubit 3, (2, 1)); (Qubit 4, (3, 1)); (Qubit 5, (4, 1));
   (Qubit 6, (5, 1)); (Qubit 7, (6, 1)); (Qubit 8, (7, 1));
   (Qubit 9, (7, 0)); (Qubit 10, (6, 0)); (Qubit 11, (5, 0));
   (Qubit 12, (4, 0)); (Qubit 13, (3, 0)); (Qubit 14, (2, 0));
   (Qubit 15, (1, 0))]%Q.

(** [self.pairs[chr(char)] = pair; char += 1] *)
Definition add_pair (pair : Z * Z) (st : Dict.t Z (Z * Z) * Z)
  : result (Dict.t Z (Z * Z) * Z) :=
  let (prs, char) := st in
  label <- chr char ;;
  Ok (Dict.set Z.eqb prs label pair, char + 1).

(** Lines 418-419: every coupler is placed midway between its elements. *)
Definition midpoints (prs : Dict.t Z (Z * Z)) (ps : Dict.t node (Q * Q))
  : result (Dict.t node (Q * Q)) :=
  for_each prs
    (fun (entry : Z * (Z * Z)) ps =>
       let '(label, (e0, e1)) := entry in
       p0 <- Dict.item node_eqb ps (Qubit e0) ;;
       p1 <- Dict.item node_eqb ps (Qubit e1) ;;
       Ok (Dict.set node_eqb ps (Coupler label)
             ((fst p0 + fst p1) / 2, (snd p0 + snd p1) / 2)%Q))
    ps.

(** Lines 390-413: the grid branch; [n = x + y*Ly] as in the source. *)
Definition grid_pairs (Lx Ly : Z) : result (Dict.t Z (Z * Z) * Z) :=
  st <- for_each (range (Lx - 1))
          (fun x st =>
             for_each (range Ly)
               (fun y st =>
                  let n := x + y * Ly in
                  let m := n + 1 in
                  add_pair (n, m) st) st)
          ([], 65) ;;
  for_each (range Lx)
    (fun x st =>
       for_each (range (Ly - 1))
         (fun y st =>
            let n := x + y * Ly in
            let m := n + Ly in
            add_pair (n, m) st) st)
    st.

Definition grid_pos (Lx Ly : Z) : Dict.t node (Q * Q) :=
  fold_left
    (fun ps x =>
       fold_left
         (fun ps y =>
            let n := x + y * Ly in
            Dict.set node_eqb ps (Qubit n) (inject_Z x, inject_Z y))
         (range Ly) ps)
    (range Lx) [].

Definition recognized (name : str) : bool :=
  existsb (str_eqb name) [lit "ibmqx2"; lit "ibmqx4"; lit "ibmqx5"].

Section Init.
(** [get_backend(device).configuration] *)
Variable get_backend : str -> configuration.

(** [layout(device)]: the events of the call in order, and the object
    or the exception that ends the call. *)
Definition init (dev : device) : list event * result layout :=
  match dev with
  | Name name =>
      if recognized name then
        let backend := get_backend name in
        ([GetBackend name],
         st <- for_each (coupling_map backend) add_pair ([], 65) ;;
         let ps :=
           if existsb (str_eqb name) [lit "ibmqx2"; lit "ibmqx4"]
           then pos_ibmqx2 else pos_ibmqx5 in
         ps' <- midpoints (fst st) ps ;;
         Ok {| num := n_qubits backend; pairs := fst st; pos := ps' |})
      else
        (** [self.pairs] was never assigned: line 418 raises. *)
        ([Print not_recognized], Raise AttributeError)
  | Grid dims =>
      ([],
       Lx <- index dims 0 ;;
       Ly <- index dims 1 ;;
       st <- grid_pairs Lx Ly ;;
       ps' <- midpoints (fst st) (grid_pos Lx Ly) ;;
       Ok {| num := Lx * Ly; pairs := fst st; pos := ps' |})
  | Other =>
      ([Print not_recognized], Raise AttributeError)
  end.
End Init.

(** Lines 423-426.  [for string in raw_stats] visits the entries of the
    dict; [raw_stats[string]] is the count of the entry visited. *)
Definition total (raw_stats : Dict.t str Z) : Z :=
  fold_left (fun z (entry : str * Z) => z + snd entry) raw_stats 0.

Section Numbers.
(** The arithmetic of the quotients and sums. *)
Variable A : Arith.t.

(** [probs[k] += p] *)
Definition bump (probs : Dict.t node (Arith.num A)) (k : node)
           (p : Arith.num A) : result (Dict.t node (Arith.num A)) :=
  v <- Dict.item node_eqb probs k ;;
  Ok (Dict.set node_eqb probs k (Arith.add A v p)).

(** Lines 427-428. *)
Definition normalize (raw_stats : Dict.t str Z)
  : result (Dict.t str (Arith.num A)) :=
  let Z0 := total raw_stats in
  for_each raw_stats
    (fun (entry : str * Z) stats =>
       let (string, count) := entry in
       if Z0 =? 0 then Raise ZeroDivisionError
       else if Arith.overflow A count Z0 then Raise OverflowError
       else Ok (Dict.set str_eqb stats string (Arith.quot A count Z0)))
    [].

(** Every count divided by [z], entry by entry. *)
Definition scaled (z : Z) (raw_stats : Dict.t str Z)
  : Dict.t str (Arith.num A) :=
  List.map (fun entry : str * Z => (fst entry, Arith.quot A (snd entry) z))
           raw_stats.

(** Lines 434-440, for one outcome [string] of probability [p]. *)
Definition accumulate (self : layout) (string : str) (p : Arith.num A)
           (probs : Dict.t node (Arith.num A))
  : result (Dict.t node (Arith.num A)) :=
  probs1 <- for_each (range (num self))
              (fun n probs =>
                 c <- index string (- n - 1) ;;
                 if Ascii.eqb c "1" then bump probs (Qubit n) p
                 else Ok probs)
              probs ;;
  for_each (pairs self)
    (fun (entry : Z * (Z * Z)) probs =>
       let '(label, (e0, e1)) := entry in
       c0 <- index string (- e0 - 1) ;;
       c1 <- index string (- e1 - 1) ;;
       if negb (Ascii.eqb c0 c1) then bump probs (Coupler label) p
       else Ok probs)
    probs1.

Definition calculate_probs (raw_stats : Dict.t str Z) (self : layout)
  : result (Dict.t node (Arith.num A)) :=
  stats <- normalize raw_stats ;;
  let probs0 :=
    fold_left (fun probs n => Dict.set node_eqb probs n (Arith.zero A))
              (Dict.keys (pos self)) [] in
  for_each stats
    (fun (entry : str * Arith.num A) probs =>
       accumulate self (fst entry) (snd entry) probs)
    probs0.
End Numbers.

Arguments bump A probs k p : clear implicits.
Arguments normalize A raw_stats : clear implicits.
Arguments scaled A z raw_stats : clear implicits.
Arguments accumulate A self string p probs : clear implicits.
Arguments calculate_probs A raw_stats self : clear implicits.

End Layout.

(* ================================================================== *)
(** * bitstring_superposer *)
(* ================================================================== *)

Module Superposer.
Import Py.

(** Operations on the qubits [qr[0]] ... [qr[num-1]]. *)
Inductive gate : Type :=
| h (q : nat)
| x (q : nat)
| cx (c t : nat)
| barrier
| measure.

(** A [QuantumCircuit] on [num] qubits and [num] classical bits. *)
Record circuit : Type := { size : nat; ops : list gate }.

(** [l[i]] for an index [i >= 0]. *)
Definition item {A} (l : list A) (i : nat) : result A :=
  match nth_error l i with
  | Some a => Ok a
  | None => Raise IndexError
  end.

(** The argument: a list of strings, or a list of such lists. *)
Inductive input : Type :=
| Strings (strings : list str)
| Lists (strings_list : list (list str)).

(** The value returned: one dict, or a list of dicts. *)
Inductive output : Type :=
| Mapping (stats : Dict.t str Q)
| Batch (stats_list : list (Dict.t str Q)).

(** Lines 170-172. *)
Definition longest (strings : list str) : nat :=
  fold_left (fun num string => Nat.max (List.length string) num) strings 0%nat.

(** The right-hand side of line 174. *)
Definition padded (num : nat) (string : str) : str :=
  repeat "0"%char (num - List.length string) ++ string.

(** Lines 185-190: the loop over the bit positions carries the circuit
    and the list [diff]. *)
Definition compare_bit (strings : list str) (bit : nat)
           (st : list gate * list nat) : result (list gate * list nat) :=
  let (qc, diff) := st in
  s0 <- item strings 0 ;;
  c0 <- item s0 bit ;;
  s1 <- item strings 1 ;;
  c1 <- item s1 bit ;;
  let qc := if Ascii.eqb c0 c1
            then (if Ascii.eqb c0 "1" then qc ++ [x bit] else qc)
            else qc in
  let diff := if negb (Ascii.eqb c0 c1) then diff ++ [bit] else diff in
  Ok (qc, diff).

(** Lines 195-197. *)
Definition invert_bit (strings : list str) (bit : nat) (qc : list gate)
  : result (list gate) :=
  s0 <- item strings 0 ;;
  c0 <- item s0 bit ;;
  Ok (if Ascii.eqb c0 "1" then qc ++ [x bit] else qc).

(** Lines 169-202 for one list of strings.  Lines 173-174 assign the
    padded string to the loop variable [string] only: the elements of
    [strings], which the following lines read, stay as they were. *)
Definition program (strings : list str) : result circuit :=
  let num := longest strings in
  let string := fold_left (fun _ string => padded num string) strings [] in
  (** Line 176: [QuantumRegister(0)] is refused. *)
  if (num =? 0)%nat then Raise QISKitError else
  qc <-
    (if (Z.of_nat (List.length strings) =? 2 ^ Z.of_nat num)%Z then
       Ok (fold_left (fun qc n => qc ++ [h n]) (seq 0 num) [])
     else
       st <- for_each (seq 0 num) (compare_bit strings) ([], []) ;;
       let (qc, diff) := st in
       match diff with
       | [] => Ok qc
       | d0 :: rest =>
           let qc := qc ++ [h d0] in
           let qc := fold_left (fun qc bit => qc ++ [cx d0 bit]) rest qc in
           for_each diff (invert_bit strings) qc
       end) ;;
  Ok {| size := num; ops := qc ++ [barrier] ++ [measure] |}.

(** Lines 210-215: fractions under the reversed keys.  A value is kept
    as the fraction [count/shots] itself; the float of line 214 is the
    binary64 number nearest to it. *)
Definition corrected (stats_raw : Dict.t str Q) (shots : Z)
  : result (Dict.t str Q) :=
  for_each stats_raw
    (fun (entry : str * Q) stats =>
       let (string, count) := entry in
       if (shots =? 0)%Z then Raise ZeroDivisionError
       else Ok (Dict.set str_eqb stats (rev string)
                  (count / inject_Z shots)%Q))
    [].

Section Superposer.
(** [job.result().get_counts(batch[j])] for the job that
    [execute(batch, backend, shots)] returns. *)
Variable get_counts : nat -> circuit -> Z -> Dict.t str Q.

Definition bitstring_superposer (strings : input) (shots : Z)
  : result output :=
  strings_list <-
    match strings with
    | Strings [] => Raise IndexError
    | Strings (s :: ss) => Ok [s :: ss]
    | Lists [] => Raise IndexError
    | Lists (l :: ls) => Ok (l :: ls)
    end ;;
  batch <- for_each strings_list
             (fun strings batch =>
                qc <- program strings ;; Ok (batch ++ [qc]))
             [] ;;
  let stats_raw_list :=
    List.map (fun jq : nat * circuit => get_counts (fst jq) (snd jq) shots)
             (combine (seq 0 (List.length strings_list)) batch) in
  stats_list <- for_each stats_raw_list
                  (fun stats_raw stats_list =>
                     stats <- corrected stats_raw shots ;;
                     Ok (stats_list ++ [stats]))
                  [] ;;
  match stats_list with
  | [stats] => Ok (Mapping stats)
  | _ => Ok (Batch stats_list)
  end.
End Superposer.

(** ** The noiseless backend for circuits of [h], [x] and [cx]

    A state is a sum of basis states with integer coefficients, to be
    divided by [sqrt 2 ^ hcount]; position [i] of a basis state is the
    value of qubit [i], and every qubit starts at 0. *)
Definition basis := list bool.

Record qstate : Type := { terms : list (basis * Z); hcount : nat }.

Fixpoint flip (q : nat) (b : basis) : basis :=
  match b, q with
  | [], _ => []
  | v :: b', O => negb v :: b'
  | v :: b', S q' => v :: flip q' b'
  end.

Fixpoint put (q : nat) (v : bool) (b : basis) : basis :=
  match b, q with
  | [], _ => []
  | _ :: b', O => v :: b'
  | u :: b', S q' => u :: put q' v b'
  end.

Definition on_bases (f : basis -> basis) (st : qstate) : qstate :=
  {| terms := List.map (fun t : basis * Z => (f (fst t), snd t)) (terms st);
     hcount := hcount st |}.

Definition apply (g : gate) (st : qstate) : qstate :=
  match g with
  | x q => on_bases (flip q) st
  | cx c t => on_bases (fun b => if nth c b false then flip t b else b) st
  | h q =>
      {| terms :=
           flat_map
             (fun t : basis * Z =>
                [(put q false (fst t), snd t);
                 (put q true (fst t),
                  if nth q (fst t) false then (- snd t)%Z else snd t)])
             (terms st);
         hcount := S (hcount st) |}
  | barrier => st
  | measure => st
  end.

Definition run (qc : circuit) : qstate :=
  fold_left (fun st g => apply g st) (ops qc)
            {| terms := [(repeat false (size qc), 1%Z)]; hcount := 0 |}.

Fixpoint basis_eqb (a b : basis) : bool :=
  match a, b with
  | [], [] => true
  | u :: a', v :: b' => Bool.eqb u v && basis_eqb a' b'
  | _, _ => false
  end.

Definition amplitude (st : qstate) (b : basis) : Z :=
  fold_right
    (fun (t : basis * Z) acc =>
       if basis_eqb (fst t) b then (snd t + acc)%Z else acc)
    0%Z (terms st).

Definition probability (st : qstate) (b : basis) : Q :=
  (inject_Z (amplitude st b * amplitude st b)
   / inject_Z (2 ^ Z.of_nat (hcount st)))%Q.

(** The key of an outcome: the value of qubit 0 is the rightmost
    character. *)
Definition bit_char (v : bool) : ascii := if v then "1"%char else "0"%char.

Definition key (b : basis) : str := rev (List.map bit_char b).

(** Expected counts: an outcome of probability zero is absent. *)
Definition noiseless (_ : nat) (qc : circuit) (shots : Z) : Dict.t str Q :=
  let st := run qc in
  fold_left
    (fun counts (t : basis * Z) =>
       if (amplitude st (fst t) =? 0)%Z then counts
       else Dict.set str_eqb counts (key (fst t))
              (probability st (fst t) * inject_Z shots)%Q)
    (terms st) [].

(** A string of ['0'] and ['1'], and the basis state it names. *)
Definition is_bit (c : ascii) : bool := Ascii.eqb c "0" || Ascii.eqb c "1".
Definition bitstring (s : str) : bool := forallb is_bit s.
Definition is_one (c : ascii) : bool := Ascii.eqb c "1".
Definition bits (s : str) : basis := List.map is_one s.

(** Bit [i] of a string, the positions where two strings differ and
    those where both have ['1']; characters beyond the end read ['0']. *)
Definition bit_of (s : str) (i : nat) : bool := is_one (nth i s "0"%char).
Definition differ (a b : str) (i : nat) : bool :=
  negb (Ascii.eqb (nth i a "0"%char) (nth i b "0"%char)).
Definition shared_one (a b : str) (i : nat) : bool :=
  negb (differ a b i) && bit_of a i.

(** The operations that lines 191-197 append for the positions [diff]. *)
Definition entangle (a : str) (diff : list nat) : list gate :=
  match diff with
  | [] => []
  | d0 :: rest =>
      [h d0] ++ List.map (cx d0) rest ++ List.map x (filter (bit_of a) diff)
  end.

(** [x] on each qubit of a list, and membership in such a list. *)
Definition flips (l : list nat) (b : basis) : basis :=
  fold_left (fun b q => flip q b) l b.
Definition memb (i : nat) (l : list nat) : bool := existsb (Nat.eqb i) l.

(** [cx] from the control [c] to each qubit of a list. *)
Definition controlled (c : nat) (l : list nat) (b : basis) : basis :=
  fold_left (fun b t => if nth c b false then flip t b else b) l b.

End Superposer.

(* ================================================================== *)
(** * Sample inputs *)
(* ================================================================== *)

Module Samples.

(** A backend that reports 1000 of 1024 shots as ['1']. *)
Definition mostly_one (_ : list Twobit.gate) (_ : Z) : Dict.t Py.str Q :=
  [(Py.lit "0", 24 # 1); (Py.lit "1", 1000 # 1)].

(** The object that [layout([2, 2])] builds. *)
Definition grid_2x2 : Layout.layout :=
  {| Layout.num := 4;
     Layout.pairs := [(65, (0, 1)); (66, (2, 3)); (67, (0, 2)); (68, (1, 3))]%Z;
     Layout.pos :=
       [(Layout.Qubit 0, (0, 0)); (Layout.Qubit 2, (0, 1));
        (Layout.Qubit 1, (1, 0)); (Layout.Qubit 3, (1, 1));
        (Layout.Coupler 65, (1 # 2, 0)); (Layout.Coupler 66, (1 # 2, 1));
        (Layout.Coupler 67, (0, 1 # 2)); (Layout.Coupler 68, (1, 1 # 2))]%Q |}.

(** Counts of four shots on four qubits. *)
Definition four_shots : Dict.t Py.str Z :=
  [(Py.lit "0011", 3%Z); (Py.lit "0101", 1%Z)].

(** Counts of ten shots on four qubits, element 0 reading 1 in all. *)
Definition ten_shots : Dict.t Py.str Z :=
  [(Py.lit "0001", 1%Z); (Py.lit "0011", 2%Z); (Py.lit "0101", 3%Z);
   (Py.lit "0111", 3%Z); (Py.lit "1001", 1%Z)].

End Samples.

(* ================================================================== *)
(** * The noiseless backend for a twobit *)
(* ================================================================== *)

Module TwobitBackend.
Import Py.

(** The state of the qubit: two Gaussian integers [(re, im)], to be
    divided by [sqrt 2 ^ hcount].  [h] maps [(a0, a1)] to
    [(a0 + a1, a0 - a1) / sqrt 2], [s] multiplies [a1] by [i], [x] swaps
    the two; the final measurement reads the distribution. *)
Record qubit : Type := { a0 : Z * Z; a1 : Z * Z; hcount : nat }.

Definition ket0 : qubit := {| a0 := (1, 0)%Z; a1 := (0, 0)%Z; hcount := 0 |}.

Definition apply (g : Twobit.gate) (q : qubit) : qubit :=
  match g with
  | Twobit.h =>
      {| a0 := (fst (a0 q) + fst (a1 q), snd (a0 q) + snd (a1 q))%Z;
         a1 := (fst (a0 q) - fst (a1 q), snd (a0 q) - snd (a1 q))%Z;
         hcount := S (hcount q) |}
  | Twobit.s =>
      {| a0 := a0 q; a1 := (- snd (a1 q), fst (a1 q))%Z; hcount := hcount q |}
  | Twobit.x => {| a0 := a1 q; a1 := a0 q; hcount := hcount q |}
  | Twobit.barrier => q
  | Twobit.measure => q
  end.

Definition run (c : list Twobit.gate) : qubit :=
  fold_left (fun q g => apply g q) c ket0.

Definition norm2 (z : Z * Z) : Z := (fst z * fst z + snd z * snd z)%Z.

Definition probability (z : Z * Z) (q : qubit) : Q :=
  (inject_Z (norm2 z) / inject_Z (2 ^ Z.of_nat (hcount q)))%Q.

(** Expected counts: an outcome of probability zero is absent. *)
Definition noiseless (c : list Twobit.gate) (shots : Z) : Dict.t str Q :=
  let q := run c in
  (if (norm2 (a0 q) =? 0)%Z then []
   else [(lit "0", (probability (a0 q) q * inject_Z shots)%Q)]) ++
  (if (norm2 (a1 q) =? 0)%Z then []
   else [(lit "1", (probability (a1 q) q * inject_Z shots)%Q)]).

End TwobitBackend.

(* ================================================================== *)
(** * Basis states of a register *)
(* ================================================================== *)

Module Cube.

(** All basis states of [k] qubits, in the order in which Hadamard gates
    on the qubits 0, 1, ..., [k-1] of a register at zero produce them. *)
Fixpoint allbits (k : nat) : list Superposer.basis :=
  match k with
  | O => [[]]
  | S k' => flat_map (fun p => [p ++ [false]; p ++ [true]]) (allbits k')
  end.

End Cube.

(* ================================================================== *)
(** * The couplers of a grid *)
(* ================================================================== *)

Module Grid.
Import Py.
Local Open Scope Z_scope.

(** The pairs [[n, m]] that the two double loops of lines 397-408 hand to
    [self.pairs], in the order of the loops. *)
Definition horizontal (Lx Ly : Z) : list (Z * Z) :=
  flat_map (fun x => List.map (fun y => (x + y * Ly, x + y * Ly + 1)) (range Ly))
           (range (Lx - 1)).

Definition vertical (Lx Ly : Z) : list (Z * Z) :=
  flat_map (fun x => List.map (fun y => (x + y * Ly, x + y * Ly + Ly))
                              (range (Ly - 1)))
           (range Lx).

Definition couplers (Lx Ly : Z) : list (Z * Z) :=
  horizontal Lx Ly ++ vertical Lx Ly.

(** The labels [chr(char)], [chr(char + 1)], ... given to a list of pairs. *)
Definition labelled (char : Z) (l : list (Z * Z)) : Dict.t Z (Z * Z) :=
  combine (List.map (fun i => char + Z.of_nat i) (seq 0 (List.length l))) l.

End Grid.

(* ================================================================== *)
(** * Marginals of a table of counts *)
(* ================================================================== *)

Module Marginal.
Import Py.

(** The test [string[-n-1]=='1'] of line 436, false where the index is
    out of range. *)
Definition one_at (n : Z) (string : str) : bool :=
  match index string (- n - 1) with
  | Ok c => Ascii.eqb c "1"
  | Raise _ => false
  end.

(** The test [string[-e0-1]!=string[-e1-1]] of line 439, false where an
    index is out of range. *)
Definition differ_at (e0 e1 : Z) (string : str) : bool :=
  match index string (- e0 - 1), index string (- e1 - 1) with
  | Ok c0, Ok c1 => negb (Ascii.eqb c0 c1)
  | _, _ => false
  end.

(** What the code adds up for the outcomes that pass [f]: from [0], in the
    order of the dict, the quotients [count/Z]. *)
Definition share (A : Arith.t) (f : str -> bool) (raw_stats : Dict.t str Z)
  : Arith.num A :=
  fold_left (Arith.add A)
            (List.map (fun entry : str * Z =>
                         Arith.quot A (snd entry) (Layout.total raw_stats))
                      (filter (fun entry : str * Z => f (fst entry)) raw_stats))
            (Arith.zero A).

End Marginal.

(* ================================================================== *)
(** * emoticon_superposer *)
(* ================================================================== *)

Module Emoticon.
Import Py.

(** A [str] of any characters, as the list of its code points [ord(c)]. *)
Definition text := list N.

Fixpoint text_eqb (s t : text) : bool :=
  match s, t with
  | [], [] => true
  | c :: s', d :: t' => N.eqb c d && text_eqb s' t'
  | _, _ => false
  end.

(** [chr(n)] *)
Definition chr (n : N) : result N :=
  if (n <? 1114112)%N then Ok n else Raise ValueError.

(** [bin(n)[2:]] for [n >= 0]: the binary digits, most significant first. *)
Fixpoint bin_pos (p : positive) : str :=
  match p with
  | xH => ["1"%char]
  | xO q => bin_pos q ++ ["0"%char]
  | xI q => bin_pos q ++ ["1"%char]
  end.

Definition bin (n : N) : str :=
  match n with
  | N0 => ["0"%char]
  | Npos p => bin_pos p
  end.

(** Lines 244-245. *)
Definition bin4char (character : N) : str :=
  let b := bin character in
  repeat "0"%char (8 - List.length b) ++ b.

(** Lines 242-246. *)
Definition bin4emoticon (emoticon : text) : str :=
  fold_left (fun acc character => acc ++ bin4char character) emoticon [].

(** A computation that this model follows only on a part of its inputs:
    [None] where it does not. *)
Definition partial (A : Type) : Type := option (result A).

Definition pbind {A B} (m : partial A) (k : A -> partial B) : partial B :=
  match m with
  | Some (Ok a) => k a
  | Some (Raise e) => Some (Raise e)
  | None => None
  end.

Fixpoint pfor_each {A S} (xs : list A) (body : A -> S -> partial S) (s : S)
  : partial S :=
  match xs with
  | [] => Some (Ok s)
  | a :: xs' => pbind (body a s) (pfor_each xs' body)
  end.

(** [int(s, 2)] for a string of the digits ['0'] and ['1'], and for the
    empty string.  A string with another character ([int] knows signs,
    blanks, underscores and a prefix) is not followed: [None]. *)
Fixpoint digits (s : str) (acc : N) : option N :=
  match s with
  | [] => Some acc
  | c :: s' =>
      if Ascii.eqb c "0" then digits s' (2 * acc)%N
      else if Ascii.eqb c "1" then digits s' (2 * acc + 1)%N
      else None
  end.

Definition int2 (s : str) : partial N :=
  match s with
  | [] => Some (Raise ValueError)
  | _ => option_map Ok (digits s 0%N)
  end.

(** Lines 264-265: the two characters read from a key. *)
Definition ascii_key (string : str) : partial text :=
  pbind (int2 (firstn 8 string)) (fun n0 =>
  pbind (Some (chr n0)) (fun c0 =>
  pbind (int2 (firstn 8 (skipn 8 string))) (fun n1 =>
  pbind (Some (chr n1)) (fun c1 =>
  Some (Ok ([c0] ++ [c1])))))).

(** Lines 262-267 without the drawing, which does not touch the dict. *)
Definition ascii_stats (stats : Dict.t str Q) : partial (Dict.t text Q) :=
  pfor_each stats
    (fun (entry : str * Q) ascii_stats =>
       let (string, prob) := entry in
       pbind (ascii_key string) (fun char =>
       Some (Ok (Dict.set text_eqb ascii_stats char prob))))
    [].

(** The argument: a list of emoticons, or a list of such lists. *)
Inductive input : Type :=
| Strings (emoticons : list text)
| Lists (emoticons_list : list (list text)).

(** The value returned: one dict, or a list of dicts. *)
Inductive output : Type :=
| Mapping (ascii_stats : Dict.t text Q)
| Batch (ascii_stats_list : list (Dict.t text Q)).

Section Emoticon.
Variable get_counts : nat -> Superposer.circuit -> Z -> Dict.t str Q.

Definition emoticon_superposer (emoticons : input) (shots : Z)
  : partial output :=
  pbind (Some
           match emoticons with
           | Strings [] => Raise IndexError
           | Strings (e :: es) => Ok [e :: es]
           | Lists [] => Raise IndexError
           | Lists (l :: ls) => Ok (l :: ls)
           end) (fun emoticons_list =>
  let strings :=
    fold_left
      (fun strings emoticons =>
         strings ++
         [fold_left (fun string emoticon => string ++ [bin4emoticon emoticon])
                    emoticons []])
      emoticons_list [] in
  pbind (Some (Superposer.bitstring_superposer
                 get_counts (Superposer.Lists strings) shots)) (fun stats =>
  let stats_list :=
    match stats with
    | Superposer.Mapping stats => [stats]
    | Superposer.Batch stats_list => stats_list
    end in
  pbind (pfor_each stats_list
           (fun stats ascii_stats_list =>
              pbind (ascii_stats stats) (fun ascii_stats =>
              Some (Ok (ascii_stats_list ++ [ascii_stats]))))
           []) (fun ascii_stats_list =>
  Some (Ok match ascii_stats_list with
           | [ascii_stats] => Mapping ascii_stats
           | _ => Batch ascii_stats_list
           end)))).
End Emoticon.

(** The dicts of a returned value. *)
Definition dicts (out : output) : list (Dict.t text Q) :=
  match out with
  | Mapping ascii_stats => [ascii_stats]
  | Batch ascii_stats_list => ascii_stats_list
  end.

End Emoticon.

(* ================================================================== *)
(** * walker: the coupling of the constructor *)
(* ================================================================== *)

Module Walker.
Import Py.
Local Open Scope Z_scope.

(** [device]: a string that names a device, or the two sizes of a grid. *)
Inductive device : Type :=
| Name (name : str)
| Grid (dims : list Z).

(** [self.coupling[n].append(m)] *)
Definition append_to (coupling : Dict.t Z (list Z)) (n m : Z)
  : result (Dict.t Z (list Z)) :=
  l <- Dict.item Z.eqb coupling n ;;
  Ok (Dict.set Z.eqb coupling n (l ++ [m])).

(** The two statements of lines 564-565, 575-576 and 581-582 for the
    elements [n] and [m]. *)
Definition link (pair : Z * Z) (coupling : Dict.t Z (list Z))
  : result (Dict.t Z (list Z)) :=
  let (n, m) := pair in
  coupling <- append_to coupling n m ;;
  append_to coupling m n.

(** Lines 560-562 and 571-573. *)
Definition no_coupling (num : Z) : Dict.t Z (list Z) :=
  fold_left (fun coupling n => Dict.set Z.eqb coupling n []) (range num) [].

(** [pair[j]] for [j] in [range(2)]. *)
Definition pair_at (pair : Z * Z) (j : Z) : Z :=
  if j =? 0 then fst pair else snd pair.

Section Init.
Variable get_backend : str -> Layout.configuration.

(** Lines 555-583 of [__init__]: [self.num] and [self.coupling], or the
    exception that ends the constructor there. *)
Definition init_coupling (dev : device) : result (Z * Dict.t Z (list Z)) :=
  match dev with
  | Name name =>
      let backend := get_backend name in
      let num := Layout.n_qubits backend in
      let coupling_array := Layout.coupling_map backend in
      coupling <-
        for_each coupling_array
          (fun pair coupling =>
             for_each (range 2)
               (fun j coupling =>
                  link (pair_at pair j, pair_at pair ((j + 1) mod 2)) coupling)
               coupling)
          (no_coupling num) ;;
      Ok (num, coupling)
  | Grid dims =>
      Lx <- index dims 0 ;;
      Ly <- index dims 1 ;;
      let num := Lx * Ly in
      coupling <-
        for_each (range (Lx - 1))
          (fun x coupling =>
             for_each (range Ly)
               (fun y coupling =>
                  let n := x + y * Ly in
                  let m := n + 1 in
                  link (n, m) coupling) coupling)
          (no_coupling num) ;;
      coupling <-
        for_each (range Lx)
          (fun x coupling =>
             for_each (range (Ly - 1))
               (fun y coupling =>
                  let n := x + y * Ly in
                  let m := n + Ly in
                  link (n, m) coupling) coupling)
          coupling ;;
      Ok (num, coupling)
  end.
End Init.

(** [coupling[n]] where [n] is a key, and no neighbour where it is not. *)
Definition neighbours (coupling : Dict.t Z (list Z)) (n : Z) : list Z :=
  match Dict.get Z.eqb coupling n with
  | Some l => l
  | None => []
  end.

(** How many entries of the coupling map are [[n, m]]. *)
Definition entries (coupling_array : list (Z * Z)) (n m : Z) : nat :=
  List.length (filter (fun pair : Z * Z => (fst pair =? n) && (snd pair =? m))
                      coupling_array).

End Walker.

(* ================================================================== *)
(** * bell_correlation *)
(* ================================================================== *)

Module Bell.
Import Py.
Local Open Scope R_scope.

(** The two qubits [qr[0]] and [qr[1]] of the register. *)
Inductive qubit : Type := Q0 | Q1.

(** [qr[j]] for [j] in [range(2)]. *)
Definition qr (j : Z) : qubit := if (j =? 0)%Z then Q0 else Q1.

Inductive gate : Type :=
| h (q : qubit)
| cx (c t : qubit)
| ry (theta : R) (q : qubit)
| barrier
| measure.

(** Lines 123-138: the circuit for the measurement bases [basis]. *)
Definition program (basis : str) : result (list gate) :=
  let qc := [h Q0; cx Q0 Q1; ry (PI / 4) Q1; h Q1] in
  qc <- for_each (range 2)
          (fun j qc =>
             c <- index basis j ;;
             Ok (if Ascii.eqb c "X" then qc ++ [h (qr j)] else qc))
          qc ;;
  Ok (qc ++ [barrier] ++ [measure]).

Section Bell.
(** [execute(qc, backend, shots).result().get_counts()] *)
Variable get_counts : list gate -> Z -> Dict.t str R.

Definition bell_correlation (basis : str) (shots : Z) : result R :=
  qc <- program basis ;;
  let stats := get_counts qc shots in
  for_each stats
    (fun (entry : str * R) P =>
       let (string, count) := entry in
       if (shots =? 0)%Z then Raise ZeroDivisionError
       else
         let p := count / IZR shots in
         Ok (if existsb (str_eqb string) [lit "00"; lit "11"]
             then P + p else P))
    0.
End Bell.

(** ** The noiseless two-qubit backend

    The gates of the circuit are real matrices: a state gives a real
    amplitude to the values [b0] of [qr[0]] and [b1] of [qr[1]].
    [ry(theta)] is [[cos(theta/2), -sin(theta/2)],
    [sin(theta/2), cos(theta/2)]].  A [cx] with control and target on
    one qubit is not a gate and is left out. *)
Definition state : Type := bool -> bool -> R.

Definition ket0 : state := fun b0 b1 => if (b0 || b1)%bool then 0 else 1.

Definition sign (b : bool) : R := if b then -1 else 1.

Definition apply (g : gate) (psi : state) : state :=
  match g with
  | h Q0 => fun b0 b1 => (psi false b1 + sign b0 * psi true b1) / sqrt 2
  | h Q1 => fun b0 b1 => (psi b0 false + sign b1 * psi b0 true) / sqrt 2
  | cx Q0 Q1 => fun b0 b1 => psi b0 (xorb b1 b0)
  | cx Q1 Q0 => fun b0 b1 => psi (xorb b0 b1) b1
  | cx _ _ => psi
  | ry theta Q0 =>
      fun b0 b1 =>
        if b0
        then sin (theta / 2) * psi false b1 + cos (theta / 2) * psi true b1
        else cos (theta / 2) * psi false b1 - sin (theta / 2) * psi true b1
  | ry theta Q1 =>
      fun b0 b1 =>
        if b1
        then sin (theta / 2) * psi b0 false + cos (theta / 2) * psi b0 true
        else cos (theta / 2) * psi b0 false - sin (theta / 2) * psi b0 true
  | barrier => psi
  | measure => psi
  end.

Definition run (qc : list gate) : state :=
  fold_left (fun psi g => apply g psi) qc ket0.

Definition probability (psi : state) (b0 b1 : bool) : R :=
  psi b0 b1 * psi b0 b1.

(** Expected counts under the keys [c[1] c[0]]: an outcome of probability
    zero is absent. *)
Definition outcome (psi : state) (shots : Z) (key : string) (b0 b1 : bool)
  : Dict.t str R :=
  if Req_dec_T (probability psi b0 b1) 0 then []
  else [(lit key, probability psi b0 b1 * IZR shots)].

Definition noiseless (qc : list gate) (shots : Z) : Dict.t str R :=
  let psi := run qc in
  outcome psi shots "00" false false ++ outcome psi shots "01" true false ++
  outcome psi shots "10" false true ++ outcome psi shots "11" true true.

(** [sum(stats.values())] *)
Definition total (stats : Dict.t str R) : R :=
  fold_right Rplus 0 (Dict.values stats).

End Bell.

(* ================================================================== *)
(** * Properties *)
(* ================================================================== *)

Unset Implicit Arguments.

(** ** Helpers on fractions *)

Lemma Qltb_true (a b : Q) : Py.Qltb a b = true <-> a < b.
Proof.
  unfold Py.Qltb. rewrite negb_true_iff.
  split; intro H.
  - apply Qnot_le_lt. intro Hle.
    apply Qle_bool_iff in Hle. congruence.
  - destruct (Qle_bool b a) eqn:E; [|reflexivity].
    apply Qle_bool_iff in E. exfalso. exact (Qlt_not_le _ _ H E).
Qed.

Lemma Qltb_false (a b : Q) : Py.Qltb a b = false <-> b <= a.
Proof.
  unfold Py.Qltb. rewrite negb_false_iff. apply Qle_bool_iff.
Qed.

(** ** twobit *)

Lemma mitigate_low (p : Q) : p < 1 # 10 -> Twobit.mitigate p = 0.
Proof.
  intro H. unfold Twobit.mitigate.
  apply Qltb_true in H. now rewrite H.
Qed.

Lemma mitigate_high (p : Q) : 9 # 10 < p -> Twobit.mitigate p = 1.
Proof.
  intro H. unfold Twobit.mitigate.
  destruct (Py.Qltb p (1 # 10)) eqn:E.
  - apply Qltb_true in E. exfalso.
    assert (H1 : (1 # 10) < 9 # 10) by reflexivity.
    exact (Qlt_irrefl _ (Qlt_trans _ _ _ (Qlt_trans _ _ _ E H1) H)).
  - apply Qltb_true in H. now rewrite H.
Qed.

Lemma mitigate_idempotent_everywhere (p : Q) :
  Twobit.mitigate (Twobit.mitigate p) = Twobit.mitigate p.
Proof.
  destruct (Py.Qltb p (1 # 10)) eqn:Elo.
  - apply Qltb_true in Elo. now rewrite (mitigate_low _ Elo).
  - destruct (Py.Qltb (9 # 10) p) eqn:Ehi.
    + apply Qltb_true in Ehi. now rewrite (mitigate_high _ Ehi).
    + assert (E : Twobit.mitigate p = p)
        by (unfold Twobit.mitigate; now rewrite Elo, Ehi).
      now rewrite !E.
Qed.

(** C7. The threshold of lines 105-109 (0 below 0.1, 1 above 0.9, the
    fraction itself in between) is idempotent on every fraction [p] with
    [0 <= p <= 1]. *)
Theorem mitigate_idempotent (p : Q) :
  0 <= p -> p <= 1 ->
  Twobit.mitigate (Twobit.mitigate p) = Twobit.mitigate p.
Proof.
  intros _ _. apply mitigate_idempotent_everywhere.
Qed.

Lemma mitigate_idempotent_witness :
  0 <= 1 # 2 /\ (1 # 2) <= 1 /\
  Twobit.mitigate (Twobit.mitigate (1 # 2)) = Twobit.mitigate (1 # 2).
Proof.
  assert (H0 : 0 <= 1 # 2) by (unfold Qle; simpl; lia).
  assert (H1 : (1 # 2) <= 1) by (unfold Qle; simpl; lia).
  split; [exact H0 | split; [exact H1 |]].
  exact (mitigate_idempotent _ H0 H1).
Defined.

Lemma prepare_committed (basis : Py.str) (b : bool) (self : Twobit.twobit) :
  basis = Py.lit "X" \/ basis = Py.lit "Z" ->
  Twobit.prepare [(basis, Some b)] self =
  Py.Ok {| Twobit.qc :=
             (if b then [Twobit.x] else []) ++
             (if Py.str_eqb basis (Py.lit "X") then [Twobit.h] else []) |}.
Proof.
  intros [-> | ->]; destruct b; reflexivity.
Qed.

(** C10. With [mitigate=True], an observed fraction of ['1'] strictly below
    0.1 makes [twobit.value] return [False] and re-prepare the qubit with
    [False] in the requested basis, and a fraction strictly above 0.9 makes
    it return [True] and re-prepare with [True], whatever number in [0,1)
    [random.random()] returns. *)
Theorem value_mitigated_deterministic
  (execute : list Twobit.gate -> Z -> Dict.t Py.str Q)
  (basis : Py.str) (shots : Z) (rnd : Q) (self : Twobit.twobit) (p : Q) :
  basis = Py.lit "X" \/ basis = Py.lit "Z" ->
  0 <= rnd -> rnd < 1 ->
  Twobit.fraction (execute (Twobit.measured basis self) shots) shots = Py.Ok p ->
  (p < 1 # 10 ->
   exists self',
     Twobit.value execute basis shots true rnd self = Py.Ok (false, self') /\
     Twobit.prepare [(basis, Some false)] self = Py.Ok self' /\
     Twobit.qc self' =
       if Py.str_eqb basis (Py.lit "X") then [Twobit.h] else [])
  /\
  (9 # 10 < p ->
   exists self',
     Twobit.value execute basis shots true rnd self = Py.Ok (true, self') /\
     Twobit.prepare [(basis, Some true)] self = Py.Ok self' /\
     Twobit.qc self' =
       if Py.str_eqb basis (Py.lit "X")
       then [Twobit.x; Twobit.h] else [Twobit.x]).
Proof.
  intros Hb Hr0 Hr1 Hp. split; intro Hlim.
  - assert (Hv : Py.Qltb rnd 0 = false) by (now apply Qltb_false).
    eexists. split; [|split].
    + unfold Twobit.value. rewrite Hp. cbn [Py.bind].
      rewrite (mitigate_low _ Hlim), Hv.
      rewrite (prepare_committed _ false self Hb). reflexivity.
    + apply (prepare_committed _ false self Hb).
    + cbn. destruct (Py.str_eqb basis _); reflexivity.
  - assert (Hv : Py.Qltb rnd 1 = true) by (now apply Qltb_true).
    eexists. split; [|split].
    + unfold Twobit.value. rewrite Hp. cbn [Py.bind].
      rewrite (mitigate_high _ Hlim), Hv.
      rewrite (prepare_committed _ true self Hb). reflexivity.
    + apply (prepare_committed _ true self Hb).
    + cbn. destruct (Py.str_eqb basis _); reflexivity.
Qed.

Lemma value_mitigated_deterministic_witness :
  exists self',
    Twobit.value Samples.mostly_one (Py.lit "X") 1024 true (1 # 2)
                 {| Twobit.qc := [Twobit.h; Twobit.s] |} = Py.Ok (true, self') /\
    Twobit.qc self' = [Twobit.x; Twobit.h].
Proof.
  assert (H0 : 0 <= 1 # 2) by (unfold Qle; simpl; lia).
  assert (H1 : (1 # 2) < 1) by reflexivity.
  assert (Hb : Py.lit "X" = Py.lit "X" \/ Py.lit "X" = Py.lit "Z")
    by (left; reflexivity).
  assert (Hp : Twobit.fraction
                 (Samples.mostly_one
                    (Twobit.measured (Py.lit "X")
                       {| Twobit.qc := [Twobit.h; Twobit.s] |}) 1024) 1024
               = Py.Ok ((1000 # 1) / inject_Z 1024)) by reflexivity.
  destruct (proj2 (value_mitigated_deterministic
                     Samples.mostly_one (Py.lit "X") 1024%Z (1 # 2)
                     {| Twobit.qc := [Twobit.h; Twobit.s] |} _
                     Hb H0 H1 Hp)) as [self' [Hv [_ Hq]]].
  - reflexivity.
  - exists self'. split; [exact Hv | exact Hq].
Defined.

(** ** ladder: the store *)

Section LadderStore.
Import Ladder.

Lemma length_update (r : nat) (f : circuit -> circuit) (hp : heap) :
  List.length (update r f hp) = List.length hp.
Proof.
  revert r. induction hp as [|c hp IH]; intros [|r]; simpl; auto.
Qed.

Lemma deref_update_same (r : nat) (f : circuit -> circuit) (hp : heap) :
  (r < List.length hp)%nat -> deref r (update r f hp) = f (deref r hp).
Proof.
  unfold deref. revert r.
  induction hp as [|c hp IH]; intros [|r] Hr; simpl in *; try lia; auto.
  apply IH. lia.
Qed.

Lemma deref_update_other (r r' : nat) (f : circuit -> circuit) (hp : heap) :
  r <> r' -> deref r' (update r f hp) = deref r' hp.
Proof.
  unfold deref. revert r r'.
  induction hp as [|c hp IH]; intros [|r] [|r'] Hne; simpl; auto; try lia.
Qed.

Lemma deref_alloc_old (r : nat) (c : circuit) (hp : heap) :
  (r < List.length hp)%nat -> deref r (snd (alloc c hp)) = deref r hp.
Proof.
  intro Hr. unfold deref, alloc. simpl. now apply app_nth1.
Qed.

Lemma deref_alloc_new (c : circuit) (hp : heap) :
  deref (fst (alloc c hp)) (snd (alloc c hp)) = c.
Proof.
  unfold deref, alloc. simpl.
  rewrite app_nth2 by lia. now rewrite Nat.sub_diag.
Qed.

(** The store after [value]: one new object, the old ones as they were. *)
Lemma value_store (execute : circuit -> Z -> Dict.t Py.str R)
      (shots : Z) (self : ladder) (hp : heap) (r : nat) :
  (r < List.length hp)%nat ->
  deref r (snd (value execute shots self hp)) = deref r hp.
Proof.
  intro Hr. unfold value, append. cbn [alloc snd].
  rewrite !deref_update_other by lia.
  now apply deref_alloc_old.
Qed.

Lemma value_self (execute : circuit -> Z -> Dict.t Py.str R)
      (shots : Z) (self : ladder) (hp : heap) :
  snd (fst (value execute shots self hp)) = self.
Proof. reflexivity. Qed.

(** What [value] reports is a function of [self.d] and of the operations
    in [self.qc]. *)
Lemma value_returned (execute : circuit -> Z -> Dict.t Py.str R)
      (shots : Z) (self : ladder) (hp : heap) :
  returned (value execute shots self hp) =
  (p <- fraction (execute (deref (qc self) hp ++ [barrier; measure]) shots)
                 shots ;;
   decode p (d self)).
Proof.
  unfold returned, value, append. cbn [alloc fst].
  assert (Hlen : (List.length hp < List.length (hp ++ [deref (qc self) hp]))%nat)
    by (rewrite length_app; simpl; lia).
  rewrite deref_update_same by (rewrite length_update; exact Hlen).
  rewrite deref_update_same by exact Hlen.
  pose proof (deref_alloc_new (deref (qc self) hp) hp) as Hnew.
  cbn [alloc fst snd] in Hnew. rewrite Hnew.
  now rewrite <- app_assoc.
Qed.
End LadderStore.

(** C9. [ladder.value] is a read-only probe: the call leaves the attributes
    of the object and every circuit that existed before it, [self.qc]
    included, as they were, whatever the backend reports and whether or not
    the decoding raises; so a later [add] appends to the same operations,
    and a later [value] reports what it would have reported without the
    interleaved call. *)
Theorem value_read_only
  (execute : Ladder.circuit -> Z -> Dict.t Py.str R)
  (shots : Z) (self : Ladder.ladder) (hp : Ladder.heap) :
  (Ladder.qc self < List.length hp)%nat ->
  let after := Ladder.value execute shots self hp in
  let self' := snd (fst after) in
  let hp' := snd after in
  self' = self /\
  Ladder.deref (Ladder.qc self') hp' = Ladder.deref (Ladder.qc self) hp /\
  (forall r, (r < List.length hp)%nat ->
             Ladder.deref r hp' = Ladder.deref r hp) /\
  (forall delta hp1 hp1',
      Ladder.add delta self hp = Py.Ok hp1 ->
      Ladder.add delta self' hp' = Py.Ok hp1' ->
      Ladder.deref (Ladder.qc self') hp1' =
      Ladder.deref (Ladder.qc self) hp1) /\
  (forall shots2,
      Ladder.returned (Ladder.value execute shots2 self' hp') =
      Ladder.returned (Ladder.value execute shots2 self hp)).
Proof.
  intros Hq after self' hp'.
  assert (Hs : self' = self) by apply value_self.
  assert (Hd : forall r, (r < List.length hp)%nat ->
                         Ladder.deref r hp' = Ladder.deref r hp)
    by (intros r Hr; now apply value_store).
  split; [exact Hs|]. rewrite Hs.
  split; [now apply Hd|].
  split; [exact Hd|].
  split.
  - intros delta hp1 hp1'. unfold Ladder.add.
    destruct (Ladder.d self =? 0)%Z; [discriminate|].
    intros [= <-] [= <-]. unfold Ladder.append.
    rewrite !deref_update_same; [now rewrite Hd | exact Hq |].
    unfold hp', after, Ladder.value, Ladder.append. cbn [Ladder.alloc snd].
    rewrite !length_update, length_app. lia.
  - intro shots2. rewrite !value_returned. now rewrite Hd.
Qed.

Lemma value_read_only_witness :
  Ladder.deref 0
    (snd (Ladder.value Ladder.noiseless 1024
            {| Ladder.d := 3; Ladder.qc := 0 |} [[Ladder.rx 1%R]])) =
  [Ladder.rx 1%R].
Proof.
  assert (Hq : (Ladder.qc {| Ladder.d := 3; Ladder.qc := 0 |} <
                List.length [[Ladder.rx 1%R]])%nat) by (simpl; lia).
  exact (proj1 (proj2 (value_read_only Ladder.noiseless 1024
                         {| Ladder.d := 3; Ladder.qc := 0 |}
                         [[Ladder.rx 1%R]] Hq))).
Defined.

(** ** ladder: decoding on the noiseless backend *)

Section LadderNoiseless.
Import Ladder.
Local Open Scope R_scope.

Lemma fold_apply_rotated (c : circuit) (t : R) :
  fold_left (fun q g => apply g q) c
            {| a0 := (cos (t / 2), 0); a1 := (0, - sin (t / 2)) |} =
  {| a0 := (cos ((t + angle c) / 2), 0);
     a1 := (0, - sin ((t + angle c) / 2)) |}.
Proof.
  revert t. induction c as [|g c IH]; intro t; simpl.
  - now rewrite Rplus_0_r.
  - destruct g as [theta| |]; simpl.
    + replace (cos (theta / 2) * cos (t / 2) + sin (theta / 2) * - sin (t / 2))
        with (cos ((t + theta) / 2)).
      2:{ replace ((t + theta) / 2) with (t / 2 + theta / 2) by lra.
          rewrite cos_plus. ring. }
      replace (cos (theta / 2) * - sin (t / 2) - sin (theta / 2) * cos (t / 2))
        with (- sin ((t + theta) / 2)).
      2:{ replace ((t + theta) / 2) with (t / 2 + theta / 2) by lra.
          rewrite sin_plus. ring. }
      replace (cos (theta / 2) * 0 - sin (theta / 2) * 0) with 0 by lra.
      replace (sin (theta / 2) * 0 + cos (theta / 2) * 0) with 0 by lra.
      rewrite IH. now rewrite Rplus_assoc.
    + apply IH.
    + apply IH.
Qed.

Lemma run_rotated (c : circuit) :
  run c = {| a0 := (cos (angle c / 2), 0);
             a1 := (0, - sin (angle c / 2)) |}.
Proof.
  unfold run, ket0.
  pose proof (fold_apply_rotated c 0) as H.
  replace (0 / 2) with 0 in H by lra.
  rewrite cos_0, sin_0, Ropp_0, Rplus_0_l in H. exact H.
Qed.

Lemma prob1_rotated (c : circuit) :
  norm2 (a1 (run c)) = Rsqr (sin (angle c / 2)).
Proof.
  rewrite run_rotated. unfold norm2, Rsqr. simpl. lra.
Qed.

Lemma round_IZR (k : Z) : round (IZR k) = k.
Proof.
  unfold round, floor.
  assert (Hup : up (IZR k) = (k + 1)%Z).
  { symmetry. apply tech_up; rewrite plus_IZR; lra. }
  rewrite Hup.
  replace (k + 1 - 1)%Z with k by lia.
  destruct (Rlt_dec (IZR k - IZR k) (1 / 2)) as [_|Hn]; [reflexivity|].
  exfalso. apply Hn. lra.
Qed.

(** The fraction read from the noiseless counts is the probability. *)
Lemma fraction_noiseless (c : circuit) (shots : Z) :
  (0 < shots)%Z ->
  fraction (noiseless c shots) shots = Py.Ok (norm2 (a1 (run c))).
Proof.
  intro Hs. unfold fraction, noiseless.
  assert (Hz : (shots =? 0)%Z = false) by (apply Z.eqb_neq; lia).
  assert (Hr : IZR shots <> 0) by (apply not_0_IZR; lia).
  destruct (Req_dec_T (norm2 (a0 (run c))) 0) as [E0|E0];
    destruct (Req_dec_T (norm2 (a1 (run c))) 0) as [E1|E1];
    cbn; rewrite ?Hz; try (now rewrite E1);
    f_equal; field; exact Hr.
Qed.

Lemma decode_rotation (t : R) (d0 k : Z) :
  0 <= t <= PI / 2 ->
  2 * t * IZR d0 / PI = IZR k ->
  decode (Rsqr (sin t)) d0 = Py.Ok k.
Proof.
  intros Ht Hk. unfold decode.
  assert (Hsin0 : 0 <= sin t) by (apply sin_ge_0; lra).
  assert (Hsin1 : sin t <= 1) by apply SIN_bound.
  assert (Hsq : Rsqr (sin t) <= 1).
  { unfold Rsqr. nra. }
  assert (Hsq0 : 0 <= Rsqr (sin t)) by apply Rle_0_sqr.
  destruct (Rlt_dec (Rsqr (sin t)) 0) as [Hlt|_]; [lra|].
  destruct (Rlt_dec 1 (Rsqr (sin t))) as [Hlt|_]; [lra|].
  rewrite sqrt_Rsqr by exact Hsin0.
  rewrite asin_sin by lra.
  rewrite Hk. now rewrite round_IZR.
Qed.
End LadderNoiseless.

Lemma deref_init_add (d0 : Z) (hp : Ladder.heap) (g : Ladder.gate) :
  Ladder.deref (Ladder.qc (fst (Ladder.init d0 hp)))
               (Ladder.append (Ladder.qc (fst (Ladder.init d0 hp))) g
                              (snd (Ladder.init d0 hp))) = [g].
Proof.
  unfold Ladder.init, Ladder.append. cbn [Ladder.alloc fst snd Ladder.qc].
  rewrite deref_update_same by (rewrite length_app; simpl; lia).
  pose proof (deref_alloc_new [] hp) as Hnew.
  cbn [Ladder.alloc fst snd] in Hnew. now rewrite Hnew.
Qed.

(** C6. On the noiseless backend a new ladder with modulus [d > 0] reports
    [k] after one [add(k)] with [0 <= k <= d], and reports 0 after
    [add(d)] twice: the decoded value is reflected at [d], it does not wrap
    around. *)
Theorem ladder_round_trip (d0 k shots : Z) (hp : Ladder.heap) :
  (0 < d0)%Z -> (0 <= k <= d0)%Z -> (0 < shots)%Z ->
  (exists hp1,
      Ladder.add (IZR k) (fst (Ladder.init d0 hp)) (snd (Ladder.init d0 hp))
      = Py.Ok hp1 /\
      Ladder.returned
        (Ladder.value Ladder.noiseless shots (fst (Ladder.init d0 hp)) hp1)
      = Py.Ok k) /\
  (exists hp1 hp2,
      Ladder.add (IZR d0) (fst (Ladder.init d0 hp)) (snd (Ladder.init d0 hp))
      = Py.Ok hp1 /\
      Ladder.add (IZR d0) (fst (Ladder.init d0 hp)) hp1 = Py.Ok hp2 /\
      Ladder.returned
        (Ladder.value Ladder.noiseless shots (fst (Ladder.init d0 hp)) hp2)
      = Py.Ok 0%Z).
Proof.
  intros Hd Hk Hs.
  assert (Hdz : (d0 =? 0)%Z = false) by (apply Z.eqb_neq; lia).
  assert (HdR : (0 < IZR d0)%R) by (apply IZR_lt; lia).
  assert (HkR : (0 <= IZR k <= IZR d0)%R) by (split; apply IZR_le; lia).
  pose proof PI_RGT_0 as Hpi.
  split.
  - eexists. split.
    + unfold Ladder.add. cbn [Ladder.init Ladder.alloc fst Ladder.d].
      rewrite Hdz. reflexivity.
    + rewrite value_returned.
      pose proof (deref_init_add d0 hp
                    (Ladder.rx (PI * IZR k / IZR d0))) as Hc.
      cbn [Ladder.init Ladder.alloc fst snd Ladder.d Ladder.qc] in Hc |- *.
      rewrite Hc.
      rewrite (fraction_noiseless _ _ Hs). cbn [Py.bind].
      rewrite prob1_rotated. apply decode_rotation.
      * cbn [Ladder.angle app].
        assert (Hq : (0 <= IZR k / IZR d0 <= 1)%R).
        { split.
          - apply Rmult_le_pos; [lra|]. left. now apply Rinv_0_lt_compat.
          - apply (Rmult_le_reg_r (IZR d0)); [exact HdR|].
            replace (IZR k / IZR d0 * IZR d0)%R with (IZR k) by (field; lra).
            lra. }
        replace ((PI * IZR k / IZR d0 + 0) / 2)%R
          with (PI / 2 * (IZR k / IZR d0))%R by (field; lra).
        split; [apply Rmult_le_pos; lra | nra].
      * cbn [Ladder.angle app]. field. lra.
  - eexists. eexists. split; [|split].
    + unfold Ladder.add. cbn [Ladder.init Ladder.alloc fst Ladder.d].
      rewrite Hdz. reflexivity.
    + unfold Ladder.add. cbn [Ladder.init Ladder.alloc fst Ladder.d].
      rewrite Hdz. reflexivity.
    + rewrite value_returned.
      pose proof (deref_init_add d0 hp
                    (Ladder.rx (PI * IZR d0 / IZR d0))) as Hc.
      cbn [Ladder.init Ladder.alloc fst snd Ladder.d Ladder.qc] in Hc |- *.
      unfold Ladder.append at 1.
      rewrite deref_update_same.
      2:{ unfold Ladder.append. rewrite length_update, length_app.
          simpl. lia. }
      rewrite Hc.
      rewrite (fraction_noiseless _ _ Hs). cbn [Py.bind].
      rewrite prob1_rotated.
      cbn [Ladder.angle app].
      replace ((PI * IZR d0 / IZR d0 + (PI * IZR d0 / IZR d0 + 0)) / 2)%R
        with PI by (field; lra).
      rewrite sin_PI, <- sin_0.
      apply decode_rotation; [lra | field; lra].
Qed.

Lemma ladder_round_trip_witness :
  exists hp1,
    Ladder.add (IZR 2) (fst (Ladder.init 5 [])) (snd (Ladder.init 5 []))
    = Py.Ok hp1 /\
    Ladder.returned
      (Ladder.value Ladder.noiseless 1024 (fst (Ladder.init 5 [])) hp1)
    = Py.Ok 2%Z.
Proof.
  assert (Hd : (0 < 5)%Z) by lia.
  assert (Hk : (0 <= 2 <= 5)%Z) by lia.
  assert (Hs : (0 < 1024)%Z) by lia.
  exact (proj1 (ladder_round_trip 5 2 1024 [] Hd Hk Hs)).
Defined.

(** ** dict *)

Lemma str_eqb_eq (a b : Py.str) : Py.str_eqb a b = true <-> a = b.
Proof.
  revert b. induction a as [|c a IH]; intros [|e b]; simpl;
    try (split; [discriminate | discriminate]); [tauto|].
  rewrite andb_true_iff, Ascii.eqb_eq, IH.
  split; [intros [-> ->]; reflexivity | intros [= -> ->]; auto].
Qed.

Lemma node_eqb_eq (a b : Layout.node) : Layout.node_eqb a b = true <-> a = b.
Proof.
  destruct a, b; simpl; rewrite ?Z.eqb_eq;
    split; try discriminate; try congruence.
Qed.

Section DictFacts.
Variables K V : Type.
Variable eqb : K -> K -> bool.
Hypothesis eqb_eq : forall a b, eqb a b = true <-> a = b.

Lemma eqb_refl (a : K) : eqb a a = true.
Proof. now apply eqb_eq. Qed.

Lemma eqb_neq (a b : K) : a <> b -> eqb a b = false.
Proof.
  intro H. destruct (eqb a b) eqn:E; [|reflexivity].
  apply eqb_eq in E. contradiction.
Qed.

Lemma get_none (d : Dict.t K V) (k : K) :
  Dict.get eqb d k = None <-> ~ In k (Dict.keys d).
Proof.
  induction d as [|[k' v] d IH]; simpl.
  - tauto.
  - destruct (eqb k' k) eqn:E.
    + apply eqb_eq in E. subst. split; [discriminate | tauto].
    + rewrite IH. split.
      * intros H [H1|H1]; [|tauto]. subst. rewrite eqb_refl in E. discriminate.
      * tauto.
Qed.

Lemma get_in (d : Dict.t K V) (k : K) (v : V) :
  Dict.get eqb d k = Some v -> In (k, v) d.
Proof.
  induction d as [|[k' v'] d IH]; simpl; [discriminate|].
  destruct (eqb k' k) eqn:E.
  - apply eqb_eq in E. intros [= ->]. left. now subst.
  - auto.
Qed.

(** An assignment to a new key appends an entry. *)
Lemma set_new (d : Dict.t K V) (k : K) (v : V) :
  ~ In k (Dict.keys d) -> Dict.set eqb d k v = d ++ [(k, v)].
Proof.
  induction d as [|[k' v'] d IH]; simpl; intro H; [reflexivity|].
  rewrite eqb_neq by tauto. rewrite IH by tauto. reflexivity.
Qed.

(** An assignment changes at most the first entry of the key. *)
Lemma in_set (d : Dict.t K V) (k k0 : K) (v v0 : V) :
  In (k0, v0) (Dict.set eqb d k v) ->
  In (k0, v0) d \/ (k0 = k /\ v0 = v).
Proof.
  induction d as [|[k' v'] d IH]; simpl.
  - intros [[= <- <-]|[]]. now right.
  - destruct (eqb k' k) eqn:E; simpl.
    + apply eqb_eq in E. subst.
      intros [[= <- <-]|H]; [now right | left; now right].
    + intros [H|H]; [left; now left|].
      destruct (IH H) as [H1|H1]; [left; now right | now right].
Qed.

Lemma keys_set (d : Dict.t K V) (k : K) (v : V) :
  Dict.keys (Dict.set eqb d k v) =
  if Dict.mem eqb d k then Dict.keys d else Dict.keys d ++ [k].
Proof.
  unfold Dict.mem.
  induction d as [|[k' v'] d IH]; simpl; [reflexivity|].
  destruct (eqb k' k) eqn:E; simpl; [reflexivity|].
  rewrite IH. now destruct (Dict.get eqb d k).
Qed.

(** Every dict the code builds has one entry per key. *)
Lemma nodup_set (d : Dict.t K V) (k : K) (v : V) :
  NoDup (Dict.keys d) -> NoDup (Dict.keys (Dict.set eqb d k v)).
Proof.
  intro H. rewrite keys_set. unfold Dict.mem.
  destruct (Dict.get eqb d k) eqn:E; [exact H|].
  apply get_none in E.
  apply NoDup_app; [exact H | repeat constructor; auto | ].
  intros a Ha [<-|[]]. contradiction.
Qed.
End DictFacts.

(** ** layout: construction *)

(** C1. The grid [[1, 2]] has two elements, 0 and 1, but its only coupler
    references the elements 0 and 2: the row stride of line 405 is [Ly]
    where the index of [(x, y)] needs [Lx]. *)
Theorem grid_1x2_coupler_out_of_range
  (get_backend : Py.str -> Layout.configuration) :
  exists self,
    snd (Layout.init get_backend (Layout.Grid [1; 2]%Z)) = Py.Ok self /\
    Layout.num self = 2%Z /\
    Layout.pairs self = [(65, (0, 2))]%Z /\
    ~ (0 <= 2 < Layout.num self)%Z.
Proof.
  eexists. split; [reflexivity|].
  cbn. repeat split. lia.
Qed.

(** C4. A device that is neither one of the three recognized names nor a
    list makes the constructor print the message that names the accepted
    devices and end with an exception, at line 418, without a call of
    [get_backend]. *)
Theorem unrecognized_device_aborts
  (get_backend : Py.str -> Layout.configuration) (dev : Layout.device) :
  (forall name, dev = Layout.Name name -> Layout.recognized name = false) ->
  (forall dims, dev <> Layout.Grid dims) ->
  fst (Layout.init get_backend dev) = [Layout.Print Layout.not_recognized] /\
  snd (Layout.init get_backend dev) = Py.Raise Py.AttributeError /\
  (forall name,
      ~ In (Layout.GetBackend name) (fst (Layout.init get_backend dev))).
Proof.
  intros Hname Hgrid.
  assert (H : Layout.init get_backend dev =
              ([Layout.Print Layout.not_recognized],
               Py.Raise Py.AttributeError)).
  { destruct dev as [name|dims|]; simpl.
    - now rewrite (Hname name eq_refl).
    - now destruct (Hgrid dims).
    - reflexivity. }
  rewrite H. simpl. repeat split.
  intros name [Hin|[]]. discriminate.
Qed.

Lemma unrecognized_device_aborts_witness :
  snd (Layout.init
         (fun _ => {| Layout.n_qubits := 5; Layout.coupling_map := [] |})
         (Layout.Name (Py.lit "ibmqx3"))) = Py.Raise Py.AttributeError.
Proof.
  refine (proj1 (proj2 (unrecognized_device_aborts _ _ _ _))).
  - intros name [= <-]. reflexivity.
  - intros dims. discriminate.
Defined.

(** ** layout: calculate_probs *)

Section CalculateProbs.
Import Layout.
Local Open Scope Q_scope.
Variable A : Arith.t.

Lemma range_nodup (n : Z) : NoDup (Py.range n).
Proof.
  unfold Py.range. apply Injective_map_NoDup.
  - intros a b. apply Nat2Z.inj.
  - apply seq_NoDup.
Qed.

Lemma total_from (raw : Dict.t Py.str Z) (z : Z) :
  fold_left (fun z (entry : Py.str * Z) => (z + snd entry)%Z) raw z =
  (z + total raw)%Z.
Proof.
  unfold total. revert z.
  induction raw as [|[k c] raw IH]; intro z; simpl; [lia|].
  rewrite (IH (z + c)%Z), (IH c). lia.
Qed.

Lemma total_cons (k : Py.str) (c : Z) (raw : Dict.t Py.str Z) :
  total ((k, c) :: raw) = (c + total raw)%Z.
Proof. unfold total at 1. simpl. rewrite total_from. lia. Qed.

Lemma total_nonneg (raw : Dict.t Py.str Z) :
  (forall k c, In (k, c) raw -> (0 <= c)%Z) -> (0 <= total raw)%Z.
Proof.
  induction raw as [|[k c] raw IH]; intro H; [unfold total; simpl; lia|].
  rewrite total_cons.
  assert (0 <= c)%Z by (apply (H k); now left).
  assert (0 <= total raw)%Z by (apply IH; intros; eapply H; right; eauto).
  lia.
Qed.

Lemma normalize_from (z : Z) (raw : Dict.t Py.str Z)
      (acc : Dict.t Py.str (Arith.num A)) :
  z <> 0%Z ->
  (forall k c, In (k, c) raw -> Arith.overflow A c z = false) ->
  NoDup (Dict.keys acc ++ Dict.keys raw) ->
  Py.for_each raw
    (fun (entry : Py.str * Z) stats =>
       let (string, count) := entry in
       if (z =? 0)%Z then Py.Raise Py.ZeroDivisionError
       else if Arith.overflow A count z then Py.Raise Py.OverflowError
       else Py.Ok (Dict.set Py.str_eqb stats string (Arith.quot A count z)))
    acc = Py.Ok (acc ++ scaled A z raw).
Proof.
  intro Hz. apply Z.eqb_neq in Hz. revert acc.
  induction raw as [|[k c] raw IH]; intros acc Hfin Hnd; simpl.
  - now rewrite app_nil_r.
  - rewrite Hz at 1. rewrite (Hfin k c (or_introl eq_refl)).
    cbn [Py.bind]. simpl in Hnd.
    rewrite (@set_new _ _ _ str_eqb_eq).
    2:{ apply NoDup_remove_2 in Hnd. intro Hin. apply Hnd.
        apply in_or_app. now left. }
    rewrite IH.
    + now rewrite <- app_assoc.
    + intros k' c' Hin. apply (Hfin k' c'). now right.
    + unfold Dict.keys in *. rewrite map_app. simpl.
      rewrite <- app_assoc. exact Hnd.
Qed.

(** A loop of lines 427-428 that ends has met no quotient too large. *)
Lemma normalize_finite (z : Z) (raw : Dict.t Py.str Z)
      (acc stats : Dict.t Py.str (Arith.num A)) :
  z <> 0%Z ->
  Py.for_each raw
    (fun (entry : Py.str * Z) stats =>
       let (string, count) := entry in
       if (z =? 0)%Z then Py.Raise Py.ZeroDivisionError
       else if Arith.overflow A count z then Py.Raise Py.OverflowError
       else Py.Ok (Dict.set Py.str_eqb stats string (Arith.quot A count z)))
    acc = Py.Ok stats ->
  forall k c, In (k, c) raw -> Arith.overflow A c z = false.
Proof.
  intro Hz. apply Z.eqb_neq in Hz. revert acc.
  induction raw as [|[k0 c0] raw IH]; intros acc Hrun k c Hin;
    [destruct Hin|].
  cbn [Py.for_each] in Hrun. rewrite Hz in Hrun at 1.
  destruct (Arith.overflow A c0 z) eqn:E; [discriminate|].
  cbn [Py.bind] in Hrun.
  destruct Hin as [[= <- <-]|Hin]; [exact E|].
  exact (IH _ Hrun k c Hin).
Qed.

Lemma normalize_ok (raw : Dict.t Py.str Z) :
  total raw <> 0%Z ->
  (forall k c, In (k, c) raw -> Arith.overflow A c (total raw) = false) ->
  NoDup (Dict.keys raw) ->
  normalize A raw = Py.Ok (scaled A (total raw) raw).
Proof.
  intros Hz Hfin Hnd. unfold normalize.
  now rewrite normalize_from.
Qed.

Lemma normalize_zero (raw : Dict.t Py.str Z) :
  raw <> [] -> total raw = 0%Z ->
  normalize A raw = Py.Raise Py.ZeroDivisionError.
Proof.
  intros Hne Hz. unfold normalize. rewrite Hz.
  destruct raw as [|[k c] raw]; [contradiction|reflexivity].
Qed.

Lemma Qsum_scaled (z : Z) (raw : Dict.t Py.str Z) :
  z <> 0%Z ->
  Py.Qsum (Dict.values (scaled Arith.Exact z raw)) == inject_Z (total raw) / inject_Z z.
Proof.
  intro Hz.
  assert (Hq : ~ inject_Z z == 0).
  { intro H. apply Hz. unfold Qeq in H. simpl in H. lia. }
  induction raw as [|[k c] raw IH]; simpl.
  - unfold total. simpl. now field.
  - rewrite IH, total_cons, inject_Z_plus. now field.
Qed.

Lemma scaled_nonneg (z : Z) (raw : Dict.t Py.str Z) :
  (0 < z)%Z -> (forall k c, In (k, c) raw -> (0 <= c)%Z) ->
  forall k p, In (k, p) (scaled Arith.Exact z raw) -> 0 <= p.
Proof.
  intros Hz Hc k p Hin. unfold scaled in Hin.
  apply in_map_iff in Hin. destruct Hin as [[k' c] [[= <- <-] Hin]].
  simpl. apply Qle_shift_div_l.
  - change 0 with (inject_Z 0). rewrite <- Zlt_Qlt. exact Hz.
  - rewrite Qmult_0_l. change 0 with (inject_Z 0). rewrite <- Zle_Qle.
    eapply Hc. eauto.
Qed.
End CalculateProbs.

(** The exact arithmetic, unfolded to the operations on fractions. *)
Ltac exact_arith :=
  cbn [Arith.num Arith.zero Arith.add Arith.quot Arith.overflow
       Arith.Exact] in *.

Section Accumulate.
Import Layout.
Local Open Scope Q_scope.

Lemma in_bump (probs probs' : Dict.t node Q) (k k0 : node) (p v0 : Q) :
  bump Arith.Exact probs k p = Py.Ok probs' ->
  In (k0, v0) probs' ->
  In (k0, v0) probs \/
  (k0 = k /\ exists v, In (k, v) probs /\ v0 = v + p).
Proof.
  unfold bump, Dict.item. exact_arith.
  destruct (Dict.get node_eqb probs k) as [v|] eqn:E; [|discriminate].
  cbn [Py.bind]. intros [= <-] Hin.
  destruct (@in_set _ _ _ node_eqb_eq _ _ _ _ _ Hin) as [H|[-> ->]];
    [now left|].
  right. split; [reflexivity|]. exists v. split; [|reflexivity].
  exact (@get_in _ _ _ node_eqb_eq _ _ _ E).
Qed.

(** A loop whose body adds [p] to the entry of its own key, or does
    nothing, adds [p] at most once to an entry when the keys differ. *)
Lemma loop_bumps (A : Type) (key : A -> node) (p : Q)
      (body : A -> Dict.t node Q -> Py.result (Dict.t node Q)) :
  (forall a probs probs',
      body a probs = Py.Ok probs' ->
      probs' = probs \/ bump Arith.Exact probs (key a) p = Py.Ok probs') ->
  forall xs probs probs',
    NoDup (List.map key xs) ->
    Py.for_each xs body probs = Py.Ok probs' ->
    forall k v',
      In (k, v') probs' ->
      exists v, In (k, v) probs /\
                (v' = v \/ (In k (List.map key xs) /\ v' = v + p)).
Proof.
  intros Hbody xs.
  induction xs as [|a xs IH]; intros probs probs' Hnd Hrun k v' Hin.
  - simpl in Hrun. injection Hrun as <-. exists v'. auto.
  - simpl in Hrun, Hnd.
    destruct (body a probs) as [probs1|e] eqn:Ea; [|discriminate].
    cbn [Py.bind] in Hrun.
    inversion Hnd as [|? ? Hnotin Hnd']; subst.
    destruct (IH _ _ Hnd' Hrun _ _ Hin) as [v1 [Hin1 Hv1]].
    destruct (Hbody _ _ _ Ea) as [->|Hb].
    + exists v1. split; [exact Hin1|].
      destruct Hv1 as [->|[Hk ->]]; [now left|].
      right. split; [now right | reflexivity].
    + destruct (@in_bump _ _ _ _ _ _ Hb Hin1) as [Hold|[-> [v [Hv ->]]]].
      * exists v1. split; [exact Hold|].
        destruct Hv1 as [->|[Hk ->]]; [now left|].
        right. split; [now right | reflexivity].
      * exists v. split; [exact Hv|].
        destruct Hv1 as [->|[Hk _]].
        -- right. split; [now left | reflexivity].
        -- contradiction.
Qed.

(** One outcome of probability [p] adds [p] or nothing to every entry. *)
Lemma accumulate_step (self : layout) (string : Py.str) (p : Q)
      (probs probs' : Dict.t node Q) :
  NoDup (Dict.keys (pairs self)) ->
  accumulate Arith.Exact self string p probs = Py.Ok probs' ->
  forall k v',
    In (k, v') probs' ->
    exists v, In (k, v) probs /\ (v' = v \/ v' = v + p).
Proof.
  intros Hnd Hacc k v' Hin. unfold accumulate in Hacc.
  match type of Hacc with
  | Py.bind (Py.for_each ?xs ?body ?s) _ = _ =>
      destruct (Py.for_each xs body s) as [probs1|e] eqn:E1;
        [|discriminate]
  end.
  cbn [Py.bind] in Hacc.
  assert (Hnd2 : NoDup (List.map (fun entry : Z * (Z * Z) => Coupler (fst entry))
                                 (pairs self))).
  { rewrite <- (map_map fst Coupler).
    apply Injective_map_NoDup; [|exact Hnd].
    intros a b [= ->]. reflexivity. }
  assert (Hnd1 : NoDup (List.map Qubit (Py.range (num self)))).
  { apply Injective_map_NoDup; [|apply range_nodup].
    intros a b [= ->]. reflexivity. }
  assert (L2 : forall k v', In (k, v') probs' ->
               exists v1, In (k, v1) probs1 /\
               (v' = v1 \/
                (In k (List.map (fun entry : Z * (Z * Z) => Coupler (fst entry))
                                (pairs self)) /\ v' = v1 + p))).
  { apply (fun Hb => @loop_bumps _ (fun entry : Z * (Z * Z) =>
                                      Coupler (fst entry))
                       p _ Hb _ _ _ Hnd2 Hacc).
    intros [label [e0 e1]] pr pr' H.
    destruct (Py.index string (- e0 - 1)) as [c0|]; [|discriminate H].
    destruct (Py.index string (- e1 - 1)) as [c1|]; [|discriminate H].
    cbn [Py.bind] in H.
    destruct (negb (Ascii.eqb c0 c1));
      [right; exact H | left; now injection H]. }
  destruct (L2 _ _ Hin) as [v1 [Hin1 Hv1]].
  assert (L1 : forall k v1, In (k, v1) probs1 ->
               exists v, In (k, v) probs /\
               (v1 = v \/
                (In k (List.map Qubit (Py.range (num self))) /\ v1 = v + p))).
  { apply (fun Hb => @loop_bumps _ Qubit p _ Hb _ _ _ Hnd1 E1).
    intros n pr pr' H.
    destruct (Py.index string (- n - 1)) as [c|]; [|discriminate H].
    cbn [Py.bind] in H.
    destruct (Ascii.eqb c "1");
      [right; exact H | left; now injection H]. }
  destruct (L1 _ _ Hin1) as [v [Hin0 Hv]].
  exists v. split; [exact Hin0|].
  destruct Hv1 as [->|[Hk2 ->]]; destruct Hv as [->|[Hk1 ->]]; auto.
  exfalso.
  apply in_map_iff in Hk1. destruct Hk1 as [n [<- _]].
  apply in_map_iff in Hk2. destruct Hk2 as [entry [Hc _]]. discriminate.
Qed.
End Accumulate.

Section CalculateProbsBounds.
Import Layout.
Local Open Scope Q_scope.

Lemma zeros_from (ks : list node) (acc : Dict.t node Q) :
  (forall k v, In (k, v) acc -> v = 0) ->
  forall k v,
    In (k, v) (fold_left (fun probs n => Dict.set node_eqb probs n 0) ks acc) ->
    v = 0.
Proof.
  revert acc. induction ks as [|n ks IH]; intros acc Hacc k v; simpl.
  - apply Hacc.
  - apply IH. intros k0 v0 Hin.
    destruct (@in_set _ _ _ node_eqb_eq _ _ _ _ _ Hin) as [H|[_ ->]];
      [eapply Hacc; eauto | reflexivity].
Qed.

Lemma outcomes_bound (self : layout) (stats : Dict.t Py.str Q) :
  NoDup (Dict.keys (pairs self)) ->
  (forall k p, In (k, p) stats -> 0 <= p) ->
  forall (B : Q) (probs probs' : Dict.t node Q),
    (forall k v, In (k, v) probs -> 0 <= v /\ v <= B) ->
    Py.for_each stats
      (fun (entry : Py.str * Q) probs =>
         accumulate Arith.Exact self (fst entry) (snd entry) probs)
      probs = Py.Ok probs' ->
    forall k v, In (k, v) probs' ->
                0 <= v /\ v <= B + Py.Qsum (Dict.values stats).
Proof.
  intros Hnd.
  induction stats as [|[string p] stats IH];
    intros Hpos B probs probs' Hb Hrun k v Hin.
  - simpl in Hrun. injection Hrun as <-.
    destruct (Hb _ _ Hin) as [H0 H1]. split; [exact H0|].
    simpl. Lqa.lra.
  - simpl in Hrun.
    destruct (accumulate Arith.Exact self string p probs) as [probs1|e] eqn:E;
      [|discriminate].
    cbn [Py.bind] in Hrun.
    assert (Hp : 0 <= p) by (apply (Hpos string); now left).
    assert (Hb1 : forall k v, In (k, v) probs1 -> 0 <= v /\ v <= B + p).
    { intros k1 v1 Hin1.
      destruct (accumulate_step _ _ _ _ _ Hnd E _ _ Hin1) as [v0 [Hin0 Hv]].
      destruct (Hb _ _ Hin0) as [H0 H1].
      destruct Hv as [->| ->]; split; Lqa.lra. }
    assert (Hpos' : forall k p, In (k, p) stats -> 0 <= p)
      by (intros k0 p0 H0; apply (Hpos k0); now right).
    destruct (IH Hpos' _ _ _ Hb1 Hrun _ _ Hin) as [H0 H1].
    split; [exact H0|]. simpl. Lqa.lra.
Qed.
End CalculateProbsBounds.

(** Every layout that the constructor builds has one coupler per label. *)
Lemma for_each_invariant (A S : Type) (P : S -> Prop)
      (body : A -> S -> Py.result S) (xs : list A) :
  (forall a s s', P s -> body a s = Py.Ok s' -> P s') ->
  forall s s', P s -> Py.for_each xs body s = Py.Ok s' -> P s'.
Proof.
  intro Hbody. induction xs as [|a xs IH]; intros s s' Hs Hrun; simpl in Hrun.
  - now injection Hrun as <-.
  - destruct (body a s) as [s1|e] eqn:E; [|discriminate].
    cbn [Py.bind] in Hrun. eapply IH; [|exact Hrun]. eapply Hbody; eauto.
Qed.

Lemma add_pair_nodup (pr : Z * Z)
      (st st' : Dict.t Z (Z * Z) * Z) :
  NoDup (Dict.keys (fst st)) ->
  Layout.add_pair pr st = Py.Ok st' ->
  NoDup (Dict.keys (fst st')).
Proof.
  destruct st as [prs char]. unfold Layout.add_pair.
  destruct (Layout.chr char) as [label|e]; [|discriminate].
  cbn [Py.bind fst]. intros H [= <-]. cbn [fst].
  apply nodup_set; [apply Z.eqb_eq | exact H].
Qed.

Lemma init_pairs_nodup
      (get_backend : Py.str -> Layout.configuration) (dev : Layout.device)
      (self : Layout.layout) :
  snd (Layout.init get_backend dev) = Py.Ok self ->
  NoDup (Dict.keys (Layout.pairs self)).
Proof.
  assert (Hloop : forall (A : Type) (f : A -> Z * Z) (xs : list A) st st',
             NoDup (Dict.keys (fst st)) ->
             Py.for_each xs (fun a st => Layout.add_pair (f a) st) st
             = Py.Ok st' ->
             NoDup (Dict.keys (fst st'))).
  { intros A f xs.
    apply (for_each_invariant A _ (fun st => NoDup (Dict.keys (fst st)))).
    intros a s s' Hs Hb. exact (add_pair_nodup _ _ _ Hs Hb). }
  assert (Hnest : forall (f : Z -> Z -> Z * Z) (xs ys : list Z) st st',
             NoDup (Dict.keys (fst st)) ->
             Py.for_each xs
               (fun x st => Py.for_each ys (fun y st => Layout.add_pair (f x y) st) st)
               st = Py.Ok st' ->
             NoDup (Dict.keys (fst st'))).
  { intros f xs ys.
    apply (for_each_invariant Z _ (fun st => NoDup (Dict.keys (fst st)))).
    intros x s s' Hs Hb. exact (Hloop Z (f x) ys s s' Hs Hb). }
  destruct dev as [name|dims|]; simpl.
  - destruct (Layout.recognized name); simpl; [|discriminate].
    destruct (Py.for_each _ _ _) as [st|e] eqn:E; [|discriminate].
    cbn [Py.bind].
    destruct (Layout.midpoints _ _) as [ps|e]; [|discriminate].
    cbn [Py.bind]. intros [= <-]. cbn [Layout.pairs].
    refine (Hloop _ (fun pr => pr) _ _ _ _ E). constructor.
  - destruct (Py.index dims 0) as [Lx|e]; [|discriminate].
    destruct (Py.index dims 1) as [Ly|e]; [|discriminate].
    cbn [Py.bind].
    destruct (Layout.grid_pairs Lx Ly) as [st|e] eqn:E; [|discriminate].
    cbn [Py.bind].
    destruct (Layout.midpoints _ _) as [ps|e]; [|discriminate].
    cbn [Py.bind]. intros [= <-]. cbn [Layout.pairs].
    unfold Layout.grid_pairs in E.
    destruct (Py.for_each (Py.range (Lx - 1)) _ _) as [st1|e] eqn:E1;
      [|discriminate].
    cbn [Py.bind] in E.
    refine (Hnest (fun x y => (x + y * Ly, x + y * Ly + Ly)%Z) _ _ _ _ _ E).
    refine (Hnest (fun x y => (x + y * Ly, x + y * Ly + 1)%Z) _ _ _ _ _ E1).
    constructor.
  - discriminate.
Qed.

(** With exact fractions: the normalized counts sum to 1 and every value
    of the map lies in [0, 1]. *)
Lemma exact_unit_interval
  (self : Layout.layout) (raw_stats : Dict.t Py.str Z)
  (probs : Dict.t Layout.node Q) :
  raw_stats <> [] ->
  NoDup (Dict.keys raw_stats) ->
  (forall string count, In (string, count) raw_stats -> (0 <= count)%Z) ->
  NoDup (Dict.keys (Layout.pairs self)) ->
  Layout.calculate_probs Arith.Exact raw_stats self = Py.Ok probs ->
  (exists stats,
      Layout.normalize Arith.Exact raw_stats = Py.Ok stats /\
      Py.Qsum (Dict.values stats) == 1) /\
  (forall n v, In (n, v) probs -> 0 <= v /\ v <= 1).
Proof.
  intros Hne Hnd Hcounts Hpairs Hrun.
  assert (Hz : Layout.total raw_stats <> 0%Z).
  { intro Hz. unfold Layout.calculate_probs in Hrun.
    rewrite (normalize_zero Arith.Exact _ Hne Hz) in Hrun. discriminate. }
  assert (Hpos : (0 < Layout.total raw_stats)%Z).
  { pose proof (total_nonneg _ Hcounts). lia. }
  pose proof (normalize_ok Arith.Exact raw_stats Hz
                           (fun _ _ _ => eq_refl) Hnd) as Hnorm.
  assert (Hsum : Py.Qsum (Dict.values
                            (Layout.scaled Arith.Exact (Layout.total raw_stats) raw_stats))
                 == 1).
  { rewrite (Qsum_scaled _ _ Hz). field.
    intro H. apply Hz. unfold Qeq in H. simpl in H. lia. }
  split.
  - eexists. split; [exact Hnorm | exact Hsum].
  - intros n v Hin.
    unfold Layout.calculate_probs in Hrun. rewrite Hnorm in Hrun.
    cbn [Py.bind] in Hrun.
    assert (H0 : forall k v0,
               In (k, v0)
                  (fold_left
                     (fun probs n => Dict.set Layout.node_eqb probs n 0)
                     (Dict.keys (Layout.pos self)) []) ->
               0 <= v0 /\ v0 <= 0).
    { intros k v0 Hk.
      rewrite (zeros_from (Dict.keys (Layout.pos self)) [] (fun _ _ F => match F with end) _ _ Hk).
      split; apply Qle_refl. }
    destruct (outcomes_bound self _ Hpairs
                (scaled_nonneg _ raw_stats Hpos Hcounts) _ _ _ H0 Hrun _ _ Hin)
      as [Hlo Hhi].
    split; [exact Hlo|].
    rewrite Hsum in Hhi. rewrite Qplus_0_l in Hhi. exact Hhi.
Qed.

Lemma grid_2x2_built (get_backend : Py.str -> Layout.configuration) :
  Py.bind (snd (Layout.init get_backend (Layout.Grid [2; 2]%Z)))
          (fun self => Py.Ok (Layout.num self, Layout.pairs self,
                              Dict.keys (Layout.pos self))) =
  Py.Ok (Layout.num Samples.grid_2x2, Layout.pairs Samples.grid_2x2,
         Dict.keys (Layout.pos Samples.grid_2x2)).
Proof. reflexivity. Qed.

(** ** bitstring_superposer: padding and batches *)

(** C2. The strings ['1'] and ['10'] are not padded: the circuit is built
    from the list as given and reading bit 1 of ['1'] raises, where the
    padded list ['01'], ['10'] yields a circuit. *)
Theorem short_string_not_padded
  (get_counts : nat -> Superposer.circuit -> Z -> Dict.t Py.str Q) (shots : Z) :
  Superposer.program [Py.lit "1"; Py.lit "10"] = Py.Raise Py.IndexError /\
  Superposer.bitstring_superposer get_counts
    (Superposer.Strings [Py.lit "1"; Py.lit "10"]) shots
  = Py.Raise Py.IndexError /\
  Superposer.program [Superposer.padded 2 (Py.lit "1");
                      Superposer.padded 2 (Py.lit "10")]
  = Py.Ok {| Superposer.size := 2;
             Superposer.ops := [Superposer.h 0; Superposer.cx 0 1;
                                Superposer.x 1; Superposer.barrier;
                                Superposer.measure] |}.
Proof. repeat split. Qed.

Section Batches.
Import Superposer.
Variable get_counts : nat -> circuit -> Z -> Dict.t Py.str Q.
Variable shots : Z.

Lemma collect_ok (A B : Type) (f : A -> Py.result B)
      (xs : list A) (bs acc : list B) :
  Forall2 (fun a b => f a = Py.Ok b) xs bs ->
  Py.for_each xs (fun a acc => b <- f a ;; Py.Ok (acc ++ [b])) acc
  = Py.Ok (acc ++ bs).
Proof.
  intro H. revert acc.
  induction H as [|a b xs bs Hab _ IH]; intro acc; simpl.
  - now rewrite app_nil_r.
  - rewrite Hab. cbn [Py.bind]. rewrite IH. now rewrite <- app_assoc.
Qed.

Lemma choose_all (A B : Type) (R : A -> B -> Prop) (xs : list A) :
  (forall a, In a xs -> exists b, R a b) -> exists bs, Forall2 R xs bs.
Proof.
  induction xs as [|a xs IH]; intro H.
  - exists []. constructor.
  - destruct (H a (or_introl eq_refl)) as [b Hb].
    destruct IH as [bs Hbs]; [intros; apply H; now right|].
    exists (b :: bs). now constructor.
Qed.

Lemma Forall2_at (A B : Type) (R : A -> B -> Prop)
      (xs : list A) (ys : list B) (j : nat) (a : A) :
  Forall2 R xs ys -> nth_error xs j = Some a ->
  exists b, nth_error ys j = Some b /\ R a b.
Proof.
  intro H. revert j.
  induction H as [|a0 b0 xs ys Hab _ IH]; intros [|j] Hj;
    simpl in *; try discriminate.
  - injection Hj as <-. eauto.
  - eauto.
Qed.

Lemma nth_error_enumerate (A : Type) (l : list A) (s n j : nat) (a : A) :
  (List.length l <= n)%nat -> nth_error l j = Some a ->
  nth_error (combine (seq s n) l) j = Some ((s + j)%nat, a).
Proof.
  revert s n j. induction l as [|a0 l IH]; intros s n [|j] Hn Hj;
    simpl in *; try discriminate.
  - destruct n; [lia|]. simpl. injection Hj as <-.
    now rewrite Nat.add_0_r.
  - destruct n; [lia|]. simpl. rewrite (IH (S s) n j) by (auto; lia).
    do 2 f_equal. lia.
Qed.

Lemma corrected_from (raw acc : Dict.t Py.str Q) :
  shots <> 0%Z ->
  exists stats,
    Py.for_each raw
      (fun (entry : Py.str * Q) stats =>
         let (string, count) := entry in
         if (shots =? 0)%Z then Py.Raise Py.ZeroDivisionError
         else Py.Ok (Dict.set Py.str_eqb stats (rev string)
                       (count / inject_Z shots)%Q))
      acc = Py.Ok stats.
Proof.
  intro Hs. apply Z.eqb_neq in Hs. revert acc.
  induction raw as [|[k c] raw IH]; intro acc; simpl.
  - eauto.
  - destruct (IH (Dict.set Py.str_eqb acc (rev k) (c / inject_Z shots)%Q))
      as [stats Hst].
    exists stats. rewrite Hs at 1. cbn [Py.bind]. exact Hst.
Qed.

Lemma corrected_total (raw : Dict.t Py.str Q) :
  shots <> 0%Z -> exists stats, corrected raw shots = Py.Ok stats.
Proof. intro Hs. now apply corrected_from. Qed.
End Batches.

Lemma collect_inv (A B : Type) (f : A -> Py.result B) (xs : list A) :
  forall acc r,
    Py.for_each xs (fun a acc => b <- f a ;; Py.Ok (acc ++ [b])) acc = Py.Ok r ->
    exists bs, Forall2 (fun a b => f a = Py.Ok b) xs bs /\ r = acc ++ bs.
Proof.
  induction xs as [|a xs IH]; intros acc r H; simpl in H.
  - injection H as <-. exists []. split; [constructor | now rewrite app_nil_r].
  - destruct (f a) as [b|e] eqn:E; [|discriminate].
    cbn [Py.bind] in H. destruct (IH _ _ H) as [bs [Hbs ->]].
    exists (b :: bs). split; [now constructor | now rewrite <- app_assoc].
Qed.



(** ** bitstring_superposer: basis states *)

Section Bases.
Import Superposer.

Lemma length_flip (q : nat) (b : basis) :
  List.length (flip q b) = List.length b.
Proof.
  revert q. induction b as [|v b IH]; intros [|q]; simpl; auto.
Qed.

Lemma length_put (q : nat) (v : bool) (b : basis) :
  List.length (put q v b) = List.length b.
Proof.
  revert q. induction b as [|u b IH]; intros [|q]; simpl; auto.
Qed.

Lemma length_flips (l : list nat) (b : basis) :
  List.length (flips l b) = List.length b.
Proof.
  unfold flips. revert b. induction l as [|q l IH]; intro b; simpl; auto.
  rewrite IH. apply length_flip.
Qed.

Lemma nth_flip (q i : nat) (b : basis) :
  (i < List.length b)%nat ->
  nth i (flip q b) false =
  if Nat.eqb i q then negb (nth i b false) else nth i b false.
Proof.
  revert q i. induction b as [|v b IH]; intros [|q] [|i] Hi;
    simpl in *; try lia; auto.
  apply IH. lia.
Qed.

Lemma nth_put (q i : nat) (v : bool) (b : basis) :
  (i < List.length b)%nat ->
  nth i (put q v b) false = if Nat.eqb i q then v else nth i b false.
Proof.
  revert q i. induction b as [|u b IH]; intros [|q] [|i] Hi;
    simpl in *; try lia; auto.
  apply IH. lia.
Qed.

Lemma memb_in (i : nat) (l : list nat) : memb i l = true <-> In i l.
Proof.
  unfold memb. rewrite existsb_exists. split.
  - intros [y [Hy E]]. apply Nat.eqb_eq in E. now subst.
  - intro H. exists i. split; [exact H | apply Nat.eqb_refl].
Qed.

Lemma memb_not_in (i : nat) (l : list nat) : ~ In i l -> memb i l = false.
Proof.
  intro H. destruct (memb i l) eqn:E; [|reflexivity].
  apply memb_in in E. contradiction.
Qed.

Lemma nth_flips (l : list nat) (i : nat) (b : basis) :
  NoDup l -> (i < List.length b)%nat ->
  nth i (flips l b) false = xorb (memb i l) (nth i b false).
Proof.
  unfold flips. intro Hnd. revert b.
  induction Hnd as [|q l Hq Hnd IH]; intros b Hi; simpl.
  - now destruct (nth i b false).
  - rewrite IH by (now rewrite length_flip).
    rewrite nth_flip by exact Hi.
    destruct (Nat.eqb_spec i q) as [->|Hne]; simpl.
    + rewrite (@memb_not_in _ _ Hq). now destruct (nth q b false).
    + reflexivity.
Qed.

Lemma memb_filter (f : nat -> bool) (i : nat) (l : list nat) :
  memb i (filter f l) = memb i l && f i.
Proof.
  unfold memb. induction l as [|q l IH]; simpl; [reflexivity|].
  destruct (f q) eqn:Eq; simpl; rewrite IH.
  - destruct (Nat.eqb_spec i q) as [->|]; simpl; [now rewrite Eq|reflexivity].
  - destruct (Nat.eqb_spec i q) as [->|]; simpl; [|reflexivity].
    rewrite Eq. now rewrite andb_false_r.
Qed.

Lemma memb_seq (i n : nat) : memb i (seq 0 n) = Nat.ltb i n.
Proof.
  destruct (Nat.ltb_spec i n) as [H|H].
  - apply memb_in. apply in_seq. lia.
  - apply memb_not_in. rewrite in_seq. lia.
Qed.

Lemma basis_eqb_eq (a b : basis) : basis_eqb a b = true <-> a = b.
Proof.
  revert b. induction a as [|u a IH]; intros [|v b]; simpl;
    try (split; [discriminate | discriminate]); [tauto|].
  rewrite andb_true_iff, Bool.eqb_true_iff, IH.
  split; [intros [-> ->]; reflexivity | intros [= -> ->]; auto].
Qed.

Lemma nth_bits (s : Py.str) (i : nat) :
  nth i (bits s) false = is_one (nth i s "0"%char).
Proof.
  unfold bits. change false with (is_one "0"%char). apply map_nth.
Qed.

(** A bit-string is the name of its basis state. *)
Lemma chars_of_bits (s : Py.str) :
  bitstring s = true -> List.map bit_char (bits s) = s.
Proof.
  unfold bits, bitstring. rewrite map_map.
  induction s as [|c s IH]; simpl; [reflexivity|].
  rewrite andb_true_iff. intros [Hc Hs]. rewrite (IH Hs). f_equal.
  unfold is_bit in Hc. apply orb_true_iff in Hc.
  destruct Hc as [E|E]; apply Ascii.eqb_eq in E; now subst.
Qed.

Lemma bit_char_inj (a b : basis) :
  List.map bit_char a = List.map bit_char b -> a = b.
Proof.
  revert b. induction a as [|u a IH]; intros [|v b]; simpl;
    try discriminate; [reflexivity|].
  intros [= Huv Hab]. rewrite (IH _ Hab). f_equal.
  now destruct u, v.
Qed.
End Bases.

(** ** bitstring_superposer: the circuit of two strings *)

Section PairCircuit.
Import Superposer.
Variables a b : Py.str.
Hypothesis same_length : List.length b = List.length a.

Local Abbreviation bit_a := (bit_of a).
Local Abbreviation differ := (Superposer.differ a b).
Local Abbreviation shared_one := (Superposer.shared_one a b).
Local Abbreviation entangle := (Superposer.entangle a).

Lemma item_nth (A : Type) (l : list A) (i : nat) (d : A) :
  (i < List.length l)%nat -> item l i = Py.Ok (nth i l d).
Proof.
  intro Hi. unfold item.
  destruct (nth_error l i) as [c|] eqn:E.
  - now rewrite (nth_error_nth _ _ d E).
  - apply nth_error_None in E. lia.
Qed.

Lemma compare_loop (l : list nat) (qc : list gate) (diff : list nat) :
  (forall i, In i l -> (i < List.length a)%nat) ->
  Py.for_each l (compare_bit [a; b]) (qc, diff) =
  Py.Ok (qc ++ List.map x (filter shared_one l), diff ++ filter differ l).
Proof.
  revert qc diff. induction l as [|i l IH]; intros qc diff Hl.
  - simpl. now rewrite !app_nil_r.
  - cbn [Py.for_each]. unfold compare_bit at 1.
    cbn [item nth_error Py.bind].
    assert (Hi : (i < List.length a)%nat) by (apply Hl; now left).
    rewrite (item_nth _ a i "0"%char Hi). cbn [Py.bind].
    rewrite (item_nth _ b i "0"%char) by lia. cbn [Py.bind].
    rewrite IH by (intros; apply Hl; now right).
    cbn [filter].
    unfold Superposer.shared_one at 2, Superposer.differ at 2 3, bit_of, is_one.
    destruct (Ascii.eqb (nth i a "0"%char) (nth i b "0"%char));
      destruct (Ascii.eqb (nth i a "0"%char) "1"); cbn;
      now rewrite <- ?app_assoc.
Qed.

Lemma invert_loop (l : list nat) (qc : list gate) :
  (forall i, In i l -> (i < List.length a)%nat) ->
  Py.for_each l (invert_bit [a; b]) qc =
  Py.Ok (qc ++ List.map x (filter bit_a l)).
Proof.
  revert qc. induction l as [|i l IH]; intros qc Hl.
  - simpl. now rewrite app_nil_r.
  - cbn [Py.for_each]. unfold invert_bit at 1.
    cbn [item nth_error Py.bind].
    assert (Hi : (i < List.length a)%nat) by (apply Hl; now left).
    rewrite (item_nth _ a i "0"%char Hi). cbn [Py.bind].
    rewrite IH by (intros; apply Hl; now right).
    cbn [filter]. unfold bit_of at 2, is_one.
    destruct (Ascii.eqb (nth i a "0"%char) "1"); cbn;
      now rewrite <- ?app_assoc.
Qed.

Lemma cx_loop (d0 : nat) (rest : list nat) (qc : list gate) :
  fold_left (fun qc bit => qc ++ [cx d0 bit]) rest qc =
  qc ++ List.map (cx d0) rest.
Proof.
  revert qc. induction rest as [|t rest IH]; intro qc; simpl.
  - now rewrite app_nil_r.
  - rewrite IH. now rewrite <- app_assoc.
Qed.

Lemma h_loop (l : list nat) (qc : list gate) :
  fold_left (fun qc n => qc ++ [h n]) l qc = qc ++ List.map h l.
Proof.
  revert qc. induction l as [|t l IH]; intro qc; simpl.
  - now rewrite app_nil_r.
  - rewrite IH. now rewrite <- app_assoc.
Qed.

Lemma longest_pair : longest [a; b] = List.length a.
Proof. unfold longest. simpl. lia. Qed.

Lemma program_pair :
  List.length a <> 0%nat ->
  List.length a <> 1%nat ->
  program [a; b] =
  Py.Ok {| size := List.length a;
           ops := List.map x (filter shared_one (seq 0 (List.length a))) ++
                  entangle (filter differ (seq 0 (List.length a))) ++
                  [barrier; measure] |}.
Proof.
  intros H0 Hn. unfold program. rewrite longest_pair.
  destruct (Nat.eqb_spec (List.length a) 0) as [E0|_]; [contradiction|].
  assert (Hpow : (Z.of_nat (List.length [a; b])
                  =? 2 ^ Z.of_nat (List.length a))%Z = false).
  { apply Z.eqb_neq. cbn [List.length].
    destruct (List.length a) as [|[|m]]; [simpl; lia | contradiction |].
    intro H.
    assert (2 ^ 2 <= 2 ^ Z.of_nat (S (S m)))%Z
      by (apply Z.pow_le_mono_r; lia).
    simpl in *. lia. }
  rewrite Hpow.
  assert (Hseq : forall i, In i (seq 0 (List.length a)) ->
                           (i < List.length a)%nat)
    by (intros i Hi; apply in_seq in Hi; lia).
  rewrite (compare_loop _ [] [] Hseq). cbn [Py.bind app].
  destruct (filter differ (seq 0 (List.length a))) as [|d0 rest] eqn:Ed.
  - cbn [Py.bind Superposer.entangle]. reflexivity.
  - rewrite cx_loop.
    rewrite invert_loop.
    + cbn [Py.bind Superposer.entangle]. do 2 f_equal.
      rewrite <- !app_assoc. reflexivity.
    + intros i Hi. apply Hseq. rewrite <- Ed in Hi.
      apply filter_In in Hi. tauto.
Qed.
End PairCircuit.

(** ** bitstring_superposer: running the circuit of two strings *)

Section PairState.
Import Superposer.

Lemma apply_xs (l : list nat) (ts : list (basis * Z)) (k : nat) :
  fold_left (fun st g => apply g st) (List.map x l)
            {| terms := ts; hcount := k |} =
  {| terms := List.map (fun t : basis * Z => (flips l (fst t), snd t)) ts;
     hcount := k |}.
Proof.
  revert ts. induction l as [|q l IH]; intro ts; simpl.
  - f_equal. rewrite <- (map_id ts) at 1. apply map_ext.
    now intros [u z].
  - unfold on_bases. simpl. rewrite IH. f_equal.
    rewrite map_map. reflexivity.
Qed.

Lemma apply_cxs (c : nat) (l : list nat) (ts : list (basis * Z)) (k : nat) :
  fold_left (fun st g => apply g st) (List.map (cx c) l)
            {| terms := ts; hcount := k |} =
  {| terms := List.map (fun t : basis * Z => (controlled c l (fst t), snd t))
                       ts;
     hcount := k |}.
Proof.
  revert ts. induction l as [|q l IH]; intro ts; simpl.
  - f_equal. rewrite <- (map_id ts) at 1. apply map_ext.
    now intros [u z].
  - unfold on_bases. simpl. rewrite IH. f_equal.
    rewrite map_map. reflexivity.
Qed.

Lemma controlled_off (c : nat) (l : list nat) (u : basis) :
  nth c u false = false -> controlled c l u = u.
Proof.
  unfold controlled. intro H. induction l as [|t l IH]; simpl; auto.
  now rewrite H.
Qed.

Lemma controlled_on (c : nat) (l : list nat) (u : basis) :
  ~ In c l -> nth c u false = true -> controlled c l u = flips l u.
Proof.
  unfold controlled, flips. revert u.
  induction l as [|t l IH]; intros u Hc Hu; simpl; auto.
  rewrite Hu. apply IH; [intro; apply Hc; now right|].
  assert (Hlen : (c < List.length u)%nat).
  { destruct (Nat.lt_ge_cases c (List.length u)) as [H|H]; [exact H|].
    rewrite nth_overflow in Hu by exact H. discriminate. }
  rewrite nth_flip by exact Hlen.
  destruct (Nat.eqb_spec c t) as [->|_]; [|exact Hu].
  exfalso. apply Hc. now left.
Qed.

Variables a b : Py.str.
Hypothesis same_length : List.length b = List.length a.
Hypothesis bits_a : bitstring a = true.
Hypothesis bits_b : bitstring b = true.

Lemma nth_is_bit (s : Py.str) (i : nat) :
  bitstring s = true -> is_bit (nth i s "0"%char) = true.
Proof.
  unfold bitstring. intro H.
  destruct (Nat.lt_ge_cases i (List.length s)) as [Hi|Hi].
  - rewrite forallb_forall in H. apply H. now apply nth_In.
  - now rewrite nth_overflow.
Qed.

Lemma differ_bits (i : nat) :
  differ a b i = xorb (bit_of a i) (bit_of b i).
Proof.
  unfold differ, bit_of, is_one.
  pose proof (nth_is_bit a i bits_a) as Ha.
  pose proof (nth_is_bit b i bits_b) as Hb.
  unfold is_bit in Ha, Hb.
  apply orb_true_iff in Ha. apply orb_true_iff in Hb.
  destruct Ha as [Ha|Ha]; destruct Hb as [Hb|Hb];
    apply Ascii.eqb_eq in Ha; apply Ascii.eqb_eq in Hb;
    rewrite Ha, Hb; reflexivity.
Qed.

(** Two strings of one length that agree at every position are equal. *)
Lemma differ_somewhere :
  a <> b -> filter (differ a b) (seq 0 (List.length a)) <> [].
Proof.
  intros Hab Hnil. apply Hab.
  apply (nth_ext a b "0"%char "0"%char); [now symmetry|].
  intros i Hi.
  assert (Hin : In i (seq 0 (List.length a))) by (apply in_seq; lia).
  destruct (differ a b i) eqn:E.
  - assert (Hf : In i (filter (differ a b) (seq 0 (List.length a))))
      by (apply filter_In; auto).
    rewrite Hnil in Hf. destruct Hf.
  - unfold differ in E. apply negb_false_iff in E.
    now apply Ascii.eqb_eq in E.
Qed.
End PairState.

(** The circuit of two different bit-strings of one length, other than
    the pair ['0'], ['1'], leaves the register in the equal superposition of
    the two basis states they name. *)
Lemma run_pair (a b : Py.str) :
  List.length b = List.length a ->
  Superposer.bitstring a = true -> Superposer.bitstring b = true ->
  a <> b -> List.length a <> 1%nat ->
  exists qc,
    Superposer.program [a; b] = Py.Ok qc /\
    Superposer.run qc =
    {| Superposer.terms := [(Superposer.bits a, 1%Z); (Superposer.bits b, 1%Z)];
       Superposer.hcount := 1 |}.
Proof.
  intros Hlen Ha Hb Hab Hn.
  assert (H0 : List.length a <> 0%nat).
  { intro E. apply Hab. rewrite E in Hlen.
    apply length_zero_iff_nil in E. apply length_zero_iff_nil in Hlen.
    congruence. }
  eexists. split; [apply (program_pair a b Hlen H0 Hn)|].
  unfold Superposer.run. cbn [Superposer.ops Superposer.size].
  pose proof (differ_somewhere a b Hlen Hab) as Hd.
  destruct (filter (Superposer.differ a b) (seq 0 (List.length a)))
    as [|d0 rest] eqn:Ed; [contradiction|].
  cbn [Superposer.entangle].
  rewrite !fold_left_app.
  rewrite apply_xs.
  cbn [List.map fst snd fold_left Superposer.apply Superposer.terms
       Superposer.hcount flat_map app].
  rewrite apply_cxs. cbn [List.map fst snd].
  rewrite apply_xs. cbn [List.map fst snd].
  set (n := List.length a) in *.
  set (c0 := Superposer.flips
               (filter (Superposer.shared_one a b) (seq 0 n))
               (repeat false n)).
  set (D1 := filter (Superposer.bit_of a) (d0 :: rest)).
  assert (HndD : NoDup (d0 :: rest))
    by (rewrite <- Ed; apply NoDup_filter, seq_NoDup).
  assert (Hd0 : (d0 < n)%nat /\ Superposer.differ a b d0 = true).
  { assert (H : In d0 (filter (Superposer.differ a b) (seq 0 n)))
      by (rewrite Ed; now left).
    apply filter_In in H. destruct H as [H1 H2].
    apply in_seq in H1. split; [lia | exact H2]. }
  destruct Hd0 as [Hd0n Hd0d].
  assert (HndD1 : NoDup D1) by (apply NoDup_filter; exact HndD).
  assert (Hlc0 : List.length c0 = n)
    by (unfold c0; rewrite length_flips; apply repeat_length).
  assert (Hc0 : forall i, (i < n)%nat ->
                          nth i c0 false = Superposer.shared_one a b i).
  { intros i Hi. unfold c0.
    rewrite nth_flips;
      [| apply NoDup_filter, seq_NoDup | now rewrite repeat_length].
    rewrite nth_repeat, memb_filter, memb_seq.
    apply Nat.ltb_lt in Hi. rewrite Hi. simpl. apply xorb_false_r. }
  assert (Hmd : forall i, (i < n)%nat ->
                  Superposer.memb i (d0 :: rest) = Superposer.differ a b i).
  { intros i Hi. rewrite <- Ed, memb_filter, memb_seq.
    apply Nat.ltb_lt in Hi. now rewrite Hi. }
  assert (Hc0d0 : nth d0 c0 false = false).
  { rewrite (Hc0 _ Hd0n). unfold Superposer.shared_one.
    now rewrite Hd0d. }
  rewrite Hc0d0.
  assert (HP0 : nth d0 (Superposer.put d0 false c0) false = false)
    by (rewrite nth_put by lia; now rewrite Nat.eqb_refl).
  assert (HP1 : nth d0 (Superposer.put d0 true c0) false = true)
    by (rewrite nth_put by lia; now rewrite Nat.eqb_refl).
  assert (Hnr : ~ In d0 rest) by (inversion HndD; assumption).
  rewrite (controlled_off _ _ _ HP0), (controlled_on _ _ _ Hnr HP1).
  assert (Hlb : List.length (Superposer.bits a) = n)
    by (unfold Superposer.bits; apply length_map).
  assert (Hlbb : List.length (Superposer.bits b) = n)
    by (unfold Superposer.bits; rewrite length_map; exact Hlen).
  assert (E1 : Superposer.flips D1 (Superposer.put d0 false c0)
               = Superposer.bits a).
  { apply (nth_ext _ _ false false).
    - now rewrite length_flips, length_put, Hlc0, Hlb.
    - intros i Hi. rewrite length_flips, length_put, Hlc0 in Hi.
      rewrite nth_flips by (auto; rewrite length_put; lia).
      rewrite nth_put by lia. rewrite nth_bits.
      unfold D1. rewrite memb_filter, (Hmd _ Hi).
      change (Superposer.is_one (nth i a "0"%char))
        with (Superposer.bit_of a i).
      destruct (Nat.eqb_spec i d0) as [->|Hne].
      + rewrite Hd0d. simpl. apply xorb_false_r.
      + rewrite (Hc0 _ Hi). unfold Superposer.shared_one.
        destruct (Superposer.differ a b i), (Superposer.bit_of a i);
          reflexivity. }
  assert (E2 : Superposer.flips D1
                 (Superposer.flips rest (Superposer.put d0 true c0))
               = Superposer.bits b).
  { apply (nth_ext _ _ false false).
    - now rewrite !length_flips, length_put, Hlc0, Hlbb.
    - intros i Hi. rewrite !length_flips, length_put, Hlc0 in Hi.
      rewrite nth_flips by (auto; rewrite length_flips, length_put; lia).
      rewrite nth_flips
        by (try (rewrite length_put; lia); inversion HndD; assumption).
      rewrite nth_put by lia. rewrite nth_bits.
      unfold D1. rewrite memb_filter, (Hmd _ Hi).
      change (Superposer.is_one (nth i b "0"%char))
        with (Superposer.bit_of b i).
      pose proof (Hmd _ Hi) as Hm. unfold Superposer.memb in Hm.
      cbn [existsb] in Hm. fold (Superposer.memb i rest) in Hm.
      pose proof (differ_bits a b Ha Hb i) as Hx.
      destruct (Nat.eqb_spec i d0) as [->|Hne].
      + rewrite (memb_not_in _ _ Hnr). rewrite Hd0d in *.
        destruct (Superposer.bit_of a d0), (Superposer.bit_of b d0);
          simpl in *; congruence.
      + simpl in Hm. rewrite Hm, (Hc0 _ Hi).
        unfold Superposer.shared_one. rewrite Hx.
        destruct (Superposer.bit_of a i), (Superposer.bit_of b i);
          reflexivity. }
  rewrite E1, E2. reflexivity.
Qed.

(** ** bitstring_superposer: the distribution of two strings *)

Lemma single_list_mapping
  (get_counts : nat -> Superposer.circuit -> Z -> Dict.t Py.str Q) (shots : Z)
  (s0 : Py.str) (ss : list Py.str) (qc : Superposer.circuit)
  (stats : Dict.t Py.str Q) :
  Superposer.program (s0 :: ss) = Py.Ok qc ->
  Superposer.corrected (get_counts 0%nat qc shots) shots = Py.Ok stats ->
  Superposer.bitstring_superposer get_counts (Superposer.Strings (s0 :: ss)) shots
  = Py.Ok (Superposer.Mapping stats).
Proof.
  intros Hp Hc. unfold Superposer.bitstring_superposer.
  cbn [Py.bind Py.for_each]. rewrite Hp.
  cbn [Py.bind Py.for_each app List.length seq combine List.map fst snd].
  rewrite Hc. reflexivity.
Qed.

Lemma str_eqb_neq (s t : Py.str) : s <> t -> Py.str_eqb s t = false.
Proof.
  intro H. destruct (Py.str_eqb s t) eqn:E; [|reflexivity].
  apply str_eqb_eq in E. contradiction.
Qed.

Lemma basis_eqb_neq (u v : Superposer.basis) :
  u <> v -> Superposer.basis_eqb u v = false.
Proof.
  intro H. destruct (Superposer.basis_eqb u v) eqn:E; [|reflexivity].
  apply basis_eqb_eq in E. contradiction.
Qed.

Lemma basis_eqb_refl (u : Superposer.basis) : Superposer.basis_eqb u u = true.
Proof. now apply basis_eqb_eq. Qed.

(** The corrected statistics of an equal superposition of two basis
    states: their two names, each with the fraction one half. *)
Lemma two_outcomes (j : nat) (qc : Superposer.circuit)
      (u v : Superposer.basis) (shots : Z) :
  Superposer.run qc =
  {| Superposer.terms := [(u, 1%Z); (v, 1%Z)]; Superposer.hcount := 1 |} ->
  u <> v -> shots <> 0%Z ->
  exists p,
    p == 1 # 2 /\
    Superposer.corrected (Superposer.noiseless j qc shots) shots =
    Py.Ok [(List.map Superposer.bit_char u, p);
           (List.map Superposer.bit_char v, p)].
Proof.
  intros Hrun Huv Hs.
  assert (Hvu : v <> u) by congruence.
  assert (Hau : Superposer.amplitude (Superposer.run qc) u = 1%Z).
  { rewrite Hrun. unfold Superposer.amplitude.
    cbn [Superposer.terms fold_right fst snd].
    now rewrite basis_eqb_refl, (basis_eqb_neq _ _ Hvu). }
  assert (Hav : Superposer.amplitude (Superposer.run qc) v = 1%Z).
  { rewrite Hrun. unfold Superposer.amplitude.
    cbn [Superposer.terms fold_right fst snd].
    now rewrite basis_eqb_refl, (basis_eqb_neq _ _ Huv). }
  assert (Hk : Superposer.key u <> Superposer.key v).
  { unfold Superposer.key. intro H.
    apply (f_equal (@rev ascii)) in H. rewrite !rev_involutive in H.
    apply Huv. now apply bit_char_inj. }
  assert (Hc : List.map Superposer.bit_char u <> List.map Superposer.bit_char v).
  { intro H. apply Huv. now apply bit_char_inj. }
  exists (inject_Z (1 * 1) / inject_Z (2 ^ Z.of_nat 1) * inject_Z shots
          / inject_Z shots)%Q.
  split.
  - assert (Hq : ~ inject_Z shots == 0).
    { intro H. apply Hs. unfold Qeq in H. simpl in H. lia. }
    change (inject_Z (1 * 1)) with (1 # 1).
    change (inject_Z (2 ^ Z.of_nat 1)) with (2 # 1).
    field. exact Hq.
  - unfold Superposer.noiseless, Superposer.probability.
    rewrite Hrun at 1. cbn [Superposer.terms fold_left fst snd].
    rewrite Hau, Hav.
    replace (Superposer.hcount (Superposer.run qc)) with 1%nat
      by (now rewrite Hrun).
    cbn [Z.eqb Dict.set].
    rewrite (str_eqb_neq _ _ Hk).
    unfold Superposer.corrected. cbn [Py.for_each].
    apply Z.eqb_neq in Hs. rewrite Hs.
    cbn [Py.bind Dict.set].
    unfold Superposer.key. rewrite !rev_involutive.
    rewrite (str_eqb_neq _ _ Hc). reflexivity.
Qed.

(** A dict with two keys and the value one half under each. *)
Lemma two_keys_support (s1 s2 a b : Py.str) (p : Q) :
  s1 <> s2 ->
  (s1 = a /\ s2 = b) \/ (s1 = b /\ s2 = a) ->
  p == 1 # 2 ->
  (forall s, s = a \/ s = b ->
             exists q, Dict.get Py.str_eqb [(s1, p); (s2, p)] s = Some q /\
                       q == 1 # 2) /\
  (forall s, s <> a -> s <> b ->
             Dict.get Py.str_eqb [(s1, p); (s2, p)] s = None).
Proof.
  intros Hne Hab Hp.
  assert (R : forall s, Py.str_eqb s s = true) by (intro; now apply str_eqb_eq).
  split.
  - intros s Hs. exists p. split; [|exact Hp]. simpl.
    destruct Hab as [[-> ->]|[-> ->]]; destruct Hs as [-> | ->];
      rewrite ?R; try reflexivity;
      rewrite (str_eqb_neq _ _ Hne); reflexivity.
  - intros s Ha Hb. simpl.
    destruct Hab as [[-> ->]|[-> ->]];
      rewrite !str_eqb_neq by congruence; reflexivity.
Qed.

Lemma bits_differ (a b : Py.str) :
  Superposer.bitstring a = true -> Superposer.bitstring b = true ->
  a <> b -> Superposer.bits a <> Superposer.bits b.
Proof.
  intros Ha Hb Hab H. apply Hab.
  rewrite <- (chars_of_bits a Ha), <- (chars_of_bits b Hb). now rewrite H.
Qed.

Lemma one_bit (s : Py.str) :
  List.length s = 1%nat -> Superposer.bitstring s = true ->
  s = Py.lit "0" \/ s = Py.lit "1".
Proof.
  destruct s as [|c [|c' s]]; simpl; try discriminate.
  intros _ H. rewrite andb_true_r in H.
  unfold Superposer.is_bit in H. apply orb_true_iff in H.
  destruct H as [E|E]; apply Ascii.eqb_eq in E; subst; auto.
Qed.

(** C3. For two different bit-strings [a] and [b] of one length, the
    mapping that [bitstring_superposer] returns on the noiseless backend,
    whose keys are the reversed keys of the counts, has exactly the keys
    [a] and [b], each with the fraction one half. *)
Theorem superposed_pair (a b : Py.str) (shots : Z) :
  List.length b = List.length a ->
  Superposer.bitstring a = true ->
  Superposer.bitstring b = true ->
  a <> b ->
  (0 < shots)%Z ->
  exists stats,
    Superposer.bitstring_superposer Superposer.noiseless
      (Superposer.Strings [a; b]) shots
    = Py.Ok (Superposer.Mapping stats) /\
    (forall s, s = a \/ s = b ->
               exists p, Dict.get Py.str_eqb stats s = Some p /\ p == 1 # 2) /\
    (forall s, s <> a -> s <> b -> Dict.get Py.str_eqb stats s = None).
Proof.
  intros Hlen Ha Hb Hab Hs.
  assert (Hs0 : shots <> 0%Z) by lia.
  destruct (Nat.eq_dec (List.length a) 1) as [H1|H1].
  - assert (Hqc : Superposer.program [a; b] =
                  Py.Ok {| Superposer.size := 1;
                           Superposer.ops := [Superposer.h 0; Superposer.barrier;
                                              Superposer.measure] |}).
    { destruct (one_bit a H1 Ha) as [-> | ->];
        destruct (one_bit b (eq_trans Hlen H1) Hb) as [-> | ->];
        reflexivity. }
    assert (Hu : [false] <> [true]) by discriminate.
    destruct (two_outcomes 0
                {| Superposer.size := 1;
                   Superposer.ops := [Superposer.h 0; Superposer.barrier;
                                      Superposer.measure] |}
                [false] [true] shots eq_refl Hu Hs0)
      as [p [Hp Hc]].
    eexists. split; [exact (single_list_mapping _ _ _ _ _ _ Hqc Hc)|].
    apply two_keys_support; [discriminate | | exact Hp].
    destruct (one_bit a H1 Ha) as [-> | ->];
      destruct (one_bit b (eq_trans Hlen H1) Hb) as [-> | ->];
      auto; contradiction.
  - destruct (run_pair a b Hlen Ha Hb Hab H1) as [qc [Hqc Hrun]].
    destruct (two_outcomes 0 qc _ _ shots Hrun (bits_differ a b Ha Hb Hab) Hs0)
      as [p [Hp Hc]].
    rewrite (chars_of_bits a Ha), (chars_of_bits b Hb) in Hc.
    eexists. split; [exact (single_list_mapping _ _ _ _ _ _ Hqc Hc)|].
    apply two_keys_support; [exact Hab | now left | exact Hp].
Qed.

Lemma superposed_pair_witness :
  exists stats,
    Superposer.bitstring_superposer Superposer.noiseless
      (Superposer.Strings [Py.lit "011"; Py.lit "110"]) 1024
    = Py.Ok (Superposer.Mapping stats) /\
    (forall s, s <> Py.lit "011" -> s <> Py.lit "110" ->
               Dict.get Py.str_eqb stats s = None).
Proof.
  assert (Hs : (0 < 1024)%Z) by lia.
  assert (Hab : Py.lit "011" <> Py.lit "110") by discriminate.
  destruct (superposed_pair (Py.lit "011") (Py.lit "110") 1024
              eq_refl eq_refl eq_refl Hab Hs) as [stats [H1 [_ H3]]].
  exists stats. split; [exact H1 | exact H3].
Defined.

(* ================================================================== *)
(** * Further properties *)
(* ================================================================== *)

(** ** ladder: what [value] can report *)

Section LadderRange.
Import Ladder.
Local Open Scope R_scope.

Lemma floor_spec (u : R) : IZR (floor u) <= u < IZR (floor u) + 1.
Proof.
  unfold floor. rewrite minus_IZR.
  destruct (archimed u) as [H1 H2]. lra.
Qed.

Lemma round_between (u : R) (lo hi : Z) :
  IZR lo <= u -> u <= IZR hi -> (lo <= round u <= hi)%Z.
Proof.
  intros Hlo Hhi.
  destruct (floor_spec u) as [F1 F2].
  assert (Hf_lo : (lo <= floor u)%Z).
  { apply Z.lt_succ_r. apply lt_IZR. rewrite succ_IZR. lra. }
  assert (Hf_hi : (floor u <= hi)%Z).
  { apply le_IZR. lra. }
  unfold round.
  destruct (Rlt_dec (u - IZR (floor u)) (1 / 2)) as [_|Hge]; [lia|].
  assert (Hlt : (floor u < hi)%Z).
  { apply lt_IZR. lra. }
  destruct (Rlt_dec (1 / 2) (u - IZR (floor u))); [lia|].
  destruct (Z.even (floor u)); lia.
Qed.

Lemma asin_unit (y : R) : 0 <= y <= 1 -> 0 <= asin y <= PI / 2.
Proof.
  intro Hy.
  destruct (asin_bound y) as [B1 B2]. split; [|exact B2].
  destruct (Rle_or_lt 0 (asin y)) as [H|H]; [exact H|].
  exfalso.
  assert (Hs : sin (asin y) < 0).
  { apply sin_lt_0_var; [|exact H]. pose proof PI_RGT_0. lra. }
  rewrite sin_asin in Hs by lra. lra.
Qed.

Lemma decode_range (p : R) (d0 k : Z) :
  (0 <= d0)%Z -> decode p d0 = Py.Ok k -> (0 <= k <= d0)%Z.
Proof.
  intros Hd. unfold decode.
  destruct (Rlt_dec p 0) as [|Hp0]; [discriminate|].
  destruct (Rlt_dec 1 p) as [|Hp1]; [discriminate|].
  intros [= <-].
  assert (Hs : 0 <= sqrt p <= 1).
  { split; [apply sqrt_pos|].
    rewrite <- sqrt_1. apply sqrt_le_1; lra. }
  destruct (asin_unit _ Hs) as [A0 A1].
  pose proof PI_RGT_0 as Hpi.
  assert (HdR : 0 <= IZR d0) by (apply IZR_le; exact Hd).
  set (t := asin (sqrt p)) in *.
  assert (Hq : 0 <= 2 * t / PI <= 1).
  { split.
    - apply Rmult_le_pos; [lra|]. left. now apply Rinv_0_lt_compat.
    - apply (Rmult_le_reg_r PI); [exact Hpi|].
      replace (2 * t / PI * PI) with (2 * t) by (field; lra). lra. }
  replace (2 * t * IZR d0 / PI) with (2 * t / PI * IZR d0) by (field; lra).
  apply round_between; simpl; nra.
Qed.
End LadderRange.

(** X1. Whatever counts the backend reports, an integer that [value]
    returns for a ladder with [d >= 0] lies between 0 and [d]. *)
Theorem value_within_modulus
  (execute : Ladder.circuit -> Z -> Dict.t Py.str R)
  (shots : Z) (self : Ladder.ladder) (hp : Ladder.heap) (k : Z) :
  (0 <= Ladder.d self)%Z ->
  Ladder.returned (Ladder.value execute shots self hp) = Py.Ok k ->
  (0 <= k <= Ladder.d self)%Z.
Proof.
  intros Hd Hv. rewrite value_returned in Hv.
  destruct (Ladder.fraction _ _) as [p|e]; [|discriminate].
  cbn [Py.bind] in Hv. exact (decode_range p _ k Hd Hv).
Qed.

Lemma returned_without_ones
  (execute : Ladder.circuit -> Z -> Dict.t Py.str R)
  (shots : Z) (self : Ladder.ladder) (hp : Ladder.heap) :
  Dict.mem Py.str_eqb
    (execute (Ladder.deref (Ladder.qc self) hp
              ++ [Ladder.barrier; Ladder.measure]) shots)
    (Py.lit "1") = false ->
  Ladder.returned (Ladder.value execute shots self hp) = Py.Ok 0%Z.
Proof.
  intro Hm. rewrite value_returned. unfold Ladder.fraction. rewrite Hm.
  cbn [Py.bind]. unfold Ladder.decode.
  destruct (Rlt_dec 0 0) as [H|_]; [lra|].
  destruct (Rlt_dec 1 0) as [H|_]; [lra|].
  rewrite sqrt_0, asin_0.
  replace (2 * 0 * IZR (Ladder.d self) / PI)%R with (IZR 0).
  - now rewrite round_IZR.
  - pose proof PI_RGT_0. field. lra.
Qed.

Lemma value_within_modulus_witness :
  (0 <= 0 <= 7)%Z.
Proof.
  assert (Hd : (0 <= Ladder.d {| Ladder.d := 7; Ladder.qc := 0 |})%Z)
    by (simpl; lia).
  exact (value_within_modulus
           (fun _ _ => [(Py.lit "0", 1024%R)]) 1024
           {| Ladder.d := 7; Ladder.qc := 0 |} [[]] 0 Hd
           (returned_without_ones (fun _ _ => [(Py.lit "0", 1024%R)]) 1024
              {| Ladder.d := 7; Ladder.qc := 0 |} [[]] eq_refl)).
Defined.

(** X2. When no shot reads ['1'] the key is absent from the counts and
    [value] returns 0, for every modulus. *)
Theorem value_without_ones
  (execute : Ladder.circuit -> Z -> Dict.t Py.str R)
  (shots : Z) (self : Ladder.ladder) (hp : Ladder.heap) :
  Dict.mem Py.str_eqb
    (execute (Ladder.deref (Ladder.qc self) hp
              ++ [Ladder.barrier; Ladder.measure]) shots)
    (Py.lit "1") = false ->
  Ladder.returned (Ladder.value execute shots self hp) = Py.Ok 0%Z.
Proof. apply returned_without_ones. Qed.

Lemma value_without_ones_witness :
  Ladder.returned
    (Ladder.value (fun _ _ => [(Py.lit "0", 1024%R)]) 1024
                  {| Ladder.d := 7; Ladder.qc := 0 |} [[]])
  = Py.Ok 0%Z.
Proof.
  apply value_without_ones. reflexivity.
Defined.

(** ** ladder: how [add] composes on the noiseless backend *)

Section LadderCompose.
Import Ladder.
Local Open Scope R_scope.

Lemma angle_app (c1 c2 : circuit) : angle (c1 ++ c2) = angle c1 + angle c2.
Proof.
  induction c1 as [|g c1 IH]; simpl; [lra|].
  destruct g; rewrite IH; lra.
Qed.

(** On the noiseless backend [value] decodes the accumulated angle. *)
Lemma returned_noiseless (shots : Z) (self : ladder) (hp : heap) :
  (0 < shots)%Z ->
  returned (value noiseless shots self hp) =
  decode (Rsqr (sin (angle (deref (qc self) hp) / 2))) (d self).
Proof.
  intro Hs. rewrite value_returned.
  rewrite (fraction_noiseless _ _ Hs). cbn [Py.bind].
  rewrite prob1_rotated, angle_app. simpl. now rewrite !Rplus_0_r.
Qed.

Lemma deref_add (delta : R) (self : ladder) (hp hp' : heap) :
  (qc self < List.length hp)%nat ->
  add delta self hp = Py.Ok hp' ->
  deref (qc self) hp' =
  deref (qc self) hp ++ [rx (PI * delta / IZR (d self))] /\
  List.length hp' = List.length hp.
Proof.
  intros Hq. unfold add.
  destruct (d self =? 0)%Z; [discriminate|].
  intros [= <-]. unfold append.
  rewrite deref_update_same by exact Hq.
  now rewrite length_update.
Qed.

Lemma add_ok (delta : R) (self : ladder) (hp : heap) :
  d self <> 0%Z -> exists hp', add delta self hp = Py.Ok hp'.
Proof.
  intro Hd. unfold add. apply Z.eqb_neq in Hd. rewrite Hd. eauto.
Qed.
End LadderCompose.

(** X3. On the noiseless backend two successive [add] calls are reported
    like one [add] of the sum. *)
Theorem add_add_is_add_sum (shots : Z) (self : Ladder.ladder)
        (hp : Ladder.heap) (delta1 delta2 : R) :
  (Ladder.qc self < List.length hp)%nat ->
  Ladder.d self <> 0%Z ->
  (0 < shots)%Z ->
  exists hp1 hp2 hp3,
    Ladder.add delta1 self hp = Py.Ok hp1 /\
    Ladder.add delta2 self hp1 = Py.Ok hp2 /\
    Ladder.add (delta1 + delta2) self hp = Py.Ok hp3 /\
    Ladder.returned (Ladder.value Ladder.noiseless shots self hp2) =
    Ladder.returned (Ladder.value Ladder.noiseless shots self hp3).
Proof.
  intros Hq Hd Hs.
  destruct (add_ok delta1 self hp Hd) as [hp1 H1].
  destruct (add_ok delta2 self hp1 Hd) as [hp2 H2].
  destruct (add_ok (delta1 + delta2) self hp Hd) as [hp3 H3].
  exists hp1, hp2, hp3. repeat split; try assumption.
  destruct (deref_add _ _ _ _ Hq H1) as [E1 L1].
  assert (Hq1 : (Ladder.qc self < List.length hp1)%nat) by lia.
  destruct (deref_add _ _ _ _ Hq1 H2) as [E2 _].
  destruct (deref_add _ _ _ _ Hq H3) as [E3 _].
  rewrite !returned_noiseless by exact Hs.
  rewrite E2, E1, E3, !angle_app. simpl.
  assert (HdR : IZR (Ladder.d self) <> 0%R) by (apply not_0_IZR; exact Hd).
  do 3 f_equal. field. exact HdR.
Qed.

Lemma add_add_is_add_sum_witness :
  exists hp1 hp2 hp3,
    Ladder.add 1 {| Ladder.d := 4; Ladder.qc := 0 |} [[]] = Py.Ok hp1 /\
    Ladder.add 2 {| Ladder.d := 4; Ladder.qc := 0 |} hp1 = Py.Ok hp2 /\
    Ladder.add (1 + 2) {| Ladder.d := 4; Ladder.qc := 0 |} [[]] = Py.Ok hp3 /\
    Ladder.returned
      (Ladder.value Ladder.noiseless 1024
                    {| Ladder.d := 4; Ladder.qc := 0 |} hp2) =
    Ladder.returned
      (Ladder.value Ladder.noiseless 1024
                    {| Ladder.d := 4; Ladder.qc := 0 |} hp3).
Proof.
  assert (Hq : (Ladder.qc {| Ladder.d := 4; Ladder.qc := 0 |}
                < List.length [@nil Ladder.gate])%nat) by (simpl; lia).
  assert (Hd : Ladder.d {| Ladder.d := 4; Ladder.qc := 0 |} <> 0%Z)
    by (simpl; lia).
  assert (Hs : (0 < 1024)%Z) by lia.
  exact (add_add_is_add_sum 1024 {| Ladder.d := 4; Ladder.qc := 0 |}
                            [[]] 1 2 Hq Hd Hs).
Defined.

(** X4. On the noiseless backend [add(2*d)] brings the ladder back to the
    value it reported before: the value runs up to [d] and down again with
    period [2*d]. *)
Theorem add_twice_modulus_is_identity (shots : Z) (self : Ladder.ladder)
        (hp : Ladder.heap) :
  (Ladder.qc self < List.length hp)%nat ->
  Ladder.d self <> 0%Z ->
  (0 < shots)%Z ->
  exists hp1,
    Ladder.add (2 * IZR (Ladder.d self)) self hp = Py.Ok hp1 /\
    Ladder.returned (Ladder.value Ladder.noiseless shots self hp1) =
    Ladder.returned (Ladder.value Ladder.noiseless shots self hp).
Proof.
  intros Hq Hd Hs.
  destruct (add_ok (2 * IZR (Ladder.d self)) self hp Hd) as [hp1 H1].
  exists hp1. split; [exact H1|].
  destruct (deref_add _ _ _ _ Hq H1) as [E1 _].
  rewrite !returned_noiseless by exact Hs.
  rewrite E1, angle_app. simpl.
  assert (HdR : IZR (Ladder.d self) <> 0%R) by (apply not_0_IZR; exact Hd).
  replace ((Ladder.angle (Ladder.deref (Ladder.qc self) hp) +
            (PI * (2 * IZR (Ladder.d self)) / IZR (Ladder.d self) + 0)) / 2)%R
    with (Ladder.angle (Ladder.deref (Ladder.qc self) hp) / 2 + PI)%R
    by (field; exact HdR).
  rewrite neg_sin, <- Rsqr_neg. reflexivity.
Qed.

Lemma add_twice_modulus_is_identity_witness :
  exists hp1,
    Ladder.add (2 * IZR 4) {| Ladder.d := 4; Ladder.qc := 0 |}
               [[Ladder.rx 1%R]] = Py.Ok hp1 /\
    Ladder.returned
      (Ladder.value Ladder.noiseless 1024
                    {| Ladder.d := 4; Ladder.qc := 0 |} hp1) =
    Ladder.returned
      (Ladder.value Ladder.noiseless 1024
                    {| Ladder.d := 4; Ladder.qc := 0 |} [[Ladder.rx 1%R]]).
Proof.
  assert (Hq : (Ladder.qc {| Ladder.d := 4; Ladder.qc := 0 |}
                < List.length [[Ladder.rx 1%R]])%nat) by (simpl; lia).
  assert (Hd : Ladder.d {| Ladder.d := 4; Ladder.qc := 0 |} <> 0%Z)
    by (simpl; lia).
  assert (Hs : (0 < 1024)%Z) by lia.
  exact (add_twice_modulus_is_identity
           1024 {| Ladder.d := 4; Ladder.qc := 0 |} [[Ladder.rx 1%R]]
           Hq Hd Hs).
Defined.

(** X5. Past the maximum the value comes down again: on the noiseless
    backend a new ladder reports [2*d - k] after [add(k)] with
    [d <= k <= 2*d]. *)
Theorem add_past_maximum_reflects (d0 k shots : Z) (hp : Ladder.heap) :
  (0 < d0)%Z -> (d0 <= k <= 2 * d0)%Z -> (0 < shots)%Z ->
  exists hp1,
    Ladder.add (IZR k) (fst (Ladder.init d0 hp)) (snd (Ladder.init d0 hp))
    = Py.Ok hp1 /\
    Ladder.returned
      (Ladder.value Ladder.noiseless shots (fst (Ladder.init d0 hp)) hp1)
    = Py.Ok (2 * d0 - k)%Z.
Proof.
  intros Hd Hk Hs.
  assert (Hdz : (d0 =? 0)%Z = false) by (apply Z.eqb_neq; lia).
  assert (HdR : (0 < IZR d0)%R) by (apply IZR_lt; lia).
  assert (HkR : (IZR d0 <= IZR k <= 2 * IZR d0)%R).
  { split; [apply IZR_le; lia|].
    change 2%R with (IZR 2). rewrite <- mult_IZR. apply IZR_le. lia. }
  pose proof PI_RGT_0 as Hpi.
  eexists. split.
  - unfold Ladder.add. cbn [Ladder.init Ladder.alloc fst Ladder.d].
    rewrite Hdz. reflexivity.
  - rewrite returned_noiseless by exact Hs.
    pose proof (deref_init_add d0 hp (Ladder.rx (PI * IZR k / IZR d0))) as Hc.
    cbn [Ladder.init Ladder.alloc fst snd Ladder.d Ladder.qc] in Hc |- *.
    rewrite Hc. cbn [Ladder.angle].
    assert (Hq : (1 <= IZR k / IZR d0 <= 2)%R).
    { split.
      - apply (Rmult_le_reg_r (IZR d0)); [exact HdR|].
        replace (IZR k / IZR d0 * IZR d0)%R with (IZR k) by (field; lra).
        lra.
      - apply (Rmult_le_reg_r (IZR d0)); [exact HdR|].
        replace (IZR k / IZR d0 * IZR d0)%R with (IZR k) by (field; lra).
        lra. }
    replace ((PI * IZR k / IZR d0 + 0) / 2)%R
      with (PI - PI / 2 * (2 - IZR k / IZR d0))%R by (field; lra).
    rewrite sin_PI_x.
    apply decode_rotation.
    + split; [apply Rmult_le_pos; lra | nra].
    + rewrite minus_IZR, mult_IZR. field. lra.
Qed.

Lemma add_past_maximum_reflects_witness :
  exists hp1,
    Ladder.add (IZR 7) (fst (Ladder.init 5 [])) (snd (Ladder.init 5 []))
    = Py.Ok hp1 /\
    Ladder.returned
      (Ladder.value Ladder.noiseless 1024 (fst (Ladder.init 5 [])) hp1)
    = Py.Ok (2 * 5 - 7)%Z.
Proof.
  assert (Hd : (0 < 5)%Z) by lia.
  assert (Hk : (5 <= 7 <= 2 * 5)%Z) by lia.
  assert (Hs : (0 < 1024)%Z) by lia.
  exact (add_past_maximum_reflects 5 7 1024 [] Hd Hk Hs).
Defined.

(** ** twobit on the noiseless backend *)

Section TwobitNoiseless.
Local Open Scope Q_scope.

Lemma Qltb_iff (a b : Q) : Py.Qltb a b = true <-> a < b.
Proof. apply Qltb_true. Qed.

Lemma Qltb_right (r p q : Q) : p == q -> Py.Qltb r p = Py.Qltb r q.
Proof.
  intro E. destruct (Py.Qltb r q) eqn:H.
  - apply Qltb_true in H. apply Qltb_true. now rewrite E.
  - apply Qltb_false in H. apply Qltb_false. now rewrite E.
Qed.

Lemma Qltb_left (r p q : Q) : p == q -> Py.Qltb p r = Py.Qltb q r.
Proof.
  intro E. destruct (Py.Qltb q r) eqn:H.
  - apply Qltb_true in H. apply Qltb_true. now rewrite E.
  - apply Qltb_false in H. apply Qltb_false. now rewrite E.
Qed.

(** The fraction read from the noiseless counts is the probability of
    reading 1. *)
Lemma twobit_fraction_noiseless (c : list Twobit.gate) (shots : Z) :
  (0 < shots)%Z ->
  exists p,
    Twobit.fraction (TwobitBackend.noiseless c shots) shots = Py.Ok p /\
    p == TwobitBackend.probability (TwobitBackend.a1 (TwobitBackend.run c))
                                   (TwobitBackend.run c).
Proof.
  intro Hs.
  assert (Hz : (shots =? 0)%Z = false) by (apply Z.eqb_neq; lia).
  assert (Hq : ~ inject_Z shots == 0).
  { intro H. unfold Qeq in H. simpl in H. lia. }
  unfold TwobitBackend.noiseless, Twobit.fraction.
  set (q := TwobitBackend.run c).
  destruct (TwobitBackend.norm2 (TwobitBackend.a0 q) =? 0)%Z;
    destruct (TwobitBackend.norm2 (TwobitBackend.a1 q) =? 0)%Z eqn:E1;
    cbn; rewrite ?Hz; eexists; (split; [reflexivity|]).
  - apply Z.eqb_eq in E1. unfold TwobitBackend.probability. rewrite E1.
    unfold Qdiv. now rewrite Qmult_0_l.
  - field. exact Hq.
  - apply Z.eqb_eq in E1. unfold TwobitBackend.probability. rewrite E1.
    unfold Qdiv. now rewrite Qmult_0_l.
  - field. exact Hq.
Qed.

(** A fraction of exactly 0 or 1 decides the value, with or without
    mitigation and whatever the random number. *)
Lemma certain_draw (p rnd : Q) (mit b : bool) :
  0 <= rnd -> rnd < 1 ->
  p == (if b then 1 else 0) ->
  Py.Qltb rnd (if mit then Twobit.mitigate p else p) = b.
Proof.
  intros H0 H1 Hp.
  destruct b.
  - assert (Hm : Twobit.mitigate p = 1).
    { apply mitigate_high. rewrite Hp. reflexivity. }
    destruct mit.
    + rewrite Hm. now apply Qltb_true.
    + rewrite (Qltb_right rnd p 1 Hp). now apply Qltb_true.
  - assert (Hm : Twobit.mitigate p = 0).
    { apply mitigate_low. rewrite Hp. reflexivity. }
    destruct mit.
    + rewrite Hm. now apply Qltb_false.
    + rewrite (Qltb_right rnd p 0 Hp). now apply Qltb_false.
Qed.

(** A fraction of one half leaves the value to the random number. *)
Lemma even_draw (p rnd : Q) (mit : bool) :
  p == 1 # 2 ->
  Py.Qltb rnd (if mit then Twobit.mitigate p else p) = Py.Qltb rnd (1 # 2).
Proof.
  intro Hp.
  assert (Hm : Twobit.mitigate p = p).
  { unfold Twobit.mitigate.
    rewrite (Qltb_left (1 # 10) p (1 # 2) Hp).
    rewrite (Qltb_right (9 # 10) p (1 # 2) Hp). reflexivity. }
  destruct mit; [rewrite Hm|]; now apply Qltb_right.
Qed.

Lemma value_ok_prepare
      (execute : list Twobit.gate -> Z -> Dict.t Py.str Q)
      (basis : Py.str) (shots : Z) (mit : bool) (rnd : Q)
      (self self' : Twobit.twobit) (v : bool) :
  Twobit.value execute basis shots mit rnd self = Py.Ok (v, self') ->
  Twobit.prepare [(basis, Some v)] self = Py.Ok self'.
Proof.
  unfold Twobit.value.
  destruct (Twobit.fraction _ _) as [p|e]; [|discriminate].
  cbn [Py.bind].
  destruct (Twobit.prepare _ self) as [s1|e] eqn:E; [|discriminate].
  cbn [Py.bind]. intros [= Hv <-]. now rewrite Hv in E.
Qed.

Lemma committed_read_back
      (basis : Py.str) (v mit : bool) (rnd : Q) (shots : Z)
      (self0 self : Twobit.twobit) :
  basis = Py.lit "X" \/ basis = Py.lit "Z" ->
  0 <= rnd -> rnd < 1 -> (0 < shots)%Z ->
  Twobit.prepare [(basis, Some v)] self0 = Py.Ok self ->
  Twobit.value TwobitBackend.noiseless basis shots mit rnd self
  = Py.Ok (v, self).
Proof.
  intros Hb H0 H1 Hs Hprep.
  destruct (twobit_fraction_noiseless (Twobit.measured basis self) shots Hs)
    as [p [Hf Hp]].
  pose proof (prepare_committed basis v self Hb) as Hagain.
  rewrite (prepare_committed basis v self0 Hb) in Hprep.
  injection Hprep as <-.
  unfold Twobit.value.
  rewrite Hf. cbn [Py.bind].
  assert (Hpv : p == (if v then 1 else 0)).
  { rewrite Hp. destruct Hb as [-> | ->]; destruct v; reflexivity. }
  rewrite (certain_draw p rnd mit v H0 H1 Hpv).
  rewrite Hagain. reflexivity.
Qed.
End TwobitNoiseless.

(** X6. A boolean prepared in basis X or Z is read back by [value] in the
    same basis on the noiseless backend, with or without mitigation and
    whatever the random number, and the twobit stays prepared as it was. *)
Theorem prepared_value_is_read_back
  (basis : Py.str) (v mit : bool) (rnd : Q) (shots : Z)
  (self0 self : Twobit.twobit) :
  basis = Py.lit "X" \/ basis = Py.lit "Z" ->
  0 <= rnd -> rnd < 1 -> (0 < shots)%Z ->
  Twobit.prepare [(basis, Some v)] self0 = Py.Ok self ->
  Twobit.value TwobitBackend.noiseless basis shots mit rnd self
  = Py.Ok (v, self).
Proof. apply committed_read_back. Qed.

Lemma prepared_value_is_read_back_witness :
  Twobit.value TwobitBackend.noiseless (Py.lit "X") 1024 false (1 # 3)
               {| Twobit.qc := [Twobit.x; Twobit.h] |}
  = Py.Ok (true, {| Twobit.qc := [Twobit.x; Twobit.h] |}).
Proof.
  assert (H0 : 0 <= 1 # 3) by (unfold Qle; simpl; lia).
  assert (H1 : (1 # 3) < 1) by reflexivity.
  assert (Hs : (0 < 1024)%Z) by lia.
  exact (prepared_value_is_read_back
           (Py.lit "X") true false (1 # 3) 1024
           {| Twobit.qc := [] |} {| Twobit.qc := [Twobit.x; Twobit.h] |}
           (or_introl eq_refl) H0 H1 Hs eq_refl).
Defined.

(** X7. [value] re-prepares the twobit with the value it returns: on the
    noiseless backend a second call in the same basis returns the same
    value and leaves the same state, whatever backend answered the first
    call and whatever the random numbers. *)
Theorem value_repeats
  (execute : list Twobit.gate -> Z -> Dict.t Py.str Q)
  (basis : Py.str) (shots shots' : Z) (mit mit' : bool) (rnd rnd' : Q)
  (self self' : Twobit.twobit) (v : bool) :
  basis = Py.lit "X" \/ basis = Py.lit "Z" ->
  0 <= rnd' -> rnd' < 1 -> (0 < shots')%Z ->
  Twobit.value execute basis shots mit rnd self = Py.Ok (v, self') ->
  Twobit.value TwobitBackend.noiseless basis shots' mit' rnd' self'
  = Py.Ok (v, self').
Proof.
  intros Hb H0 H1 Hs Hv.
  apply (committed_read_back basis v mit' rnd' shots' self self' Hb H0 H1 Hs).
  exact (value_ok_prepare execute basis shots mit rnd self self' v Hv).
Qed.

Lemma value_repeats_witness :
  Twobit.value TwobitBackend.noiseless (Py.lit "Z") 1024 true (9 # 10)
               {| Twobit.qc := [Twobit.x] |}
  = Py.Ok (true, {| Twobit.qc := [Twobit.x] |}).
Proof.
  assert (H0 : 0 <= 9 # 10) by (unfold Qle; simpl; lia).
  assert (H1 : (9 # 10) < 1) by reflexivity.
  assert (Hs : (0 < 1024)%Z) by lia.
  exact (value_repeats Samples.mostly_one (Py.lit "Z") 1024 1024 true true
           (1 # 2) (9 # 10)
           {| Twobit.qc := [Twobit.h; Twobit.s] |}
           {| Twobit.qc := [Twobit.x] |} true
           (or_intror eq_refl) H0 H1 Hs eq_refl).
Defined.

(** X8. The two bases are complementary: on the noiseless backend a twobit
    prepared in one of the bases X and Z, with either boolean, or prepared
    with ['Y'] as by the constructor, is read in the other basis (in either
    basis after ['Y']) with the fraction one half, so that the value is
    [True] exactly when the random number is below one half, with or
    without mitigation. *)
Theorem other_basis_is_random
  (basis basis' : Py.str) (st : Twobit.state) (mit : bool) (rnd : Q)
  (shots : Z) (self0 self : Twobit.twobit) :
  (0 < shots)%Z ->
  basis' = Py.lit "X" \/ basis' = Py.lit "Z" ->
  (exists v, st = [(basis, Some v)] /\
             (basis = Py.lit "X" \/ basis = Py.lit "Z") /\
             basis <> basis') \/
  st = [(Py.lit "Y", None)] ->
  Twobit.prepare st self0 = Py.Ok self ->
  exists self',
    Twobit.value TwobitBackend.noiseless basis' shots mit rnd self
    = Py.Ok (Py.Qltb rnd (1 # 2), self').
Proof.
  intros Hs Hb' Hst Hprep.
  assert (Hhalf :
            exists p,
              Twobit.fraction
                (TwobitBackend.noiseless (Twobit.measured basis' self) shots)
                shots = Py.Ok p /\ p == 1 # 2).
  { destruct (twobit_fraction_noiseless (Twobit.measured basis' self) shots Hs)
      as [p [Hf Hp]].
    exists p. split; [exact Hf|]. rewrite Hp.
    destruct Hst as [[v [-> [Hb Hne]]] | ->].
    - rewrite (prepare_committed basis v self0 Hb) in Hprep.
      injection Hprep as <-.
      destruct Hb as [-> | ->]; destruct Hb' as [-> | ->];
        try contradiction; destruct v; reflexivity.
    - cbn in Hprep. injection Hprep as <-.
      destruct Hb' as [-> | ->]; reflexivity. }
  destruct Hhalf as [p [Hf Hp]].
  unfold Twobit.value. rewrite Hf. cbn [Py.bind].
  rewrite (even_draw p rnd mit Hp).
  rewrite (prepare_committed basis' _ self Hb'). cbn [Py.bind]. eauto.
Qed.

Lemma other_basis_is_random_witness :
  exists self',
    Twobit.value TwobitBackend.noiseless (Py.lit "X") 1024 true (1 # 3)
                 {| Twobit.qc := [Twobit.x] |}
    = Py.Ok (Py.Qltb (1 # 3) (1 # 2), self').
Proof.
  assert (Hs : (0 < 1024)%Z) by lia.
  refine (other_basis_is_random
            (Py.lit "Z") (Py.lit "X") [(Py.lit "Z", Some true)] true (1 # 3)
            1024 {| Twobit.qc := [] |} {| Twobit.qc := [Twobit.x] |}
            Hs (or_introl eq_refl) _ eq_refl).
  left. exists true. split; [reflexivity|]. split; [now right | discriminate].
Defined.

(** ** bitstring_superposer: fewer or more than two strings *)

Lemma program_one_string (s : Py.str) :
  s <> [] -> Superposer.program [s] = Py.Raise Py.IndexError.
Proof.
  intro Hs. destruct s as [|c s]; [contradiction|].
  unfold Superposer.program.
  assert (Hl : Superposer.longest (@cons Py.str (c :: s) nil)
               = S (List.length s))
    by (unfold Superposer.longest; simpl; lia).
  rewrite Hl.
  assert (Hpow : (Z.of_nat (List.length (@cons Py.str (c :: s) nil))
                  =? 2 ^ Z.of_nat (S (List.length s)))%Z = false).
  { apply Z.eqb_neq. cbn [List.length].
    assert (2 ^ 1 <= 2 ^ Z.of_nat (S (List.length s)))%Z
      by (apply Z.pow_le_mono_r; lia).
    simpl in *. lia. }
  rewrite Hpow. reflexivity.
Qed.

(** X9. With fewer than two strings the call raises [IndexError]: the empty
    list at line 161, a single non-empty string at line 186, where
    [strings[1]] is read. *)
Theorem fewer_than_two_strings_raise
  (get_counts : nat -> Superposer.circuit -> Z -> Dict.t Py.str Q)
  (shots : Z) (s : Py.str) :
  s <> [] ->
  Superposer.bitstring_superposer get_counts (Superposer.Strings []) shots
  = Py.Raise Py.IndexError /\
  Superposer.bitstring_superposer get_counts (Superposer.Strings [s]) shots
  = Py.Raise Py.IndexError /\
  Superposer.bitstring_superposer get_counts (Superposer.Lists [[s]]) shots
  = Py.Raise Py.IndexError.
Proof.
  intro Hs. split; [reflexivity|].
  unfold Superposer.bitstring_superposer. cbn [Py.bind Py.for_each].
  rewrite (program_one_string s Hs). split; reflexivity.
Qed.

Lemma fewer_than_two_strings_raise_witness :
  Superposer.bitstring_superposer Superposer.noiseless
    (Superposer.Strings [Py.lit "01"]) 1024
  = Py.Raise Py.IndexError.
Proof.
  assert (Hs : Py.lit "01" <> []) by discriminate.
  exact (proj1 (proj2 (fewer_than_two_strings_raise
                         Superposer.noiseless 1024 (Py.lit "01") Hs))).
Defined.

(** X10. Strings after the first two are not read when they are no longer
    than the first two and the number of strings is not [2 ** num]: the
    circuit is the one of the first two strings. *)
Theorem later_strings_are_ignored (a b : Py.str) (more : list Py.str) :
  Superposer.longest (a :: b :: more) = Superposer.longest [a; b] ->
  (Z.of_nat (List.length (a :: b :: more))
   <> 2 ^ Z.of_nat (Superposer.longest [a; b]))%Z ->
  (2 <> 2 ^ Z.of_nat (Superposer.longest [a; b]))%Z ->
  Superposer.program (a :: b :: more) = Superposer.program [a; b].
Proof.
  intros Hl Hn H2. unfold Superposer.program. rewrite Hl.
  apply Z.eqb_neq in Hn. rewrite Hn.
  assert (H2' : (Z.of_nat (List.length [a; b])
                 =? 2 ^ Z.of_nat (Superposer.longest [a; b]))%Z = false)
    by (apply Z.eqb_neq; exact H2).
  rewrite H2'. reflexivity.
Qed.

Lemma later_strings_are_ignored_witness :
  Superposer.program [Py.lit "011"; Py.lit "110"; Py.lit "1"; Py.lit "abc"]
  = Superposer.program [Py.lit "011"; Py.lit "110"].
Proof.
  apply later_strings_are_ignored.
  - reflexivity.
  - simpl. lia.
  - simpl. lia.
Defined.

(** ** bitstring_superposer: twice the same string *)

Lemma differ_same (a : Py.str) (l : list nat) :
  filter (Superposer.differ a a) l = [].
Proof.
  induction l as [|i l IH]; simpl; [reflexivity|].
  unfold Superposer.differ at 1. now rewrite Ascii.eqb_refl.
Qed.

Lemma run_same (a : Py.str) :
  Superposer.bitstring a = true ->
  List.length a <> 0%nat -> List.length a <> 1%nat ->
  exists qc,
    Superposer.program [a; a] = Py.Ok qc /\
    Superposer.run qc =
    {| Superposer.terms := [(Superposer.bits a, 1%Z)];
       Superposer.hcount := 0 |}.
Proof.
  intros Ha H0 Hn.
  eexists. split; [apply (program_pair a a eq_refl H0 Hn)|].
  unfold Superposer.run. cbn [Superposer.ops Superposer.size].
  rewrite differ_same. cbn [Superposer.entangle app].
  rewrite fold_left_app, apply_xs.
  cbn [List.map fst snd fold_left Superposer.apply].
  do 3 f_equal.
  set (n := List.length a).
  apply (nth_ext _ _ false false).
  - rewrite length_flips, repeat_length. unfold Superposer.bits.
    now rewrite length_map.
  - intros i Hi. rewrite length_flips, repeat_length in Hi.
    rewrite nth_flips;
      [| apply NoDup_filter, seq_NoDup | now rewrite repeat_length].
    rewrite nth_repeat, memb_filter, memb_seq, nth_bits.
    apply Nat.ltb_lt in Hi. rewrite Hi. simpl. rewrite xorb_false_r.
    unfold Superposer.shared_one, Superposer.differ, Superposer.bit_of.
    now rewrite Ascii.eqb_refl.
Qed.

Lemma one_outcome (j : nat) (qc : Superposer.circuit)
      (u : Superposer.basis) (shots : Z) :
  Superposer.run qc =
  {| Superposer.terms := [(u, 1%Z)]; Superposer.hcount := 0 |} ->
  shots <> 0%Z ->
  exists p,
    p == 1 /\
    Superposer.corrected (Superposer.noiseless j qc shots) shots =
    Py.Ok [(List.map Superposer.bit_char u, p)].
Proof.
  intros Hrun Hs.
  assert (Hau : Superposer.amplitude (Superposer.run qc) u = 1%Z).
  { rewrite Hrun. unfold Superposer.amplitude.
    cbn [Superposer.terms fold_right fst snd].
    now rewrite basis_eqb_refl. }
  exists (inject_Z (1 * 1) / inject_Z (2 ^ Z.of_nat 0) * inject_Z shots
          / inject_Z shots)%Q.
  split.
  - assert (Hq : ~ inject_Z shots == 0).
    { intro H. apply Hs. unfold Qeq in H. simpl in H. lia. }
    change (inject_Z (1 * 1)) with (1 # 1).
    change (inject_Z (2 ^ Z.of_nat 0)) with (1 # 1).
    field. exact Hq.
  - unfold Superposer.noiseless, Superposer.probability.
    rewrite Hrun at 1. cbn [Superposer.terms fold_left fst snd].
    rewrite Hau.
    replace (Superposer.hcount (Superposer.run qc)) with 0%nat
      by (now rewrite Hrun).
    cbn [Z.eqb Dict.set].
    unfold Superposer.corrected. cbn [Py.for_each].
    apply Z.eqb_neq in Hs. rewrite Hs.
    cbn [Py.bind Dict.set].
    unfold Superposer.key. rewrite rev_involutive. reflexivity.
Qed.

(** X11. Given twice the same bit-string [a] of two or more characters,
    the noiseless backend yields the single outcome [a] with fraction 1.
    With one character the two strings are [2 ** num] strings, the circuit
    is a Hadamard gate, and both ['0'] and ['1'] come out with fraction one
    half.  With the empty string the register of line 176 has no qubit and
    the call raises [QISKitError]. *)
Theorem same_string_twice (a : Py.str) (shots : Z) :
  Superposer.bitstring a = true ->
  (0 < shots)%Z ->
  ((2 <= List.length a)%nat ->
   exists p,
     Superposer.bitstring_superposer Superposer.noiseless
       (Superposer.Strings [a; a]) shots
     = Py.Ok (Superposer.Mapping [(a, p)]) /\ p == 1) /\
  (List.length a = 1%nat ->
   exists p,
     Superposer.bitstring_superposer Superposer.noiseless
       (Superposer.Strings [a; a]) shots
     = Py.Ok (Superposer.Mapping [(Py.lit "0", p); (Py.lit "1", p)]) /\
     p == 1 # 2) /\
  (List.length a = 0%nat ->
   Superposer.bitstring_superposer Superposer.noiseless
     (Superposer.Strings [a; a]) shots
   = Py.Raise Py.QISKitError).
Proof.
  intros Ha Hs.
  assert (Hs0 : shots <> 0%Z) by lia.
  split; [|split]; intro Hn.
  - destruct (run_same a Ha) as [qc [Hqc Hrun]]; [lia | lia |].
    destruct (one_outcome 0 qc _ shots Hrun Hs0) as [p [Hp Hc]].
    rewrite (chars_of_bits a Ha) in Hc.
    exists p. split; [|exact Hp].
    exact (single_list_mapping _ _ _ _ _ _ Hqc Hc).
  - assert (Hqc : Superposer.program [a; a] =
                  Py.Ok {| Superposer.size := 1;
                           Superposer.ops := [Superposer.h 0; Superposer.barrier;
                                              Superposer.measure] |}).
    { destruct (one_bit a Hn Ha) as [-> | ->]; reflexivity. }
    assert (Hu : [false] <> [true]) by discriminate.
    destruct (two_outcomes 0
                {| Superposer.size := 1;
                   Superposer.ops := [Superposer.h 0; Superposer.barrier;
                                      Superposer.measure] |}
                [false] [true] shots eq_refl Hu Hs0)
      as [p [Hp Hc]].
    exists p. split; [|exact Hp].
    exact (single_list_mapping _ _ _ _ _ _ Hqc Hc).
  - apply length_zero_iff_nil in Hn. subst a. reflexivity.
Qed.

Lemma same_string_twice_witness :
  exists p,
    Superposer.bitstring_superposer Superposer.noiseless
      (Superposer.Strings [Py.lit "0110"; Py.lit "0110"]) 1024
    = Py.Ok (Superposer.Mapping [(Py.lit "0110", p)]) /\ p == 1.
Proof.
  assert (Hs : (0 < 1024)%Z) by lia.
  refine (proj1 (same_string_twice (Py.lit "0110") 1024 eq_refl Hs) _).
  simpl. lia.
Defined.

(** ** bitstring_superposer: the returned fractions *)

Lemma corrected_map_from (shots : Z) (raw acc : Dict.t Py.str Q) :
  shots <> 0%Z ->
  NoDup (Dict.keys acc ++ List.map (@rev ascii) (Dict.keys raw)) ->
  Py.for_each raw
    (fun (entry : Py.str * Q) stats =>
       let (string, count) := entry in
       if (shots =? 0)%Z then Py.Raise Py.ZeroDivisionError
       else Py.Ok (Dict.set Py.str_eqb stats (rev string)
                     (count / inject_Z shots)%Q))
    acc
  = Py.Ok (acc ++ List.map (fun e : Py.str * Q =>
                              (rev (fst e), (snd e / inject_Z shots)%Q)) raw).
Proof.
  intro Hs. apply Z.eqb_neq in Hs. revert acc.
  induction raw as [|[k c] raw IH]; intros acc Hnd; simpl.
  - now rewrite app_nil_r.
  - rewrite Hs at 1. cbn [Py.bind]. simpl in Hnd.
    rewrite (set_new _ _ _ str_eqb_eq).
    2:{ apply NoDup_remove_2 in Hnd. intro Hin. apply Hnd.
        apply in_or_app. now left. }
    rewrite IH.
    + now rewrite <- app_assoc.
    + unfold Dict.keys in *. rewrite map_app. simpl.
      rewrite <- app_assoc. exact Hnd.
Qed.

(** X12. Whatever the backend reports, with [shots] other than 0 the
    mapping returned for a circuit has one entry per reported outcome, in
    the order reported, under the reversed key and with the count divided by
    [shots]; with [shots = 0] and at least one reported outcome the division
    of line 214 raises [ZeroDivisionError]. *)
Theorem corrected_fractions (raw : Dict.t Py.str Q) (shots : Z) :
  NoDup (Dict.keys raw) ->
  (shots <> 0%Z ->
   Superposer.corrected raw shots
   = Py.Ok (List.map (fun e : Py.str * Q =>
                        (rev (fst e), (snd e / inject_Z shots)%Q)) raw)) /\
  (shots = 0%Z -> raw <> [] ->
   Superposer.corrected raw shots = Py.Raise Py.ZeroDivisionError).
Proof.
  intro Hnd. split.
  - intro Hs. unfold Superposer.corrected.
    rewrite (corrected_map_from shots raw [] Hs); [reflexivity|].
    simpl. apply Injective_map_NoDup; [|exact Hnd].
    intros a b H. apply (f_equal (@rev ascii)) in H.
    now rewrite !rev_involutive in H.
  - intros -> Hne. destruct raw as [|[k c] raw]; [contradiction|].
    reflexivity.
Qed.

Lemma corrected_fractions_witness :
  Superposer.corrected [(Py.lit "001", 600 # 1); (Py.lit "110", 424 # 1)] 1024
  = Py.Ok [(Py.lit "100", (600 # 1) / inject_Z 1024);
           (Py.lit "011", (424 # 1) / inject_Z 1024)].
Proof.
  refine (proj1 (corrected_fractions
                   [(Py.lit "001", 600 # 1); (Py.lit "110", 424 # 1)] 1024
                   _) _).
  - repeat constructor; simpl; intuition discriminate.
  - lia.
Defined.

(** ** bitstring_superposer: as many strings as outcomes *)

Section Uniform.
Import Superposer.

Lemma length_allbits (k : nat) (p : basis) :
  In p (Cube.allbits k) -> List.length p = k.
Proof.
  revert p. induction k as [|k IH]; intros p Hp; simpl in Hp.
  - destruct Hp as [<-|[]]. reflexivity.
  - apply in_flat_map in Hp. destruct Hp as [q [Hq Hin]].
    destruct Hin as [<-|[<-|[]]]; rewrite length_app, (IH q Hq); simpl; lia.
Qed.

Lemma in_allbits (b : basis) : In b (Cube.allbits (List.length b)).
Proof.
  remember (List.length b) as k eqn:Hk. revert b Hk.
  induction k as [|k IH]; intros b Hk.
  - destruct b; [now left | discriminate].
  - destruct (@exists_last _ b) as [q [v ->]].
    { intro E. subst b. discriminate. }
    rewrite length_app in Hk. simpl in Hk.
    simpl. apply in_flat_map. exists q. split.
    + apply IH. lia.
    + destruct v; simpl; auto.
Qed.

Lemma nodup_allbits (k : nat) : NoDup (Cube.allbits k).
Proof.
  induction k as [|k IH]; simpl.
  - repeat constructor. intros [].
  - induction IH as [|p l Hp Hl IHl]; simpl; [constructor|].
    constructor.
    + intros [H|H].
      * apply app_inj_tail in H. destruct H as [_ H]. discriminate.
      * apply in_flat_map in H. destruct H as [q [Hq [E|[E|[]]]]];
          apply app_inj_tail in E; destruct E as [-> _]; contradiction.
    + constructor; [|exact IHl].
      intro H. apply in_flat_map in H.
      destruct H as [q [Hq [E|[E|[]]]]];
        apply app_inj_tail in E; destruct E as [-> _]; contradiction.
Qed.

Lemma put_after (p z : basis) (u v : bool) :
  put (List.length p) v (p ++ u :: z) = p ++ v :: z.
Proof.
  induction p as [|w p IH]; simpl; [reflexivity|]. now rewrite IH.
Qed.

Lemma nth_after (p z : basis) (u : bool) :
  nth (List.length p) (p ++ u :: z) false = u.
Proof.
  rewrite app_nth2 by lia. now rewrite Nat.sub_diag.
Qed.

(** A Hadamard gate on qubit [k] of states that are zero from [k] on. *)
Lemma hadamard_step (n k c : nat) (l : list basis) :
  (k < n)%nat ->
  (forall p, In p l -> List.length p = k) ->
  apply (h k)
        {| terms := List.map (fun p => (p ++ repeat false (n - k), 1%Z)) l;
           hcount := c |} =
  {| terms := List.map (fun p => (p ++ repeat false (n - S k), 1%Z))
                       (flat_map (fun p => [p ++ [false]; p ++ [true]]) l);
     hcount := S c |}.
Proof.
  intros Hk Hl. unfold apply. cbn [terms hcount]. f_equal.
  induction l as [|p l IH]; simpl; [reflexivity|].
  rewrite IH by (intros; apply Hl; now right).
  assert (Hp : List.length p = k) by (apply Hl; now left).
  replace (n - k)%nat with (S (n - S k)) by lia. cbn [repeat].
  clear IH. subst k.
  rewrite !put_after, nth_after.
  now rewrite <- !app_assoc.
Qed.

Lemma hadamards (n k : nat) :
  (k <= n)%nat ->
  fold_left (fun st g => apply g st) (List.map h (seq 0 k))
            {| terms := [(repeat false n, 1%Z)]; hcount := 0 |} =
  {| terms := List.map (fun p => (p ++ repeat false (n - k), 1%Z))
                       (Cube.allbits k);
     hcount := k |}.
Proof.
  induction k as [|k IH]; intro Hk.
  - simpl. now rewrite Nat.sub_0_r.
  - rewrite seq_S, map_app, fold_left_app, IH by lia.
    cbn [List.map fold_left Nat.add].
    apply hadamard_step; [lia | apply length_allbits].
Qed.

Lemma amplitude_absent (l : list basis) (c : nat) (b : basis) :
  ~ In b l ->
  amplitude {| terms := List.map (fun p => (p, 1%Z)) l; hcount := c |} b = 0%Z.
Proof.
  unfold amplitude. cbn [terms].
  induction l as [|p l IH]; intro Hb; simpl; [reflexivity|].
  rewrite basis_eqb_neq by (intro E; apply Hb; now left).
  apply IH. intro H. apply Hb. now right.
Qed.

Lemma amplitude_once (l : list basis) (c : nat) (b : basis) :
  NoDup l -> In b l ->
  amplitude {| terms := List.map (fun p => (p, 1%Z)) l; hcount := c |} b = 1%Z.
Proof.
  intros Hnd. induction Hnd as [|p l Hp Hnd IH]; intros Hb; [destruct Hb|].
  destruct Hb as [->|Hb].
  - pose proof (amplitude_absent l c b Hp) as H0.
    unfold amplitude in *. cbn [terms] in *. simpl.
    rewrite basis_eqb_refl, H0. reflexivity.
  - specialize (IH Hb).
    unfold amplitude in *. cbn [terms] in *. simpl.
    rewrite basis_eqb_neq by (intro E; subst; contradiction).
    exact IH.
Qed.
End Uniform.

(** X13. When the list holds [2 ** num] strings, [num >= 1] being the
    length of the longest, the strings themselves are not read: the circuit
    is a Hadamard gate on every qubit, and on the noiseless backend every
    outcome of [num] bits has the probability [1 / 2 ** num]. *)
Theorem all_strings_uniform (strings : list Py.str) :
  (1 <= Superposer.longest strings)%nat ->
  Z.of_nat (List.length strings) = (2 ^ Z.of_nat (Superposer.longest strings))%Z ->
  exists qc,
    Superposer.program strings = Py.Ok qc /\
    Superposer.ops qc =
      List.map Superposer.h (seq 0 (Superposer.longest strings))
      ++ [Superposer.barrier; Superposer.measure] /\
    forall b : Superposer.basis,
      List.length b = Superposer.longest strings ->
      Superposer.probability (Superposer.run qc) b
      == 1 / inject_Z (2 ^ Z.of_nat (Superposer.longest strings)).
Proof.
  intros Hnum Hn. apply Z.eqb_eq in Hn.
  eexists. split; [|split].
  - unfold Superposer.program.
    destruct (Nat.eqb_spec (Superposer.longest strings) 0) as [E0|_]; [lia|].
    rewrite Hn. cbn [Py.bind].
    rewrite h_loop. reflexivity.
  - reflexivity.
  - intros b Hb. unfold Superposer.run.
    cbn [Superposer.ops Superposer.size app].
    rewrite fold_left_app, hadamards by lia.
    cbn [fold_left Superposer.apply]. rewrite Nat.sub_diag. cbn [repeat].
    erewrite map_ext; [|intro p; rewrite app_nil_r; reflexivity].
    unfold Superposer.probability. cbn [Superposer.hcount].
    rewrite amplitude_once;
      [reflexivity | apply nodup_allbits | rewrite <- Hb; apply in_allbits].
Qed.

Lemma all_strings_uniform_witness :
  exists qc,
    Superposer.program [Py.lit "00"; Py.lit "01"; Py.lit "10"; Py.lit "11"]
    = Py.Ok qc /\
    Superposer.probability (Superposer.run qc) [true; false] == 1 / inject_Z 4.
Proof.
  assert (Hnum : (1 <= Superposer.longest
                         [Py.lit "00"; Py.lit "01"; Py.lit "10"; Py.lit "11"])%nat)
    by (vm_compute; lia).
  destruct (all_strings_uniform
              [Py.lit "00"; Py.lit "01"; Py.lit "10"; Py.lit "11"]
              Hnum eq_refl)
    as [qc [H1 [_ H3]]].
  exists qc. split; [exact H1 | exact (H3 [true; false] eq_refl)].
Defined.

(** ** layout: the couplers of a grid *)

Section GridLoops.
Local Open Scope Z_scope.

Lemma for_each_app (A S : Type) (body : A -> S -> Py.result S)
      (l1 l2 : list A) (s : S) :
  Py.for_each (l1 ++ l2) body s =
  Py.bind (Py.for_each l1 body s) (Py.for_each l2 body).
Proof.
  revert s. induction l1 as [|a l1 IH]; intro s; simpl; [reflexivity|].
  destruct (body a s); simpl; auto.
Qed.

Lemma for_each_map (A B S : Type) (f : A -> B) (body : B -> S -> Py.result S)
      (l : list A) (s : S) :
  Py.for_each (List.map f l) body s = Py.for_each l (fun a => body (f a)) s.
Proof.
  revert s. induction l as [|a l IH]; intro s; simpl; [reflexivity|].
  destruct (body (f a) s); simpl; auto.
Qed.

(** Two nested loops visit the pairs of the flattened list. *)
Lemma for_each_nested (A B C S : Type) (f : A -> B -> C)
      (body : C -> S -> Py.result S) (xs : list A) (ys : list B) (s : S) :
  Py.for_each xs
    (fun x st => Py.for_each ys (fun y st => body (f x y) st) st) s =
  Py.for_each (flat_map (fun x => List.map (f x) ys) xs) body s.
Proof.
  revert s. induction xs as [|x xs IH]; intro s; simpl; [reflexivity|].
  rewrite for_each_app, for_each_map.
  destruct (Py.for_each ys (fun a => body (f x a)) s); simpl; auto.
Qed.

(** Labelling a list of pairs from [chr(char)] on. *)
Lemma add_pairs (l : list (Z * Z)) (prs : Dict.t Z (Z * Z)) (char : Z) :
  0 <= char ->
  char + Z.of_nat (List.length l) <= 1114112 ->
  (forall k, In k (Dict.keys prs) -> k < char) ->
  Py.for_each l Layout.add_pair (prs, char) =
  Py.Ok (prs ++ Grid.labelled char l, char + Z.of_nat (List.length l)).
Proof.
  revert prs char.
  induction l as [|pr l IH]; intros prs char H0 Hmax Hkeys.
  - simpl. unfold Grid.labelled. simpl.
    now rewrite app_nil_r, Z.add_0_r.
  - cbn [Py.for_each]. unfold Layout.add_pair at 1, Layout.chr.
    cbn [List.length] in Hmax.
    assert (Hc : ((0 <=? char) && (char <? 1114112))%bool = true).
    { apply andb_true_iff. split; [apply Z.leb_le | apply Z.ltb_lt]; lia. }
    rewrite Hc. cbn [Py.bind].
    rewrite (set_new _ _ _ Z.eqb_eq).
    2:{ intro Hin. specialize (Hkeys _ Hin). lia. }
    rewrite IH.
    + f_equal. f_equal.
      * rewrite <- app_assoc. f_equal.
        unfold Grid.labelled. cbn [List.length seq List.map combine].
        rewrite Z.add_0_r. cbn [app]. f_equal. f_equal.
        rewrite <- seq_shift, map_map. apply map_ext.
        intro i. lia.
      * cbn [List.length]. lia.
    + lia.
    + lia.
    + intros k Hk. unfold Dict.keys in Hk. rewrite map_app in Hk.
      apply in_app_or in Hk. destruct Hk as [Hk|[<-|[]]].
      * specialize (Hkeys _ Hk). lia.
      * simpl. lia.
Qed.

Lemma keys_combine (A B : Type) (ks : list A) (l : list B) :
  List.length ks = List.length l -> List.map fst (combine ks l) = ks.
Proof.
  revert l. induction ks as [|k ks IH]; intros [|b l] H; simpl in *;
    try discriminate; [reflexivity|].
  f_equal. apply IH. lia.
Qed.

Lemma labelled_keys (char : Z) (l : list (Z * Z)) :
  Dict.keys (Grid.labelled char l) =
  List.map (fun i => char + Z.of_nat i) (seq 0 (List.length l)).
Proof.
  unfold Dict.keys, Grid.labelled. apply keys_combine.
  now rewrite length_map, length_seq.
Qed.

Lemma labelled_app (char : Z) (l1 l2 : list (Z * Z)) :
  Grid.labelled char (l1 ++ l2) =
  Grid.labelled char l1 ++
  Grid.labelled (char + Z.of_nat (List.length l1)) l2.
Proof.
  unfold Grid.labelled. revert char.
  induction l1 as [|pr l1 IH]; intro char.
  - simpl. now rewrite Z.add_0_r.
  - cbn [List.length app seq List.map combine]. f_equal.
    rewrite <- !seq_shift, !map_map.
    specialize (IH (char + 1)).
    assert (E : forall n,
               List.map (fun i => char + Z.of_nat (S i)) (seq 0 n) =
               List.map (fun i => char + 1 + Z.of_nat i) (seq 0 n)).
    { intro n. apply map_ext. intro i. lia. }
    rewrite !E, IH. f_equal. f_equal.
    apply map_ext. intro i. lia.
Qed.

Lemma grid_pairs_labelled (Lx Ly : Z) :
  65 + Z.of_nat (List.length (Grid.couplers Lx Ly)) <= 1114112 ->
  Layout.grid_pairs Lx Ly =
  Py.Ok (Grid.labelled 65 (Grid.couplers Lx Ly),
         65 + Z.of_nat (List.length (Grid.couplers Lx Ly))).
Proof.
  intro Hmax. unfold Layout.grid_pairs.
  unfold Grid.couplers in *. rewrite length_app, Nat2Z.inj_add in Hmax.
  rewrite (for_each_nested _ _ _ _
             (fun x y => (x + y * Ly, x + y * Ly + 1)) Layout.add_pair).
  fold (Grid.horizontal Lx Ly).
  rewrite add_pairs; [| lia | lia | intros k []].
  cbn [Py.bind app].
  rewrite (for_each_nested _ _ _ _
             (fun x y => (x + y * Ly, x + y * Ly + Ly)) Layout.add_pair).
  fold (Grid.vertical Lx Ly).
  rewrite add_pairs.
  - rewrite labelled_app, length_app, Nat2Z.inj_add.
    now rewrite Z.add_assoc.
  - lia.
  - lia.
  - intros k Hk. rewrite labelled_keys in Hk.
    apply in_map_iff in Hk. destruct Hk as [i [<- Hi]].
    apply in_seq in Hi. lia.
Qed.

Lemma range_length (n : Z) : Z.of_nat (List.length (Py.range n)) = Z.max 0 n.
Proof.
  unfold Py.range. rewrite length_map, length_seq. lia.
Qed.

Lemma in_range (n i : Z) : In i (Py.range n) <-> 0 <= i < n.
Proof.
  unfold Py.range. rewrite in_map_iff. split.
  - intros [k [<- Hk]]. apply in_seq in Hk. lia.
  - intro H. exists (Z.to_nat i). split; [lia|]. apply in_seq. lia.
Qed.

Lemma length_rows (A B : Type) (f : A -> B -> Z * Z)
      (xs : list A) (ys : list B) :
  List.length (flat_map (fun x => List.map (f x) ys) xs) =
  (List.length xs * List.length ys)%nat.
Proof.
  induction xs as [|x xs IH]; simpl; [reflexivity|].
  now rewrite length_app, length_map, IH.
Qed.

Lemma couplers_length (Lx Ly : Z) :
  1 <= Lx -> 1 <= Ly ->
  Z.of_nat (List.length (Grid.couplers Lx Ly)) =
  (Lx - 1) * Ly + Lx * (Ly - 1).
Proof.
  intros Hx Hy. unfold Grid.couplers, Grid.horizontal, Grid.vertical.
  rewrite length_app, !length_rows, Nat2Z.inj_add, !Nat2Z.inj_mul.
  rewrite !range_length. rewrite !Z.max_r by lia. reflexivity.
Qed.

Lemma in_couplers (Lx Ly n m : Z) :
  In (n, m) (Grid.couplers Lx Ly) ->
  exists x y,
    n = x + y * Ly /\
    ((0 <= x < Lx - 1 /\ 0 <= y < Ly /\ m = n + 1) \/
     (0 <= x < Lx /\ 0 <= y < Ly - 1 /\ m = n + Ly)).
Proof.
  unfold Grid.couplers, Grid.horizontal, Grid.vertical. intro H.
  apply in_app_or in H. destruct H as [H|H];
    apply in_flat_map in H; destruct H as [x [Hx H]];
    apply in_map_iff in H; destruct H as [y [E Hy]];
    injection E as <- <-;
    apply in_range in Hx; apply in_range in Hy;
    exists x, y; (split; [reflexivity|]); [left | right]; auto.
Qed.

Lemma in_labelled (char : Z) (l : list (Z * Z)) (k : Z) (pr : Z * Z) :
  In (k, pr) (Grid.labelled char l) -> In pr l.
Proof.
  unfold Grid.labelled. intro H. now apply in_combine_r in H.
Qed.

End GridLoops.

(** ** dict: lookup after assignment *)

Section DictLookup.
Variables K V : Type.
Variable eqb : K -> K -> bool.
Hypothesis eqb_eq : forall a b, eqb a b = true <-> a = b.

Lemma get_set_same (d : Dict.t K V) (k : K) (v : V) :
  Dict.get eqb (Dict.set eqb d k v) k = Some v.
Proof.
  induction d as [|[k' v'] d IH]; simpl.
  - now rewrite (eqb_refl _ eqb eqb_eq).
  - destruct (eqb k' k) eqn:E; simpl; rewrite E; auto.
Qed.

Lemma get_set_other (d : Dict.t K V) (k k0 : K) (v : V) :
  k <> k0 -> Dict.get eqb (Dict.set eqb d k v) k0 = Dict.get eqb d k0.
Proof.
  intro Hne. induction d as [|[k' v'] d IH]; simpl.
  - now rewrite (eqb_neq _ eqb eqb_eq k k0 Hne).
  - destruct (eqb k' k) eqn:E; simpl.
    + apply eqb_eq in E. subst k'.
      now rewrite (eqb_neq _ eqb eqb_eq k k0 Hne).
    + destruct (eqb k' k0); auto.
Qed.
End DictLookup.

(** ** layout: positions *)

Section Positions.
Import Layout.
Local Open Scope Z_scope.

Lemma item_some (ps : Dict.t node (Q * Q)) (k : node) (p : Q * Q) :
  Dict.item node_eqb ps k = Py.Ok p <-> Dict.get node_eqb ps k = Some p.
Proof.
  unfold Dict.item. destruct (Dict.get node_eqb ps k); split; congruence.
Qed.

(** What lines 418-419 leave in [pos]: the positions of the elements as
    they were, and every coupler midway between its two elements. *)
Lemma midpoints_spec (prs : Dict.t Z (Z * Z)) :
  NoDup (Dict.keys prs) ->
  forall ps ps',
    midpoints prs ps = Py.Ok ps' ->
    (forall n, Dict.get node_eqb ps' (Qubit n) = Dict.get node_eqb ps (Qubit n)) /\
    (forall l, ~ In l (Dict.keys prs) ->
               Dict.get node_eqb ps' (Coupler l) = Dict.get node_eqb ps (Coupler l)) /\
    (forall l e0 e1,
        In (l, (e0, e1)) prs ->
        exists p0 p1,
          Dict.get node_eqb ps (Qubit e0) = Some p0 /\
          Dict.get node_eqb ps (Qubit e1) = Some p1 /\
          Dict.get node_eqb ps' (Coupler l) =
          Some ((fst p0 + fst p1) / 2, (snd p0 + snd p1) / 2)%Q).
Proof.
  unfold midpoints.
  induction prs as [|[l [e0 e1]] prs IH]; intros Hnd0 ps ps' Hrun.
  - injection Hrun as <-. repeat split; auto. intros l e0 e1 [].
  - simpl in Hnd0. inversion Hnd0 as [|? ? Hl0 Hnd]; subst.
    specialize (IH Hnd).
    cbn [Py.for_each] in Hrun.
    destruct (Dict.item node_eqb ps (Qubit e0)) as [p0|] eqn:E0;
      [|discriminate].
    destruct (Dict.item node_eqb ps (Qubit e1)) as [p1|] eqn:E1;
      [|discriminate].
    cbn [Py.bind] in Hrun.
    apply item_some in E0. apply item_some in E1.
    set (mid := ((fst p0 + fst p1) / 2, (snd p0 + snd p1) / 2)%Q) in *.
    destruct (IH _ _ Hrun) as [Hq [Hc Hm]].
    assert (Hq1 : forall n,
               Dict.get node_eqb (Dict.set node_eqb ps (Coupler l) mid)
                        (Qubit n)
               = Dict.get node_eqb ps (Qubit n)).
    { intro n. apply (get_set_other _ _ _ node_eqb_eq). discriminate. }
    split; [|split].
    + intro n. now rewrite Hq, Hq1.
    + intros l' Hl'. simpl in Hl'.
      rewrite Hc by tauto.
      apply (get_set_other _ _ _ node_eqb_eq). intros [= E]. tauto.
    + intros l' e0' e1' [[= <- <- <-]|Hin].
      * exists p0, p1. split; [exact E0|]. split; [exact E1|].
        rewrite Hc by exact Hl0.
        apply (get_set_same _ _ _ node_eqb_eq).
      * destruct (Hm _ _ _ Hin) as [q0 [q1 [G0 [G1 G]]]].
        exists q0, q1. now rewrite <- !Hq1.
Qed.
End Positions.

Section GridPositions.
Import Layout.
Local Open Scope Z_scope.

Lemma node_eq_dec (a b : node) : {a = b} + {a <> b}.
Proof.
  destruct (node_eqb a b) eqn:E.
  - left. now apply node_eqb_eq.
  - right. intro H. apply node_eqb_eq in H. congruence.
Qed.

Lemma present_set (ps : Dict.t node (Q * Q)) (k k' : node) (v : Q * Q) :
  Dict.get node_eqb ps k <> None ->
  Dict.get node_eqb (Dict.set node_eqb ps k' v) k <> None.
Proof.
  intro H. destruct (node_eq_dec k' k) as [->|Hne].
  - now rewrite (get_set_same _ _ _ node_eqb_eq).
  - now rewrite (get_set_other _ _ _ node_eqb_eq _ _ _ _ Hne).
Qed.

Lemma row_keeps (Ly x : Z) (l : list Z) (ps : Dict.t node (Q * Q)) (k : node) :
  Dict.get node_eqb ps k <> None ->
  Dict.get node_eqb
    (fold_left (fun ps y =>
                  Dict.set node_eqb ps (Qubit (x + y * Ly))
                           (inject_Z x, inject_Z y)) l ps) k <> None.
Proof.
  revert ps. induction l as [|y l IH]; intros ps H; simpl; [exact H|].
  apply IH. now apply present_set.
Qed.

Lemma row_adds (Ly x y : Z) (l : list Z) (ps : Dict.t node (Q * Q)) :
  In y l ->
  Dict.get node_eqb
    (fold_left (fun ps y =>
                  Dict.set node_eqb ps (Qubit (x + y * Ly))
                           (inject_Z x, inject_Z y)) l ps)
    (Qubit (x + y * Ly)) <> None.
Proof.
  revert ps. induction l as [|y0 l IH]; intros ps Hin; [destruct Hin|].
  destruct Hin as [->|Hin]; simpl.
  - apply row_keeps. now rewrite (get_set_same _ _ _ node_eqb_eq).
  - now apply IH.
Qed.

Lemma rows_keep (Ly : Z) (xs ys : list Z) (ps : Dict.t node (Q * Q)) (k : node) :
  Dict.get node_eqb ps k <> None ->
  Dict.get node_eqb
    (fold_left
       (fun ps x =>
          fold_left (fun ps y =>
                       Dict.set node_eqb ps (Qubit (x + y * Ly))
                                (inject_Z x, inject_Z y)) ys ps) xs ps)
    k <> None.
Proof.
  revert ps. induction xs as [|x xs IH]; intros ps H; simpl; [exact H|].
  apply IH. now apply row_keeps.
Qed.

(** Every lattice point of the grid has an entry in [pos], under the key
    [x + y*Ly]. *)
Lemma grid_pos_present (Lx Ly x y : Z) :
  0 <= x < Lx -> 0 <= y < Ly ->
  Dict.get node_eqb (grid_pos Lx Ly) (Qubit (x + y * Ly)) <> None.
Proof.
  intros Hx Hy. unfold grid_pos.
  apply in_range in Hx. apply in_range in Hy.
  generalize (@nil (node * (Q * Q))).
  induction (Py.range Lx) as [|x0 xs IH]; [destruct Hx|].
  intro ps. destruct Hx as [->|Hx]; simpl.
  - apply rows_keep. now apply row_adds.
  - now apply IH.
Qed.

Lemma midpoints_total (prs : Dict.t Z (Z * Z)) :
  forall ps,
    (forall l e0 e1,
        In (l, (e0, e1)) prs ->
        Dict.get node_eqb ps (Qubit e0) <> None /\
        Dict.get node_eqb ps (Qubit e1) <> None) ->
    exists ps', midpoints prs ps = Py.Ok ps'.
Proof.
  unfold midpoints.
  induction prs as [|[l [e0 e1]] prs IH]; intros ps H.
  - simpl. eauto.
  - cbn [Py.for_each].
    destruct (H l e0 e1 (or_introl eq_refl)) as [H0 H1].
    unfold Dict.item at 1.
    destruct (Dict.get node_eqb ps (Qubit e0)) as [p0|]; [|contradiction].
    cbn [Py.bind]. unfold Dict.item at 1.
    destruct (Dict.get node_eqb ps (Qubit e1)) as [p1|]; [|contradiction].
    cbn [Py.bind]. apply IH.
    intros l' a0 a1 Hin.
    destruct (H l' a0 a1 (or_intror Hin)) as [G0 G1].
    split; apply present_set; assumption.
Qed.

(** The constructor on a grid: no event, and the object. *)
Lemma grid_init (get_backend : Py.str -> configuration) (Lx Ly : Z) :
  Z.of_nat (List.length (Grid.couplers Lx Ly)) <= 1114047 ->
  fst (init get_backend (Grid [Lx; Ly])) = [] /\
  exists self,
    snd (init get_backend (Grid [Lx; Ly])) = Py.Ok self /\
    num self = Lx * Ly /\
    pairs self = Grid.labelled 65 (Grid.couplers Lx Ly).
Proof.
  intro Hmax. split; [reflexivity|].
  unfold init. cbn [snd].
  change (Py.index [Lx; Ly] 0) with (Py.Ok Lx).
  change (Py.index [Lx; Ly] 1) with (Py.Ok Ly).
  cbn [Py.bind].
  rewrite grid_pairs_labelled by lia. cbn [Py.bind fst].
  destruct (midpoints_total (Grid.labelled 65 (Grid.couplers Lx Ly))
                            (grid_pos Lx Ly)) as [ps' Hps].
  { intros l e0 e1 Hin. apply in_labelled in Hin.
    destruct (in_couplers _ _ _ _ Hin) as [x [y [-> [[Hx [Hy ->]]|[Hx [Hy ->]]]]]].
    - split; [apply grid_pos_present; lia|].
      replace (x + y * Ly + 1) with ((x + 1) + y * Ly) by lia.
      apply grid_pos_present; lia.
    - split; [apply grid_pos_present; lia|].
      replace (x + y * Ly + Ly) with (x + (y + 1) * Ly) by lia.
      apply grid_pos_present; lia. }
  rewrite Hps. cbn [Py.bind]. eexists. repeat split.
Qed.
End GridPositions.

(** ** layout: what the constructor builds *)

Section GridLayout.
Import Layout.
Local Open Scope Z_scope.

Lemma labelled_some (char : Z) (l : list (Z * Z)) (pr : Z * Z) :
  In pr l -> exists k, In (k, pr) (Grid.labelled char l).
Proof.
  unfold Grid.labelled. intro H.
  destruct (In_nth_error _ _ H) as [i Hi].
  exists (char + Z.of_nat i).
  assert (Hlt : (i < List.length l)%nat).
  { apply nth_error_Some. congruence. }
  apply (nth_error_In _ i).
  assert (Hk : nth_error (List.map (fun i => char + Z.of_nat i)
                                   (seq 0 (List.length l))) i
               = Some (char + Z.of_nat i)).
  { rewrite nth_error_map, nth_error_seq.
    destruct (Nat.ltb_spec i (List.length l)); [reflexivity | lia]. }
  revert Hk Hi. generalize (List.map (fun i => char + Z.of_nat i)
                                     (seq 0 (List.length l))).
  generalize (char + Z.of_nat i).
  clear. intros z ks. revert ks. revert l. induction i as [|i IH]; intros [|b l] [|k ks]; simpl;
    try discriminate.
  - now intros [= ->] [= ->].
  - apply IH.
Qed.

(** X14.  [layout([Lx, Ly])] on a grid with at least one row and one
    column, and no more couplers than [chr] has characters after ['A'],
    prints nothing and raises nothing; the object has [num = Lx*Ly] and
    [(Lx-1)*Ly + Lx*(Ly-1)] couplers, labelled in order with the
    characters of code points 65, 66, ...; each coupler joins an element
    [n >= 0] to [n + 1] or to [n + Ly]. *)
Theorem grid_couplers_counted
        (get_backend : Py.str -> configuration) (Lx Ly : Z) :
  1 <= Lx -> 1 <= Ly ->
  (Lx - 1) * Ly + Lx * (Ly - 1) <= 1114047 ->
  fst (init get_backend (Grid [Lx; Ly])) = [] /\
  exists self,
    snd (init get_backend (Grid [Lx; Ly])) = Py.Ok self /\
    num self = Lx * Ly /\
    Dict.keys (pairs self) =
    List.map (fun i => 65 + Z.of_nat i)
             (seq 0 (Z.to_nat ((Lx - 1) * Ly + Lx * (Ly - 1)))) /\
    forall l e0 e1,
      In (l, (e0, e1)) (pairs self) ->
      0 <= e0 /\ (e1 = e0 + 1 \/ e1 = e0 + Ly).
Proof.
  intros Hx Hy Hmax.
  pose proof (couplers_length Lx Ly Hx Hy) as Hlen.
  destruct (grid_init get_backend Lx Ly) as [Hev [self [Hself [Hnum Hpairs]]]];
    [lia|].
  split; [exact Hev|]. exists self. repeat split; try assumption.
  - rewrite Hpairs, labelled_keys. f_equal. f_equal. lia.
  - rewrite Hpairs in H. apply in_labelled in H.
    destruct (in_couplers _ _ _ _ H) as [x [y [-> [[? [? _]]|[? [? _]]]]]]; nia.
  - rewrite Hpairs in H. apply in_labelled in H.
    destruct (in_couplers _ _ _ _ H) as [x [y [-> [[_ [_ ->]]|[_ [_ ->]]]]]];
      [left | right]; reflexivity.
Qed.

Lemma grid_couplers_counted_witness :
  fst (init (fun _ => {| n_qubits := 0; coupling_map := [] |}) (Grid [3; 2]))
  = [] /\
  exists self,
    snd (init (fun _ => {| n_qubits := 0; coupling_map := [] |}) (Grid [3; 2]))
    = Py.Ok self /\
    num self = 3 * 2 /\
    Dict.keys (pairs self) =
    List.map (fun i => 65 + Z.of_nat i)
             (seq 0 (Z.to_nat ((3 - 1) * 2 + 3 * (2 - 1)))) /\
    forall l e0 e1,
      In (l, (e0, e1)) (pairs self) ->
      0 <= e0 /\ (e1 = e0 + 1 \/ e1 = e0 + 2).
Proof.
  apply (grid_couplers_counted
           (fun _ => {| n_qubits := 0; coupling_map := [] |}) 3 2); lia.
Defined.

(** X15.  Whatever the device, in an object that [layout(device)]
    returns every coupler of [pairs] has a position, the two elements it
    joins have positions, and the coupler's position is the midpoint of
    theirs. *)
Theorem coupler_at_midpoint
        (get_backend : Py.str -> configuration) (dev : device)
        (self : layout) (l e0 e1 : Z) :
  snd (init get_backend dev) = Py.Ok self ->
  In (l, (e0, e1)) (pairs self) ->
  exists p0 p1,
    Dict.get node_eqb (pos self) (Qubit e0) = Some p0 /\
    Dict.get node_eqb (pos self) (Qubit e1) = Some p1 /\
    Dict.get node_eqb (pos self) (Coupler l) =
    Some ((fst p0 + fst p1) / 2, (snd p0 + snd p1) / 2)%Q.
Proof.
  intros Hinit Hin.
  pose proof (init_pairs_nodup get_backend dev self Hinit) as Hnd.
  assert (Hmid : exists ps, midpoints (pairs self) ps = Py.Ok (pos self)).
  { destruct dev as [name|dims|]; cbn [init snd] in Hinit.
    - destruct (recognized name); [|discriminate]. cbn [snd] in Hinit.
      destruct (Py.for_each _ add_pair _) as [st|]; [|discriminate].
      cbn [Py.bind] in Hinit.
      destruct (midpoints (fst st) _) as [ps'|] eqn:E; [|discriminate].
      injection Hinit as <-. cbn [pairs pos]. eauto.
    - destruct (Py.index dims 0) as [Lx|]; [|discriminate].
      cbn [Py.bind] in Hinit.
      destruct (Py.index dims 1) as [Ly|]; [|discriminate].
      cbn [Py.bind] in Hinit.
      destruct (grid_pairs Lx Ly) as [st|]; [|discriminate].
      cbn [Py.bind] in Hinit.
      destruct (midpoints (fst st) _) as [ps'|] eqn:E; [|discriminate].
      injection Hinit as <-. cbn [pairs pos]. eauto.
    - discriminate. }
  destruct Hmid as [ps Hmid].
  destruct (midpoints_spec _ Hnd _ _ Hmid) as [Hq [_ Hc]].
  destruct (Hc l e0 e1 Hin) as [p0 [p1 [H0 [H1 H2]]]].
  exists p0, p1. rewrite !Hq. auto.
Qed.

Lemma coupler_at_midpoint_witness :
  exists self,
    snd (init (fun _ => {| n_qubits := 0; coupling_map := [] |}) (Grid [2; 2]))
    = Py.Ok self /\
    exists p0 p1,
      Dict.get node_eqb (pos self) (Qubit 2) = Some p0 /\
      Dict.get node_eqb (pos self) (Qubit 3) = Some p1 /\
      Dict.get node_eqb (pos self) (Coupler 66) =
      Some ((fst p0 + fst p1) / 2, (snd p0 + snd p1) / 2)%Q.
Proof.
  eexists. split; [vm_compute; reflexivity|].
  apply (coupler_at_midpoint
           (fun _ => {| n_qubits := 0; coupling_map := [] |})
           (Grid [2; 2]) _ 66 2 3).
  - vm_compute. reflexivity.
  - vm_compute. auto.
Defined.

(** X16.  On a grid the elements that the couplers join are all below
    [num] exactly when the grid has at least as many columns as rows
    ([Ly <= Lx]): with [Lx < Ly] some coupler joins an element that the
    device does not have. *)
Theorem grid_elements_below_num
        (get_backend : Py.str -> configuration) (Lx Ly : Z) :
  1 <= Lx -> 1 <= Ly ->
  (Lx - 1) * Ly + Lx * (Ly - 1) <= 1114047 ->
  exists self,
    snd (init get_backend (Grid [Lx; Ly])) = Py.Ok self /\
    ((forall l e0 e1,
         In (l, (e0, e1)) (pairs self) ->
         0 <= e0 < num self /\ 0 <= e1 < num self)
     <-> Ly <= Lx).
Proof.
  intros Hx Hy Hmax.
  pose proof (couplers_length Lx Ly Hx Hy) as Hlen.
  destruct (grid_init get_backend Lx Ly) as [_ [self [Hself [Hnum Hpairs]]]];
    [lia|].
  exists self. split; [exact Hself|]. rewrite Hnum, Hpairs. split.
  - intro Hall. destruct (Z_le_gt_dec Ly Lx) as [Hle|Hgt]; [exact Hle|].
    exfalso.
    assert (Hin : In (Lx - 1 + (Ly - 2) * Ly, Lx - 1 + (Ly - 2) * Ly + Ly)
                     (Grid.couplers Lx Ly)).
    { unfold Grid.couplers, Grid.vertical. apply in_or_app. right.
      apply in_flat_map. exists (Lx - 1). split; [apply in_range; lia|].
      apply in_map_iff. exists (Ly - 2). split; [reflexivity|].
      apply in_range. lia. }
    destruct (labelled_some 65 _ _ Hin) as [k Hk].
    destruct (Hall _ _ _ Hk) as [_ [_ Hhi]]. nia.
  - intros Hle l e0 e1 Hin. apply in_labelled in Hin.
    destruct (in_couplers _ _ _ _ Hin)
      as [x [y [-> [[Hx' [Hy' ->]]|[Hx' [Hy' ->]]]]]]; nia.
Qed.

Lemma grid_elements_below_num_witness :
  exists self,
    snd (init (fun _ => {| n_qubits := 0; coupling_map := [] |}) (Grid [2; 3]))
    = Py.Ok self /\
    ((forall l e0 e1,
         In (l, (e0, e1)) (pairs self) ->
         0 <= e0 < num self /\ 0 <= e1 < num self)
     <-> 3 <= 2).
Proof.
  apply (grid_elements_below_num
           (fun _ => {| n_qubits := 0; coupling_map := [] |}) 2 3); lia.
Defined.

End GridLayout.

(** ** layout: what calculate_probs adds up *)

Section Marginals.
Import Layout.
Variable N : Arith.t.

Lemma bump_at (probs probs' : Dict.t node (Arith.num N)) (k : node)
      (p : Arith.num N) :
  bump N probs k p = Py.Ok probs' ->
  exists v,
    Dict.get node_eqb probs k = Some v /\
    Dict.get node_eqb probs' k = Some (Arith.add N v p) /\
    Dict.keys probs' = Dict.keys probs /\
    forall k0, k0 <> k ->
               Dict.get node_eqb probs' k0 = Dict.get node_eqb probs k0.
Proof.
  unfold bump, Dict.item.
  destruct (Dict.get node_eqb probs k) as [v|] eqn:E; [|discriminate].
  cbn [Py.bind]. intros [= <-]. exists v. split; [reflexivity|]. split.
  - apply (get_set_same _ _ _ node_eqb_eq).
  - split.
    + rewrite (keys_set _ _ node_eqb). unfold Dict.mem. now rewrite E.
    + intros k0 Hne. apply (get_set_other _ _ _ node_eqb_eq). congruence.
Qed.

(** A loop that adds [p] to the entry of an element's key where the
    element's condition holds: every condition was evaluated, and with one
    element per key every entry has got [p] or nothing, as the condition of
    its element says. *)
Lemma loop_adds (A : Type) (key : A -> node) (cond : A -> Py.result bool)
      (p : Arith.num N)
      (body : A -> Dict.t node (Arith.num N)
              -> Py.result (Dict.t node (Arith.num N))) :
  (forall a probs,
      body a probs =
      match cond a with
      | Py.Ok true => bump N probs (key a) p
      | Py.Ok false => Py.Ok probs
      | Py.Raise e => Py.Raise e
      end) ->
  forall xs probs probs',
    Py.for_each xs body probs = Py.Ok probs' ->
    (forall a, In a xs -> exists c, cond a = Py.Ok c) /\
    Dict.keys probs' = Dict.keys probs /\
    (NoDup (List.map key xs) ->
     forall k v',
       Dict.get node_eqb probs' k = Some v' ->
       exists v,
         Dict.get node_eqb probs k = Some v /\
         ((exists a, In a xs /\ key a = k /\ cond a = Py.Ok true /\
                     v' = Arith.add N v p) \/
          ((forall a, In a xs -> key a = k -> cond a = Py.Ok false) /\
           v' = v))).
Proof.
  intros Hbody xs.
  induction xs as [|a xs IH]; intros probs probs' Hrun.
  - simpl in Hrun. injection Hrun as <-. split; [intros a []|].
    split; [reflexivity|].
    intros _ k v' Hk. exists v'. split; [exact Hk|].
    right. split; [intros a []|reflexivity].
  - cbn [Py.for_each] in Hrun. rewrite Hbody in Hrun.
    destruct (cond a) as [[|]|e] eqn:Ec; [| |discriminate].
    + destruct (bump N probs (key a) p) as [probs1|] eqn:Eb; [|discriminate].
      cbn [Py.bind] in Hrun.
      destruct (IH _ _ Hrun) as [Hc [Hkeys Hv]].
      destruct (bump_at _ _ _ _ Eb) as [v0 [G0 [G1 [Gk Go]]]].
      split; [|split].
      * intros a0 [<-|Hin]; [eauto | auto].
      * congruence.
      * intros Hnd k v' Hk. simpl in Hnd.
        inversion Hnd as [|? ? Hnotin Hnd']; subst.
        destruct (Hv Hnd' _ _ Hk) as [v1 [Hk1 Hcase]].
        destruct (node_eq_dec k (key a)) as [->|Hne].
        -- exists v0. split; [exact G0|]. left. exists a.
           split; [now left|]. split; [reflexivity|]. split; [exact Ec|].
           destruct Hcase as [[a' [Hin' [Hkey' _]]]|[_ ->]].
           ++ exfalso. apply Hnotin. rewrite <- Hkey'. now apply in_map.
           ++ congruence.
        -- rewrite (Go _ Hne) in Hk1. exists v1. split; [exact Hk1|].
           destruct Hcase as [[a' [Hin' [Hkey' [Hc' ->]]]]|[Hall ->]].
           ++ left. exists a'. split; [now right|]. auto.
           ++ right. split; [|reflexivity].
              intros a0 [<-|Hin0] Hkey0; [congruence | auto].
    + cbn [Py.bind] in Hrun.
      destruct (IH _ _ Hrun) as [Hc [Hkeys Hv]].
      split; [|split].
      * intros a0 [<-|Hin]; [eauto | auto].
      * exact Hkeys.
      * intros Hnd k v' Hk. simpl in Hnd.
        inversion Hnd as [|? ? Hnotin Hnd']; subst.
        destruct (Hv Hnd' _ _ Hk) as [v1 [Hk1 Hcase]].
        exists v1. split; [exact Hk1|].
        destruct Hcase as [[a' [Hin' [Hkey' [Hc' ->]]]]|[Hall ->]].
        -- left. exists a'. split; [now right|]. auto.
        -- right. split; [|reflexivity].
           intros a0 [<-|Hin0] Hkey0; [exact Ec | auto].
Qed.

Lemma one_value (prs : Dict.t Z (Z * Z)) (l : Z) (pr pr' : Z * Z) :
  NoDup (Dict.keys prs) -> In (l, pr) prs -> In (l, pr') prs -> pr = pr'.
Proof.
  induction prs as [|[l0 pr0] prs IH]; intros Hnd H1 H2; [destruct H1|].
  simpl in Hnd. inversion Hnd as [|? ? Hnotin Hnd']; subst.
  assert (Hkey : forall q, In (l0, q) prs -> False).
  { intros q Hq. apply Hnotin. unfold Dict.keys.
    change l0 with (fst (l0, q)). now apply in_map. }
  destruct H1 as [E1|H1]; destruct H2 as [E2|H2].
  - congruence.
  - exfalso. injection E1 as -> _. eauto.
  - exfalso. injection E2 as -> _. eauto.
  - now apply IH.
Qed.
End Marginals.

Section MarginalSums.
Import Layout.
Variable N : Arith.t.

(** One outcome [string] of probability [p]: the characters the two loops
    read are there, the keys stay, an element of the device gets [p] where
    the string has a ['1'] for it, and a coupler gets [p] where the string
    differs on its two elements. *)
Lemma accumulate_adds (self : layout) (string : Py.str) (p : Arith.num N)
      (probs probs' : Dict.t node (Arith.num N)) :
  accumulate N self string p probs = Py.Ok probs' ->
  (forall n, (0 <= n < num self)%Z ->
             exists c, Py.index string (- n - 1) = Py.Ok c) /\
  Dict.keys probs' = Dict.keys probs /\
  (NoDup (Dict.keys (pairs self)) ->
   (forall n v',
       Dict.get node_eqb probs' (Qubit n) = Some v' ->
       exists v,
         Dict.get node_eqb probs (Qubit n) = Some v /\
         v' = if ((0 <=? n)%Z && (n <? num self)%Z
                  && Marginal.one_at n string)%bool
              then Arith.add N v p else v) /\
   (forall l e0 e1 v',
       In (l, (e0, e1)) (pairs self) ->
       Dict.get node_eqb probs' (Coupler l) = Some v' ->
       exists v,
         Dict.get node_eqb probs (Coupler l) = Some v /\
         v' = if Marginal.differ_at e0 e1 string
              then Arith.add N v p else v)).
Proof.
  intro Hacc. unfold accumulate in Hacc.
  match type of Hacc with
  | Py.bind (Py.for_each ?xs ?body ?s) _ = _ =>
      destruct (Py.for_each xs body s) as [probs1|e] eqn:E1;
        [|discriminate];
      assert (Hb1 : forall a pr,
                 body a pr =
                 match (match Py.index string (- a - 1) with
                        | Py.Ok c => Py.Ok (Ascii.eqb c "1")
                        | Py.Raise e => Py.Raise e
                        end) with
                 | Py.Ok true => bump N pr (Qubit a) p
                 | Py.Ok false => Py.Ok pr
                 | Py.Raise e => Py.Raise e
                 end)
  end.
  { intros a pr. destruct (Py.index string (- a - 1)) as [c|e];
      [|reflexivity].
    cbn [Py.bind]. destruct (Ascii.eqb c "1"); reflexivity. }
  cbn [Py.bind] in Hacc.
  match type of Hacc with
  | Py.for_each _ ?body _ = _ =>
      assert (Hb2 : forall (a : Z * (Z * Z)) pr,
                 body a pr =
                 match (match Py.index string (- fst (snd a) - 1) with
                        | Py.Ok c0 =>
                            match Py.index string (- snd (snd a) - 1) with
                            | Py.Ok c1 => Py.Ok (negb (Ascii.eqb c0 c1))
                            | Py.Raise e => Py.Raise e
                            end
                        | Py.Raise e => Py.Raise e
                        end) with
                 | Py.Ok true => bump N pr (Coupler (fst a)) p
                 | Py.Ok false => Py.Ok pr
                 | Py.Raise e => Py.Raise e
                 end)
  end.
  { intros [l [e0 e1]] pr. cbn [fst snd].
    destruct (Py.index string (- e0 - 1)) as [c0|e]; [|reflexivity].
    cbn [Py.bind].
    destruct (Py.index string (- e1 - 1)) as [c1|e]; [|reflexivity].
    cbn [Py.bind]. destruct (negb (Ascii.eqb c0 c1)); reflexivity. }
  destruct (loop_adds N _ _ _ _ _ Hb1 _ _ _ E1) as [C1 [K1 V1]].
  destruct (loop_adds N _ (fun a : Z * (Z * Z) => Coupler (fst a)) _ _ _
                      Hb2 _ _ _ Hacc) as [C2 [K2 V2]].
  split; [|split].
  - intros n Hn. apply in_range in Hn.
    destruct (C1 n Hn) as [c Hc].
    destruct (Py.index string (- n - 1)) as [c'|]; [eauto | discriminate].
  - congruence.
  - intro Hnd.
    assert (Hnd2 : NoDup (List.map (fun a : Z * (Z * Z) => Coupler (fst a))
                                   (pairs self))).
    { rewrite <- (map_map fst Coupler).
      apply Injective_map_NoDup; [|exact Hnd].
      intros a b [= ->]. reflexivity. }
    assert (Hnd1 : NoDup (List.map Qubit (Py.range (num self)))).
    { apply Injective_map_NoDup; [|apply range_nodup].
      intros a b [= ->]. reflexivity. }
    specialize (V1 Hnd1). specialize (V2 Hnd2). split.
    + intros n v' Hk.
      destruct (V2 _ _ Hk) as [v1 [Hk1 [[a [_ [Hkey _]]]|[_ ->]]]];
        [discriminate|].
      destruct (V1 _ _ Hk1) as [v [Hk0 Hcase]].
      exists v. split; [exact Hk0|].
      destruct Hcase as [[a [Hin [[= ->] [Hc ->]]]]|[Hall ->]].
      * apply in_range in Hin.
        replace ((0 <=? n)%Z && (n <? num self)%Z)%bool with true
          by (symmetry; apply andb_true_iff; split;
              [apply Z.leb_le | apply Z.ltb_lt]; lia).
        unfold Marginal.one_at.
        destruct (Py.index string (- n - 1)) as [c|]; [|discriminate].
        injection Hc as ->. reflexivity.
      * destruct ((0 <=? n)%Z && (n <? num self)%Z)%bool eqn:Eg;
          [|cbn [andb]; reflexivity].
        apply andb_true_iff in Eg. destruct Eg as [G0 G1].
        apply Z.leb_le in G0. apply Z.ltb_lt in G1.
        assert (Hin : In n (Py.range (num self))) by (apply in_range; lia).
        specialize (Hall n Hin eq_refl). cbn [andb].
        unfold Marginal.one_at.
        destruct (Py.index string (- n - 1)) as [c|]; [|discriminate].
        injection Hall as ->. reflexivity.
    + intros l e0 e1 v' Hin Hk.
      destruct (V2 _ _ Hk) as [v1 [Hk1 Hcase]].
      assert (Hsame : Dict.get node_eqb probs (Coupler l) = Some v1).
      { destruct (V1 _ _ Hk1) as [v [Hk0 [[a [_ [Hkey _]]]|[_ ->]]]];
          [discriminate | exact Hk0]. }
      exists v1. split; [exact Hsame|].
      destruct Hcase as [[[l' [a0 a1]] [Hin' [[= ->] [Hc ->]]]]|[Hall ->]].
      * pose proof (one_value _ _ _ _ Hnd Hin Hin') as [= <- <-].
        cbn [fst snd] in Hc. unfold Marginal.differ_at.
        destruct (Py.index string (- e0 - 1)) as [c0|]; [|discriminate].
        destruct (Py.index string (- e1 - 1)) as [c1|]; [|discriminate].
        injection Hc as ->. reflexivity.
      * specialize (Hall _ Hin eq_refl). cbn [fst snd] in Hall.
        unfold Marginal.differ_at.
        destruct (Py.index string (- e0 - 1)) as [c0|]; [|discriminate].
        destruct (Py.index string (- e1 - 1)) as [c1|]; [|discriminate].
        injection Hall as ->. reflexivity.
Qed.

(** All the outcomes: what one key has got is the sum, in the order of
    the outcomes, of the probabilities of those that pass its test. *)
Lemma outcomes_add (self : layout) (k : node) (f : Py.str -> bool) :
  (forall string p probs probs',
      accumulate N self string p probs = Py.Ok probs' ->
      forall v', Dict.get node_eqb probs' k = Some v' ->
                 exists v, Dict.get node_eqb probs k = Some v /\
                           v' = if f string then Arith.add N v p else v) ->
  forall (stats : Dict.t Py.str (Arith.num N))
         (probs probs' : Dict.t node (Arith.num N)),
    Py.for_each stats
      (fun (entry : Py.str * Arith.num N) probs =>
         accumulate N self (fst entry) (snd entry) probs)
      probs = Py.Ok probs' ->
    forall v', Dict.get node_eqb probs' k = Some v' ->
      exists v, Dict.get node_eqb probs k = Some v /\
                v' = fold_left (Arith.add N)
                               (List.map snd
                                  (filter (fun entry : Py.str * Arith.num N =>
                                             f (fst entry)) stats))
                               v.
Proof.
  intros Hstep stats.
  induction stats as [|[string p] stats IH]; intros probs probs' Hrun v' Hk.
  - simpl in Hrun. injection Hrun as <-. exists v'. split; [exact Hk|].
    reflexivity.
  - cbn [Py.for_each fst snd] in Hrun.
    destruct (accumulate N self string p probs) as [probs1|e] eqn:E;
      [|discriminate].
    cbn [Py.bind] in Hrun.
    destruct (IH _ _ Hrun _ Hk) as [v1 [Hk1 Hv1]].
    destruct (Hstep _ _ _ _ E _ Hk1) as [v [Hk0 Hv]].
    exists v. split; [exact Hk0|].
    cbn [filter fst]. rewrite Hv1, Hv.
    destruct (f string); reflexivity.
Qed.

Lemma share_scaled (f : Py.str -> bool) (z : Z) (raw : Dict.t Py.str Z) :
  List.map snd (filter (fun entry : Py.str * Arith.num N => f (fst entry))
                       (scaled N z raw))
  = List.map (fun entry : Py.str * Z => Arith.quot N (snd entry) z)
             (filter (fun entry : Py.str * Z => f (fst entry)) raw).
Proof.
  unfold scaled. induction raw as [|[s c] raw IH]; [reflexivity|].
  cbn [List.map filter fst snd]. destruct (f s); cbn [List.map snd];
    now rewrite IH.
Qed.

Lemma zeros_keys (ks : list node) (acc : Dict.t node (Arith.num N)) :
  NoDup (Dict.keys acc ++ ks) ->
  Dict.keys (fold_left (fun probs n => Dict.set node_eqb probs n (Arith.zero N))
                       ks acc)
  = Dict.keys acc ++ ks.
Proof.
  revert acc. induction ks as [|n ks IH]; intros acc Hnd; simpl.
  - now rewrite app_nil_r.
  - assert (Hn : ~ In n (Dict.keys acc)).
    { apply NoDup_remove_2 in Hnd. intro H. apply Hnd. apply in_or_app.
      now left. }
    rewrite IH.
    + rewrite (set_new _ _ _ node_eqb_eq _ _ _ Hn).
      unfold Dict.keys. rewrite map_app, <- app_assoc. reflexivity.
    + rewrite (set_new _ _ _ node_eqb_eq _ _ _ Hn).
      unfold Dict.keys in *. rewrite map_app, <- app_assoc. exact Hnd.
Qed.

Lemma zeros_value (ks : list node) (acc : Dict.t node (Arith.num N)) :
  (forall k v, In (k, v) acc -> v = Arith.zero N) ->
  forall k v,
    In (k, v) (fold_left (fun probs n =>
                            Dict.set node_eqb probs n (Arith.zero N)) ks acc) ->
    v = Arith.zero N.
Proof.
  revert acc. induction ks as [|n ks IH]; intros acc Hacc k v; simpl.
  - apply Hacc.
  - apply IH. intros k0 v0 Hin.
    destruct (in_set _ _ _ node_eqb_eq _ _ _ _ _ Hin) as [H|[_ ->]];
      [eapply Hacc; eauto | reflexivity].
Qed.

Lemma normalized (raw : Dict.t Py.str Z)
      (stats : Dict.t Py.str (Arith.num N)) :
  NoDup (Dict.keys raw) ->
  normalize N raw = Py.Ok stats ->
  stats = scaled N (total raw) raw.
Proof.
  intros Hnd Hn. destruct raw as [|entry raw].
  - injection Hn as <-. reflexivity.
  - destruct (Z.eq_dec (total (entry :: raw)) 0) as [Hz|Hz].
    + rewrite normalize_zero in Hn; [discriminate | discriminate | exact Hz].
    + assert (Hfin : forall k c, In (k, c) (entry :: raw) ->
                       Arith.overflow N c (total (entry :: raw)) = false)
        by exact (normalize_finite N _ _ _ _ Hz Hn).
      rewrite (normalize_ok N _ Hz Hfin Hnd) in Hn. now injection Hn.
Qed.
End MarginalSums.

Section CalculateProbsResults.
Import Layout.
Variable N : Arith.t.

Lemma share_of_none (B : Type) (g : B -> Arith.num N) (l : list B)
      (v : Arith.num N) :
  fold_left (Arith.add N) (List.map g (filter (fun _ => false) l)) v = v.
Proof. induction l; simpl; auto. Qed.

Lemma zeros_get (ks : list node) (k : node) (v : Arith.num N) :
  Dict.get node_eqb
           (fold_left (fun probs n => Dict.set node_eqb probs n (Arith.zero N))
                      ks []) k
  = Some v -> v = Arith.zero N.
Proof.
  intro H. apply (get_in _ _ _ node_eqb_eq) in H.
  exact (zeros_value N ks [] (fun _ _ F => match F with end) _ _ H).
Qed.

Lemma for_each_ran (A S : Type) (body : A -> S -> Py.result S)
      (xs : list A) (s s' : S) :
  Py.for_each xs body s = Py.Ok s' ->
  forall a, In a xs -> exists s0 s1, body a s0 = Py.Ok s1.
Proof.
  revert s. induction xs as [|x xs IH]; intros s Hrun a Hin; [destruct Hin|].
  simpl in Hrun. destruct (body x s) as [s1|] eqn:E; [|discriminate].
  cbn [Py.bind] in Hrun. destruct Hin as [<-|Hin]; eauto.
Qed.

(** X17.  What [calculate_probs] computes, in whatever arithmetic (that
    of the floats of the code, or an exact one).  For a table of counts
    with one entry per outcome and a layout with one coupler per label, a
    map that [calculate_probs] returns holds, for an element [n] of the
    device ([0 <= n < num]), the sum, from 0 and in the order of the
    outcomes, of the quotients [count/Z] of the outcomes whose character
    [-n-1] is ['1']; for a coupler, the same sum over the outcomes that
    differ on its two elements; and the initial 0 for an element number of
    [pos] that is not below [num]. *)
Theorem calculate_probs_marginals
        (self : layout) (raw_stats : Dict.t Py.str Z)
        (probs : Dict.t node (Arith.num N)) :
  NoDup (Dict.keys raw_stats) ->
  NoDup (Dict.keys (pairs self)) ->
  calculate_probs N raw_stats self = Py.Ok probs ->
  (forall n v,
      Dict.get node_eqb probs (Qubit n) = Some v ->
      v = if ((0 <=? n)%Z && (n <? num self)%Z)%bool
          then Marginal.share N (Marginal.one_at n) raw_stats
          else Arith.zero N) /\
  (forall l e0 e1 v,
      In (l, (e0, e1)) (pairs self) ->
      Dict.get node_eqb probs (Coupler l) = Some v ->
      v = Marginal.share N (Marginal.differ_at e0 e1) raw_stats).
Proof.
  intros Hraw Hpairs Hrun. unfold calculate_probs in Hrun.
  destruct (normalize N raw_stats) as [stats|] eqn:En; [|discriminate].
  apply normalized in En; [|exact Hraw]. subst stats.
  cbn [Py.bind] in Hrun. split.
  - intros n v Hk.
    destruct (outcomes_add N self (Qubit n)
                (fun s => ((0 <=? n)%Z && (n <? num self)%Z
                           && Marginal.one_at n s)%bool)
                (fun string p pr pr' Hacc =>
                   proj1 (proj2 (proj2 (accumulate_adds N self string p pr pr'
                                                        Hacc)) Hpairs) n)
                _ _ _ Hrun _ Hk) as [v0 [Hk0 Hv]].
    apply zeros_get in Hk0. subst v0.
    rewrite Hv.
    pose proof (share_scaled N
                  (fun s => ((0 <=? n)%Z && (n <? num self)%Z
                             && Marginal.one_at n s)%bool)
                  (total raw_stats) raw_stats) as Hs.
    cbv beta in Hs. rewrite Hs. clear Hs.
    destruct ((0 <=? n)%Z && (n <? num self)%Z)%bool; cbn [andb].
    + reflexivity.
    + apply share_of_none.
  - intros l e0 e1 v Hin Hk.
    destruct (outcomes_add N self (Coupler l) (Marginal.differ_at e0 e1)
                (fun string p pr pr' Hacc v' =>
                   proj2 (proj2 (proj2 (accumulate_adds N self string p pr pr'
                                                        Hacc)) Hpairs)
                         l e0 e1 v' Hin)
                _ _ _ Hrun _ Hk) as [v0 [Hk0 Hv]].
    apply zeros_get in Hk0. subst v0.
    rewrite Hv.
    pose proof (share_scaled N (Marginal.differ_at e0 e1)
                             (total raw_stats) raw_stats) as Hs.
    cbv beta in Hs. rewrite Hs. reflexivity.
Qed.

(** X18.  The map that [calculate_probs] returns has the keys of [pos]
    (one per key of [pos], in the order of [pos]), nothing more and nothing
    less, whatever the counts. *)
Theorem calculate_probs_keys
        (self : layout) (raw_stats : Dict.t Py.str Z)
        (probs : Dict.t node (Arith.num N)) :
  NoDup (Dict.keys (pos self)) ->
  calculate_probs N raw_stats self = Py.Ok probs ->
  Dict.keys probs = Dict.keys (pos self).
Proof.
  intros Hnd Hrun. unfold calculate_probs in Hrun.
  destruct (normalize N raw_stats) as [stats|]; [|discriminate].
  cbn [Py.bind] in Hrun.
  pose proof (zeros_keys N (Dict.keys (pos self)) [] Hnd) as Hz.
  cbn [Dict.keys List.map app] in Hz. fold (Dict.keys (pos self)) in Hz.
  rewrite <- Hz.
  refine (for_each_invariant _ _
            (fun s => Dict.keys s =
                      Dict.keys (fold_left
                                   (fun probs n =>
                                      Dict.set node_eqb probs n (Arith.zero N))
                                   (Dict.keys (pos self)) []))
            _ _ _ _ _ eq_refl Hrun).
  intros entry s s' Hs Hacc.
  rewrite (proj1 (proj2 (accumulate_adds N _ _ _ _ _ Hacc))). exact Hs.
Qed.

(** X19.  An outcome string with fewer characters than the device has
    elements makes [calculate_probs] raise: the call returns no map. *)
Theorem short_outcome_raises
        (self : layout) (raw_stats : Dict.t Py.str Z)
        (string : Py.str) (count : Z) :
  NoDup (Dict.keys raw_stats) ->
  In (string, count) raw_stats ->
  (Z.of_nat (List.length string) < num self)%Z ->
  exists e, calculate_probs N raw_stats self = Py.Raise e.
Proof.
  intros Hraw Hin Hshort.
  destruct (calculate_probs N raw_stats self) as [probs|e] eqn:Hrun;
    [exfalso | eauto].
  unfold calculate_probs in Hrun.
  destruct (normalize N raw_stats) as [stats|] eqn:En; [|discriminate].
  apply normalized in En; [|exact Hraw]. subst stats.
  cbn [Py.bind] in Hrun.
  assert (Hs : In (string, Arith.quot N count (total raw_stats))
                  (scaled N (total raw_stats) raw_stats)).
  { unfold scaled. apply in_map_iff. exists (string, count). auto. }
  destruct (for_each_ran _ _ _ _ _ _ Hrun _ Hs) as [s0 [s1 Hacc]].
  cbn [fst snd] in Hacc.
  destruct (proj1 (accumulate_adds N _ _ _ _ _ Hacc) (num self - 1)%Z)
    as [c Hc]; [lia|].
  unfold Py.index in Hc.
  replace (- (num self - 1) - 1 <? 0)%Z with true in Hc
    by (symmetry; apply Z.ltb_lt; lia).
  replace (0 <=? - (num self - 1) - 1 + Z.of_nat (List.length string))%Z
    with false in Hc by (symmetry; apply Z.leb_gt; lia).
  discriminate.
Qed.

(** X20.  Counts that add up to zero: with no outcome at all
    [calculate_probs] returns a map of zeros, and with at least one outcome
    it raises [ZeroDivisionError]. *)
Theorem counts_adding_up_to_zero
        (self : layout) (raw_stats : Dict.t Py.str Z) :
  total raw_stats = 0%Z ->
  (raw_stats = [] /\
   exists probs,
     calculate_probs N raw_stats self = Py.Ok probs /\
     forall k v, In (k, v) probs -> v = Arith.zero N) \/
  (raw_stats <> [] /\
   calculate_probs N raw_stats self = Py.Raise Py.ZeroDivisionError).
Proof.
  intro Hz. destruct raw_stats as [|entry raw].
  - left. split; [reflexivity|]. eexists. split; [reflexivity|].
    apply zeros_value. intros k v [].
  - right. split; [discriminate|]. unfold calculate_probs.
    rewrite normalize_zero; [reflexivity | discriminate | exact Hz].
Qed.
End CalculateProbsResults.

(** The theorems above at the arithmetic of the code. *)
Section CalculateProbsFloats.
Import Layout.

Lemma calculate_probs_marginals_witness :
  exists probs,
    calculate_probs Arith.Binary64 Samples.four_shots Samples.grid_2x2
    = Py.Ok probs /\
    (forall n v,
        Dict.get node_eqb probs (Qubit n) = Some v ->
        v = if ((0 <=? n)%Z && (n <? num Samples.grid_2x2)%Z)%bool
            then Marginal.share Arith.Binary64 (Marginal.one_at n)
                                Samples.four_shots
            else Arith.zero Arith.Binary64) /\
    (forall l e0 e1 v,
        In (l, (e0, e1)) (pairs Samples.grid_2x2) ->
        Dict.get node_eqb probs (Coupler l) = Some v ->
        v = Marginal.share Arith.Binary64 (Marginal.differ_at e0 e1)
                           Samples.four_shots).
Proof.
  eexists. split; [vm_compute; reflexivity|].
  apply (calculate_probs_marginals Arith.Binary64
                                   Samples.grid_2x2 Samples.four_shots).
  - repeat constructor; simpl; intuition discriminate.
  - repeat constructor; simpl; intuition discriminate.
  - vm_compute. reflexivity.
Defined.

Lemma calculate_probs_keys_witness :
  exists probs,
    calculate_probs Arith.Binary64 Samples.four_shots Samples.grid_2x2
    = Py.Ok probs /\
    Dict.keys probs = Dict.keys (pos Samples.grid_2x2).
Proof.
  eexists. split; [vm_compute; reflexivity|].
  apply (calculate_probs_keys Arith.Binary64
                              Samples.grid_2x2 Samples.four_shots).
  - repeat constructor; simpl; intuition discriminate.
  - vm_compute. reflexivity.
Defined.

Lemma short_outcome_raises_witness :
  exists e,
    calculate_probs Arith.Binary64 [(Py.lit "011", 5%Z)] Samples.grid_2x2
    = Py.Raise e.
Proof.
  apply (short_outcome_raises Arith.Binary64 Samples.grid_2x2
                              [(Py.lit "011", 5%Z)] (Py.lit "011") 5%Z).
  - repeat constructor; simpl; intuition.
  - now left.
  - simpl. lia.
Defined.

Lemma counts_adding_up_to_zero_witness :
  ([(Py.lit "0000", 0%Z)] = [] /\
   exists probs,
     calculate_probs Arith.Binary64 [(Py.lit "0000", 0%Z)] Samples.grid_2x2
     = Py.Ok probs /\
     forall k v, In (k, v) probs -> v = Arith.zero Arith.Binary64) \/
  ([(Py.lit "0000", 0%Z)] <> [] /\
   calculate_probs Arith.Binary64 [(Py.lit "0000", 0%Z)] Samples.grid_2x2
   = Py.Raise Py.ZeroDivisionError).
Proof.
  apply (counts_adding_up_to_zero Arith.Binary64 Samples.grid_2x2
                                  [(Py.lit "0000", 0%Z)]).
  reflexivity.
Defined.
End CalculateProbsFloats.

(** ** emoticon_superposer: writing and reading characters *)

Section EmoticonCodes.
Import Emoticon.
Local Open Scope N_scope.

Lemma digits_app (s t : Py.str) (acc : N) :
  digits (s ++ t) acc =
  match digits s acc with
  | Some n => digits t n
  | None => None
  end.
Proof.
  revert acc. induction s as [|c s IH]; intro acc; simpl; [reflexivity|].
  destruct (Ascii.eqb c "0"); [apply IH|].
  destruct (Ascii.eqb c "1"); [apply IH | reflexivity].
Qed.

Lemma digits_bin_pos (p : positive) : digits (bin_pos p) 0 = Some (Npos p).
Proof.
  induction p as [q IH|q IH|]; simpl; [| |reflexivity];
    rewrite digits_app, IH; reflexivity.
Qed.

Lemma digits_bin (n : N) : digits (bin n) 0 = Some n.
Proof. destruct n as [|p]; [reflexivity | apply digits_bin_pos]. Qed.

Lemma digits_zeros (k : nat) (s : Py.str) :
  digits (repeat "0"%char k ++ s) 0 = digits s 0.
Proof. induction k as [|k IH]; simpl; [reflexivity | exact IH]. Qed.

Lemma digits_bound (s : Py.str) :
  forall acc n, digits s acc = Some n ->
                n < (acc + 1) * 2 ^ N.of_nat (List.length s).
Proof.
  induction s as [|c s IH]; intros acc n H.
  - simpl in H. injection H as <-. simpl. lia.
  - cbn [digits] in H. cbn [List.length].
    rewrite Nat2N.inj_succ, N.pow_succ_r'.
    destruct (Ascii.eqb c "0").
    + apply IH in H. nia.
    + destruct (Ascii.eqb c "1"); [|discriminate]. apply IH in H. nia.
Qed.

Lemma length_bin_pos (p : positive) :
  2 ^ N.of_nat (List.length (bin_pos p)) <= 2 * Npos p
  < 2 * 2 ^ N.of_nat (List.length (bin_pos p)).
Proof.
  induction p as [q IH|q IH|]; cbn [bin_pos]; [| |simpl; lia];
    rewrite length_app; cbn [List.length];
    rewrite Nat.add_1_r, Nat2N.inj_succ, N.pow_succ_r'; lia.
Qed.

Lemma length_bin (n : N) : (1 <= List.length (bin n))%nat.
Proof.
  destruct n as [|p]; [simpl; lia|]. cbn [bin].
  destruct p; cbn [bin_pos]; rewrite ?length_app; simpl; lia.
Qed.

Lemma length_bin_small (n : N) : n < 256 -> (List.length (bin n) <= 8)%nat.
Proof.
  intro H. destruct n as [|p]; [simpl; lia|]. cbn [bin].
  pose proof (length_bin_pos p) as [Hlo _].
  destruct (le_lt_dec (List.length (bin_pos p)) 8) as [Hle|Hgt]; [exact Hle|].
  exfalso.
  assert (Hpow : 2 ^ 9 <= 2 ^ N.of_nat (List.length (bin_pos p))).
  { apply N.pow_le_mono_r; lia. }
  change (2 ^ 9) with 512 in Hpow. lia.
Qed.

Lemma length_bin4char (c : N) : c < 256 -> List.length (bin4char c) = 8%nat.
Proof.
  intro H. unfold bin4char. rewrite length_app, repeat_length.
  pose proof (length_bin_small c H). lia.
Qed.

Lemma digits_bin4char (c : N) : digits (bin4char c) 0 = Some c.
Proof. unfold bin4char. rewrite digits_zeros. apply digits_bin. Qed.

Lemma int2_bin4char (c : N) : int2 (bin4char c) = Some (Py.Ok c).
Proof.
  unfold int2. rewrite digits_bin4char.
  destruct (bin4char c) eqn:E; [|reflexivity].
  exfalso. apply (f_equal (@List.length ascii)) in E.
  unfold bin4char in E. rewrite length_app in E.
  pose proof (length_bin c). simpl in E. lia.
Qed.

Lemma bin4emoticon_from (emoticon : text) (acc : Py.str) :
  fold_left (fun acc character => acc ++ bin4char character) emoticon acc
  = acc ++ flat_map bin4char emoticon.
Proof.
  revert acc. induction emoticon as [|c e IH]; intro acc; simpl.
  - now rewrite app_nil_r.
  - now rewrite IH, <- app_assoc.
Qed.

Lemma bin4emoticon_cons (c : N) (emoticon : text) :
  bin4emoticon (c :: emoticon) = bin4char c ++ bin4emoticon emoticon.
Proof.
  unfold bin4emoticon. now rewrite !bin4emoticon_from.
Qed.

Lemma firstn_exact (A : Type) (l r : list A) (n : nat) :
  List.length l = n -> firstn n (l ++ r) = l /\ skipn n (l ++ r) = r.
Proof.
  intros <-. split.
  - rewrite firstn_app, Nat.sub_diag, firstn_all. simpl. apply app_nil_r.
  - rewrite skipn_app, Nat.sub_diag, skipn_all. reflexivity.
Qed.

Lemma int2_bound (s : Py.str) (n : N) :
  int2 s = Some (Py.Ok n) -> n < 2 ^ N.of_nat (List.length s).
Proof.
  unfold int2. destruct s as [|c s]; [discriminate|].
  destruct (digits (c :: s) 0) as [m|] eqn:E; [|discriminate].
  intros [= <-]. apply digits_bound in E. lia.
Qed.

Lemma ascii_key_two (string : Py.str) (char : text) :
  ascii_key string = Some (Py.Ok char) ->
  exists c0 c1, char = [c0; c1] /\ c0 < 256 /\ c1 < 256.
Proof.
  assert (Hlen : forall s : Py.str,
             2 ^ N.of_nat (List.length (firstn 8 s)) <= 256).
  { intro s. change 256 with (2 ^ 8). apply N.pow_le_mono_r; [lia|].
    pose proof (firstn_le_length 8 s). lia. }
  unfold ascii_key.
  destruct (int2 (firstn 8 string)) as [[n0|]|] eqn:E0; try discriminate.
  cbn [pbind]. unfold chr at 1.
  destruct (n0 <? 1114112); cbn [pbind]; [|discriminate].
  destruct (int2 (firstn 8 (skipn 8 string))) as [[n1|]|] eqn:E1;
    try discriminate.
  cbn [pbind]. unfold chr.
  destruct (n1 <? 1114112); cbn [pbind]; [|discriminate].
  intros [= <-]. exists n0, n1. split; [reflexivity|].
  apply int2_bound in E0. apply int2_bound in E1.
  pose proof (Hlen string). pose proof (Hlen (skipn 8 string)). lia.
Qed.

Lemma ascii_key_read (c0 c1 : N) (rest : text) :
  c0 < 256 -> c1 < 256 ->
  ascii_key (bin4emoticon (c0 :: c1 :: rest)) = Some (Py.Ok [c0; c1]).
Proof.
  intros H0 H1. rewrite !bin4emoticon_cons. unfold ascii_key.
  destruct (firstn_exact _ (bin4char c0)
                         (bin4char c1 ++ bin4emoticon rest) 8
                         (length_bin4char c0 H0)) as [-> ->].
  destruct (firstn_exact _ (bin4char c1) (bin4emoticon rest) 8
                         (length_bin4char c1 H1)) as [-> _].
  rewrite !int2_bin4char. cbn [pbind]. unfold chr.
  replace (c0 <? 1114112) with true by (symmetry; apply N.ltb_lt; lia).
  cbn [pbind].
  replace (c1 <? 1114112) with true by (symmetry; apply N.ltb_lt; lia).
  reflexivity.
Qed.

(** X21.  Reading back what was written: the key that lines 242-246 write
    for an emoticon whose first two characters are below 256 is read by
    lines 264-265 as those two characters; so an emoticon of two such
    characters is read back as it is, and a longer one loses the rest. *)
Theorem emoticon_read_back (c0 c1 : N) (rest : text) :
  c0 < 256 -> c1 < 256 ->
  ascii_key (bin4emoticon (c0 :: c1 :: rest)) = Some (Py.Ok [c0; c1]).
Proof. exact (ascii_key_read c0 c1 rest). Qed.

Lemma emoticon_read_back_witness :
  ascii_key (bin4emoticon [59; 41]) = Some (Py.Ok [59; 41]).
Proof. apply (emoticon_read_back 59 41 []); lia. Defined.

(** X22.  Whatever key is read, the emoticon read from it has two
    characters, both below 256.  An emoticon with a character from 256 on
    among its first two is therefore never read back from the key written
    for it. *)
Theorem wide_character_lost (c0 c1 : N) (rest : text) :
  256 <= c0 \/ 256 <= c1 ->
  (forall string char,
      ascii_key string = Some (Py.Ok char) ->
      exists d0 d1, char = [d0; d1] /\ d0 < 256 /\ d1 < 256) /\
  ascii_key (bin4emoticon (c0 :: c1 :: rest))
  <> Some (Py.Ok (c0 :: c1 :: rest)).
Proof.
  intro Hwide. split; [exact ascii_key_two|].
  intro H. apply ascii_key_two in H.
  destruct H as [d0 [d1 [[= -> -> _] [H0 H1]]]]. lia.
Qed.

Lemma wide_character_lost_witness :
  ascii_key (bin4emoticon [9786; 41]) <> Some (Py.Ok [9786; 41]).
Proof.
  apply (wide_character_lost 9786 41 []). left. lia.
Defined.

End EmoticonCodes.

(** ** emoticon_superposer: the dicts returned *)

Section EmoticonResults.
Import Emoticon.

Lemma text_eqb_eq (s t : text) : text_eqb s t = true <-> s = t.
Proof.
  revert t. induction s as [|c s IH]; intros [|d t]; simpl;
    try (split; [discriminate | discriminate]); [tauto|].
  rewrite andb_true_iff, N.eqb_eq, IH. split.
  - intros [-> ->]. reflexivity.
  - intros [= -> ->]. auto.
Qed.

Lemma pfor_each_invariant (A S : Type) (P : S -> Prop)
      (body : A -> S -> partial S) (xs : list A) :
  (forall a s s', P s -> body a s = Some (Py.Ok s') -> P s') ->
  forall s s', P s -> pfor_each xs body s = Some (Py.Ok s') -> P s'.
Proof.
  intro Hbody. induction xs as [|a xs IH]; intros s s' Hs Hrun; simpl in Hrun.
  - now injection Hrun as <-.
  - destruct (body a s) as [[s1|e]|] eqn:E; try discriminate.
    cbn [pbind] in Hrun. eapply IH; [|exact Hrun]. eapply Hbody; eauto.
Qed.

Lemma bitstring_app (s t : Py.str) :
  Superposer.bitstring (s ++ t) =
  (Superposer.bitstring s && Superposer.bitstring t)%bool.
Proof. unfold Superposer.bitstring. apply forallb_app. Qed.

Lemma bitstring_bin4char (c : N) : Superposer.bitstring (bin4char c) = true.
Proof.
  unfold bin4char. rewrite bitstring_app. apply andb_true_iff. split.
  - generalize (8 - List.length (bin c))%nat. intro k.
    induction k as [|k IH]; [reflexivity | exact IH].
  - destruct c as [|p]; [reflexivity|]. cbn [bin].
    induction p as [q IH|q IH|]; cbn [bin_pos]; [| |reflexivity];
      rewrite bitstring_app, IH; reflexivity.
Qed.

Lemma pair_written (c0 c1 : N) :
  (c0 < 256)%N -> (c1 < 256)%N ->
  List.length (bin4emoticon [c0; c1]) = 16%nat /\
  Superposer.bitstring (bin4emoticon [c0; c1]) = true.
Proof.
  intros H0 H1. rewrite !bin4emoticon_cons. split.
  - rewrite !length_app, !length_bin4char by assumption. reflexivity.
  - rewrite !bitstring_app, !bitstring_bin4char. reflexivity.
Qed.

Lemma lists_of_one_mapping
      (get_counts : nat -> Superposer.circuit -> Z -> Dict.t Py.str Q)
      (shots : Z) (strings : list Py.str) (qc : Superposer.circuit)
      (stats : Dict.t Py.str Q) :
  Superposer.program strings = Py.Ok qc ->
  Superposer.corrected (get_counts 0%nat qc shots) shots = Py.Ok stats ->
  Superposer.bitstring_superposer get_counts (Superposer.Lists [strings]) shots
  = Py.Ok (Superposer.Mapping stats).
Proof.
  intros Hp Hc. unfold Superposer.bitstring_superposer.
  cbn [Py.bind Py.for_each]. rewrite Hp.
  cbn [Py.bind Py.for_each app List.length seq combine List.map fst snd].
  rewrite Hc. reflexivity.
Qed.

(** X23.  Every key of every dict that [emoticon_superposer] returns,
    on any backend, is a string of two characters below 256. *)
Theorem returned_emoticons
        (get_counts : nat -> Superposer.circuit -> Z -> Dict.t Py.str Q)
        (emoticons : input) (shots : Z) (out : output) :
  emoticon_superposer get_counts emoticons shots = Some (Py.Ok out) ->
  forall ascii_stats char,
    In ascii_stats (dicts out) ->
    In char (Dict.keys ascii_stats) ->
    exists c0 c1, char = [c0; c1] /\ (c0 < 256)%N /\ (c1 < 256)%N.
Proof.
  intro Hrun. unfold emoticon_superposer in Hrun.
  match type of Hrun with
  | pbind (Some ?m) _ = _ => destruct m as [emoticons_list|]; [|discriminate]
  end.
  cbn [pbind] in Hrun.
  destruct (Superposer.bitstring_superposer _ _ _) as [stats|];
    [|discriminate].
  destruct (pfor_each _ _ _) as [[ascii_stats_list|]|] eqn:Eloop;
    try discriminate.
  cbn [pbind] in Hrun.
  assert (Hout : dicts out = ascii_stats_list).
  { injection Hrun as <-.
    destruct ascii_stats_list as [|a [|a' l]]; reflexivity. }
  rewrite Hout. clear Hrun Hout.
  assert (Hall : forall d, In d ascii_stats_list ->
                 forall char, In char (Dict.keys d) ->
                 exists c0 c1, char = [c0; c1] /\ (c0 < 256)%N /\ (c1 < 256)%N).
  { refine (pfor_each_invariant _ _
              (fun l => forall d, In d l ->
                 forall char, In char (Dict.keys d) ->
                 exists c0 c1, char = [c0; c1] /\ (c0 < 256)%N /\ (c1 < 256)%N)
              _ _ _ _ _ _ Eloop); [|intros d []].
    intros st l l' Hl Hbody.
    destruct (ascii_stats st) as [[d0|]|] eqn:Ed; try discriminate.
    cbn [pbind] in Hbody. injection Hbody as <-.
    intros d Hd. apply in_app_or in Hd.
    destruct Hd as [Hd|[<-|[]]]; [now apply Hl|].
    unfold ascii_stats in Ed.
    refine (pfor_each_invariant _ _
              (fun d => forall char, In char (Dict.keys d) ->
                 exists c0 c1, char = [c0; c1] /\ (c0 < 256)%N /\ (c1 < 256)%N)
              _ _ _ _ _ _ Ed); [|intros char []].
    intros [string prob] d d' Hd Hbody.
    destruct (ascii_key string) as [[k|]|] eqn:Ek; try discriminate.
    cbn [pbind] in Hbody. injection Hbody as <-.
    intros char Hin. rewrite keys_set in Hin.
    destruct (Dict.mem text_eqb d k); [now apply Hd|].
    apply in_app_or in Hin. destruct Hin as [Hin|[<-|[]]]; [now apply Hd|].
    exact (ascii_key_two _ _ Ek). }
  intros d char Hd. now apply Hall.
Qed.

Lemma returned_emoticons_witness :
  exists out,
    emoticon_superposer
      (fun _ _ _ => [(Py.lit "0000010010010000", 7%Q)])
      (Strings [[59%N; 41%N]; [56%N; 41%N]]) 7
    = Some (Py.Ok out) /\
    forall ascii_stats char,
      In ascii_stats (dicts out) ->
      In char (Dict.keys ascii_stats) ->
      exists c0 c1, char = [c0; c1] /\ (c0 < 256)%N /\ (c1 < 256)%N.
Proof.
  eexists. split; [vm_compute; reflexivity|].
  apply (returned_emoticons
           (fun _ _ _ => [(Py.lit "0000010010010000", 7%Q)])
           (Strings [[59%N; 41%N]; [56%N; 41%N]]) 7).
  vm_compute. reflexivity.
Defined.

(** X24.  On the noiseless backend, [emoticon_superposer] with a list of
    two different emoticons of two characters below 256 each returns one
    dict with exactly those two emoticons as keys, in the order given, each
    with the fraction one half. *)
Theorem superposed_emoticons (c0 c1 d0 d1 : N) (shots : Z) :
  (c0 < 256)%N -> (c1 < 256)%N -> (d0 < 256)%N -> (d1 < 256)%N ->
  [c0; c1] <> [d0; d1] ->
  (0 < shots)%Z ->
  exists p,
    p == 1 # 2 /\
    emoticon_superposer Superposer.noiseless
                        (Strings [[c0; c1]; [d0; d1]]) shots
    = Some (Py.Ok (Mapping [([c0; c1], p); ([d0; d1], p)])).
Proof.
  intros Hc0 Hc1 Hd0 Hd1 Hne Hshots.
  assert (Hs0 : shots <> 0%Z) by lia.
  pose proof (ascii_key_read c0 c1 [] Hc0 Hc1) as Ka.
  pose proof (ascii_key_read d0 d1 [] Hd0 Hd1) as Kb.
  destruct (pair_written c0 c1 Hc0 Hc1) as [La Ba].
  destruct (pair_written d0 d1 Hd0 Hd1) as [Lb Bb].
  unfold emoticon_superposer.
  cbn [pbind fold_left app].
  revert Ka Kb La Ba Lb Bb.
  generalize (bin4emoticon [c0; c1]) (bin4emoticon [d0; d1]).
  intros a b Ka Kb La Ba Lb Bb.
  assert (Hab : a <> b) by (intros ->; congruence).
  destruct (run_pair a b (eq_trans Lb (eq_sym La)) Ba Bb Hab)
    as [qc [Hqc Hrun]]; [rewrite La; discriminate|].
  destruct (two_outcomes 0 qc _ _ shots Hrun (bits_differ a b Ba Bb Hab) Hs0)
    as [p [Hp Hc]].
  rewrite (chars_of_bits a Ba), (chars_of_bits b Bb) in Hc.
  exists p. split; [exact Hp|].
  rewrite (lists_of_one_mapping _ _ _ _ _ Hqc Hc).
  cbn [pbind pfor_each]. unfold ascii_stats. cbn [pfor_each].
  rewrite Ka. cbn [pbind Dict.set]. rewrite Kb. cbn [pbind Dict.set].
  replace (text_eqb [c0; c1] [d0; d1]) with false; [reflexivity|].
  symmetry. destruct (text_eqb [c0; c1] [d0; d1]) eqn:E; [|reflexivity].
  apply text_eqb_eq in E. contradiction.
Qed.

Lemma superposed_emoticons_witness :
  exists p,
    p == 1 # 2 /\
    emoticon_superposer Superposer.noiseless
                        (Strings [[59%N; 41%N]; [56%N; 41%N]]) 1024
    = Some (Py.Ok (Mapping [([59%N; 41%N], p); ([56%N; 41%N], p)])).
Proof.
  apply (superposed_emoticons 59 41 56 41 1024); try lia. discriminate.
Defined.

End EmoticonResults.

(** ** bitstring_superposer: strings of different lengths *)

Section ShortStrings.
Import Superposer.

Lemma item_raises (A : Type) (l : list A) (i : nat) (e : Py.exn) :
  item l i = Py.Raise e -> e = Py.IndexError.
Proof.
  unfold item. destruct (nth_error l i); [discriminate | congruence].
Qed.

Lemma item_short (A : Type) (l : list A) (i : nat) :
  (List.length l <= i)%nat -> item l i = Py.Raise Py.IndexError.
Proof.
  intro H. unfold item.
  destruct (nth_error l i) eqn:E; [|reflexivity].
  assert (nth_error l i <> None) by congruence.
  apply nth_error_Some in H0. lia.
Qed.

Lemma compare_fails (a b : Py.str) (more : list Py.str) (l : list nat) :
  (exists i, In i l /\ ((List.length a <= i)%nat \/ (List.length b <= i)%nat)) ->
  forall st,
    Py.for_each l (compare_bit (a :: b :: more)) st = Py.Raise Py.IndexError.
Proof.
  induction l as [|i0 l IH]; intros [i [Hin Hi]] st; [destruct Hin|].
  cbn [Py.for_each]. destruct st as [qc diff].
  unfold compare_bit at 1. cbn [item nth_error Py.bind].
  destruct (item a i0) as [c0|e0] eqn:E0.
  - cbn [Py.bind]. destruct (item b i0) as [c1|e1] eqn:E1.
    + cbn [Py.bind]. destruct Hin as [->|Hin].
      * exfalso. destruct Hi as [Hi|Hi];
          [rewrite (item_short _ a i Hi) in E0
          |rewrite (item_short _ b i Hi) in E1]; discriminate.
      * apply IH. eauto.
    + cbn [Py.bind]. now rewrite (item_raises _ _ _ _ E1).
  - cbn [Py.bind]. now rewrite (item_raises _ _ _ _ E0).
Qed.

(** X25.  Unless as many strings are given as there are bit strings of
    the longest length, the first two strings must both have that length:
    where one of them is shorter, building the circuit raises
    [IndexError], and so does [bitstring_superposer] on any backend. *)
Theorem short_strings_raise
        (get_counts : nat -> circuit -> Z -> Dict.t Py.str Q)
        (a b : Py.str) (more : list Py.str) (shots : Z) :
  Z.of_nat (List.length (a :: b :: more))
  <> (2 ^ Z.of_nat (longest (a :: b :: more)))%Z ->
  (List.length a < longest (a :: b :: more))%nat \/
  (List.length b < longest (a :: b :: more))%nat ->
  program (a :: b :: more) = Py.Raise Py.IndexError /\
  bitstring_superposer get_counts (Strings (a :: b :: more)) shots
  = Py.Raise Py.IndexError.
Proof.
  intros Hpow Hshort.
  assert (Hp : program (a :: b :: more) = Py.Raise Py.IndexError).
  { unfold program.
    destruct (Nat.eqb_spec (longest (a :: b :: more)) 0) as [E0|_]; [lia|].
    apply Z.eqb_neq in Hpow. rewrite Hpow.
    rewrite compare_fails; [reflexivity|].
    destruct Hshort as [H|H].
    - exists (List.length a). split; [apply in_seq; lia | left; lia].
    - exists (List.length b). split; [apply in_seq; lia | right; lia]. }
  split; [exact Hp|].
  unfold bitstring_superposer. cbn [Py.bind Py.for_each].
  rewrite Hp. reflexivity.
Qed.

Lemma short_strings_raise_witness :
  program [Py.lit "101"; Py.lit "10"; Py.lit "0"] = Py.Raise Py.IndexError /\
  bitstring_superposer (fun _ _ _ => [])
                       (Strings [Py.lit "101"; Py.lit "10"; Py.lit "0"]) 1024
  = Py.Raise Py.IndexError.
Proof.
  apply (short_strings_raise (fun _ _ _ => [])
                             (Py.lit "101") (Py.lit "10") [Py.lit "0"] 1024).
  - vm_compute. discriminate.
  - right. vm_compute. lia.
Defined.

End ShortStrings.

(** ** walker: the coupling that the constructor builds *)

Section WalkerCoupling.
Import Walker.
Local Open Scope Z_scope.

Lemma append_counts (c c' : Dict.t Z (list Z)) (a b : Z) :
  append_to c a b = Py.Ok c' ->
  Dict.keys c' = Dict.keys c /\
  In a (Dict.keys c) /\
  forall n m,
    count_occ Z.eq_dec (neighbours c' n) m =
    (count_occ Z.eq_dec (neighbours c n) m
     + Nat.b2n (Z.eqb n a && Z.eqb m b))%nat.
Proof.
  unfold append_to, Dict.item.
  destruct (Dict.get Z.eqb c a) as [l|] eqn:E; [|discriminate].
  cbn [Py.bind]. intros [= <-]. split; [|split].
  - rewrite (keys_set _ _ Z.eqb). unfold Dict.mem. now rewrite E.
  - apply (get_in _ _ _ Z.eqb_eq) in E. unfold Dict.keys.
    change a with (fst (a, l)). now apply in_map.
  - intros n m. unfold neighbours.
    destruct (Z.eqb_spec n a) as [->|Hne].
    + rewrite (get_set_same _ _ _ Z.eqb_eq), E, count_occ_app.
      cbn [andb count_occ].
      destruct (Z.eq_dec b m) as [->|Hbm].
      * now rewrite Z.eqb_refl.
      * destruct (Z.eqb_spec m b); [congruence | reflexivity].
    + rewrite (get_set_other _ _ _ Z.eqb_eq) by congruence.
      cbn [andb Nat.b2n]. lia.
Qed.

Lemma append_raises (c : Dict.t Z (list Z)) (a b : Z) (e : Py.exn) :
  append_to c a b = Py.Raise e -> e = Py.KeyError /\ ~ In a (Dict.keys c).
Proof.
  unfold append_to, Dict.item.
  destruct (Dict.get Z.eqb c a) as [l|] eqn:E; [discriminate|].
  cbn [Py.bind]. intros [= <-]. split; [reflexivity|].
  now apply (get_none _ _ _ Z.eqb_eq).
Qed.

Lemma link_counts (c c' : Dict.t Z (list Z)) (a b : Z) :
  link (a, b) c = Py.Ok c' ->
  Dict.keys c' = Dict.keys c /\
  In a (Dict.keys c) /\ In b (Dict.keys c) /\
  forall n m,
    count_occ Z.eq_dec (neighbours c' n) m =
    (count_occ Z.eq_dec (neighbours c n) m
     + Nat.b2n (Z.eqb n a && Z.eqb m b) + Nat.b2n (Z.eqb n b && Z.eqb m a))%nat.
Proof.
  unfold link. destruct (append_to c a b) as [c1|] eqn:E1; [|discriminate].
  cbn [Py.bind]. intro E2.
  destruct (append_counts _ _ _ _ E1) as [K1 [I1 C1]].
  destruct (append_counts _ _ _ _ E2) as [K2 [I2 C2]].
  split; [congruence|]. split; [exact I1|]. split; [now rewrite <- K1|].
  intros n m. now rewrite C2, C1.
Qed.

Lemma link_raises (c : Dict.t Z (list Z)) (a b : Z) (e : Py.exn) :
  link (a, b) c = Py.Raise e -> e = Py.KeyError.
Proof.
  unfold link. destruct (append_to c a b) as [c1|e1] eqn:E1.
  - cbn [Py.bind]. intro E2. now apply append_raises in E2.
  - cbn [Py.bind]. intros [= <-]. now apply append_raises in E1.
Qed.

Lemma links_counts (prs : list (Z * Z)) :
  forall c c',
    Py.for_each prs link c = Py.Ok c' ->
    Dict.keys c' = Dict.keys c /\
    (forall a b, In (a, b) prs ->
                 In a (Dict.keys c) /\ In b (Dict.keys c)) /\
    forall n m,
      count_occ Z.eq_dec (neighbours c' n) m =
      (count_occ Z.eq_dec (neighbours c n) m
       + entries prs n m + entries prs m n)%nat.
Proof.
  induction prs as [|[a b] prs IH]; intros c c' Hrun.
  - simpl in Hrun. injection Hrun as <-. split; [reflexivity|].
    split; [intros a b []|]. intros n m. unfold entries. simpl. lia.
  - cbn [Py.for_each] in Hrun.
    destruct (link (a, b) c) as [c1|] eqn:E; [|discriminate].
    cbn [Py.bind] in Hrun.
    destruct (link_counts _ _ _ _ E) as [K1 [Ia [Ib C1]]].
    destruct (IH _ _ Hrun) as [K2 [I2 C2]].
    split; [congruence|]. split.
    + intros a0 b0 [[= <- <-]|Hin]; [auto|].
      rewrite <- K1. now apply I2.
    + intros n m. rewrite C2, C1. unfold entries. cbn [filter fst snd].
      rewrite (Z.eqb_sym a n), (Z.eqb_sym b m), (Z.eqb_sym a m),
        (Z.eqb_sym b n).
      destruct ((n =? a) && (m =? b))%bool;
        destruct ((m =? a) && (n =? b))%bool eqn:E2;
        rewrite (andb_comm (n =? b) (m =? a)), E2;
        cbn [List.length Nat.b2n]; lia.
Qed.

Lemma links_raise (prs : list (Z * Z)) :
  forall c,
    (exists a b, In (a, b) prs /\
                 (~ In a (Dict.keys c) \/ ~ In b (Dict.keys c))) ->
    Py.for_each prs link c = Py.Raise Py.KeyError.
Proof.
  induction prs as [|[a b] prs IH]; intros c [a0 [b0 [Hin Hout]]];
    [destruct Hin|].
  cbn [Py.for_each].
  destruct (link (a, b) c) as [c1|e] eqn:E.
  - cbn [Py.bind].
    destruct (link_counts _ _ _ _ E) as [K1 [Ia [Ib _]]].
    destruct Hin as [[= -> ->]|Hin]; [tauto|].
    apply IH. exists a0, b0. rewrite K1. auto.
  - cbn [Py.bind]. now rewrite (link_raises _ _ _ _ E).
Qed.

Lemma links_ok (prs : list (Z * Z)) :
  forall c,
    (forall a b, In (a, b) prs ->
                 In a (Dict.keys c) /\ In b (Dict.keys c)) ->
    exists c', Py.for_each prs link c = Py.Ok c'.
Proof.
  induction prs as [|[a b] prs IH]; intros c Hall; [simpl; eauto|].
  cbn [Py.for_each].
  destruct (link (a, b) c) as [c1|e] eqn:E.
  - cbn [Py.bind]. apply IH.
    destruct (link_counts _ _ _ _ E) as [K1 _]. rewrite K1.
    intros a0 b0 Hin. apply Hall. now right.
  - exfalso. destruct (Hall a b (or_introl eq_refl)) as [Ia Ib].
    unfold link in E.
    destruct (append_to c a b) as [c1|e1] eqn:E1.
    + cbn [Py.bind] in E.
      destruct (append_counts _ _ _ _ E1) as [K1 _].
      apply append_raises in E. rewrite K1 in E. tauto.
    + apply append_raises in E1. tauto.
Qed.

Lemma no_coupling_from (ks : list Z) (acc : Dict.t Z (list Z)) :
  NoDup (Dict.keys acc ++ ks) ->
  (forall k l, In (k, l) acc -> l = []) ->
  Dict.keys (fold_left (fun coupling n => Dict.set Z.eqb coupling n []) ks acc)
  = Dict.keys acc ++ ks /\
  forall k l,
    In (k, l) (fold_left (fun coupling n => Dict.set Z.eqb coupling n [])
                         ks acc) -> l = [].
Proof.
  revert acc. induction ks as [|n ks IH]; intros acc Hnd Hacc; simpl.
  - rewrite app_nil_r. auto.
  - assert (Hn : ~ In n (Dict.keys acc)).
    { apply NoDup_remove_2 in Hnd. intro H. apply Hnd. apply in_or_app.
      now left. }
    rewrite (set_new _ _ _ Z.eqb_eq _ _ _ Hn).
    destruct (IH (acc ++ [(n, [])])) as [K E].
    + unfold Dict.keys in *. rewrite map_app, <- app_assoc. exact Hnd.
    + intros k l Hin. apply in_app_or in Hin.
      destruct Hin as [Hin|[[= _ <-]|[]]]; [eauto | reflexivity].
    + split; [|exact E]. rewrite K. unfold Dict.keys.
      rewrite map_app, <- app_assoc. reflexivity.
Qed.

Lemma no_coupling_keys (num : Z) :
  Dict.keys (no_coupling num) = Py.range num.
Proof.
  unfold no_coupling.
  apply (no_coupling_from (Py.range num) []);
    [apply range_nodup | intros k l []].
Qed.

Lemma no_coupling_empty (num n : Z) : neighbours (no_coupling num) n = [].
Proof.
  unfold neighbours.
  destruct (Dict.get Z.eqb (no_coupling num) n) as [l|] eqn:E;
    [|reflexivity].
  apply (get_in _ _ _ Z.eqb_eq) in E.
  exact (proj2 (no_coupling_from (Py.range num) [] (range_nodup num)
                                 (fun _ _ F => match F with end)) _ _ E).
Qed.

(** The grid branch links the couplers of the grid in the order of the
    loops. *)
Lemma init_coupling_grid
      (get_backend : Py.str -> Layout.configuration)
      (dims : list Z) (Lx Ly : Z) :
  Py.index dims 0 = Py.Ok Lx -> Py.index dims 1 = Py.Ok Ly ->
  init_coupling get_backend (Grid dims) =
  Py.bind (Py.for_each (Grid.couplers Lx Ly) link (no_coupling (Lx * Ly)))
          (fun coupling => Py.Ok (Lx * Ly, coupling)).
Proof.
  intros H0 H1. unfold init_coupling. rewrite H0, H1.
  cbn [Py.bind].
  rewrite (for_each_nested _ _ _ _
             (fun x y => (x + y * Ly, x + y * Ly + 1)) link).
  fold (Grid.horizontal Lx Ly).
  unfold Grid.couplers. rewrite for_each_app.
  destruct (Py.for_each (Grid.horizontal Lx Ly) link _) as [c1|e];
    cbn [Py.bind]; [|reflexivity].
  rewrite (for_each_nested _ _ _ _
             (fun x y => (x + y * Ly, x + y * Ly + Ly)) link).
  reflexivity.
Qed.

(** The device branch links every entry of the coupling map in both
    directions. *)
Lemma init_coupling_name
      (get_backend : Py.str -> Layout.configuration) (name : Py.str) :
  init_coupling get_backend (Name name) =
  Py.bind (Py.for_each
             (flat_map (fun pair : Z * Z =>
                          [(fst pair, snd pair); (snd pair, fst pair)])
                       (Layout.coupling_map (get_backend name)))
             link (no_coupling (Layout.n_qubits (get_backend name))))
          (fun coupling =>
             Py.Ok (Layout.n_qubits (get_backend name), coupling)).
Proof.
  unfold init_coupling.
  rewrite (for_each_nested _ _ _ _
             (fun (pair : Z * Z) j =>
                (pair_at pair j, pair_at pair ((j + 1) mod 2))) link).
  reflexivity.
Qed.

Lemma entries_both (prs : list (Z * Z)) (n m : Z) :
  entries (flat_map (fun pair : Z * Z =>
                       [(fst pair, snd pair); (snd pair, fst pair)]) prs) n m
  = (entries prs n m + entries prs m n)%nat.
Proof.
  unfold entries. induction prs as [|[a b] prs IH]; [reflexivity|].
  cbn [flat_map app filter fst snd].
  destruct ((a =? n) && (b =? m))%bool;
    destruct ((b =? n) && (a =? m))%bool eqn:E;
    rewrite (andb_comm (a =? m) (b =? n)), E;
    cbn [List.length]; rewrite IH; lia.
Qed.
End WalkerCoupling.

Section WalkerResults.
Import Walker.
Local Open Scope Z_scope.

Lemma init_coupling_links
      (get_backend : Py.str -> Layout.configuration) (dev : device)
      (num : Z) (coupling : Dict.t Z (list Z)) :
  init_coupling get_backend dev = Py.Ok (num, coupling) ->
  exists prs, Py.for_each prs link (no_coupling num) = Py.Ok coupling.
Proof.
  destruct dev as [name|dims]; intro H.
  - rewrite init_coupling_name in H.
    destruct (Py.for_each _ link _) as [c|] eqn:E; [|discriminate].
    cbn [Py.bind] in H. injection H as <- <-. eauto.
  - destruct (Py.index dims 0) as [Lx|] eqn:E0;
      [|unfold init_coupling in H; rewrite E0 in H; discriminate].
    destruct (Py.index dims 1) as [Ly|] eqn:E1;
      [|unfold init_coupling in H; rewrite E0, E1 in H; discriminate].
    rewrite (init_coupling_grid _ _ _ _ E0 E1) in H.
    destruct (Py.for_each _ link _) as [c|] eqn:E; [|discriminate].
    cbn [Py.bind] in H. injection H as <- <-. eauto.
Qed.

Lemma forallb_fails (A : Type) (f : A -> bool) (l : list A) :
  forallb f l = false -> exists a, In a l /\ f a = false.
Proof.
  induction l as [|a l IH]; simpl; [discriminate|].
  destruct (f a) eqn:E; simpl.
  - intro H. destruct (IH H) as [a0 [Hin Ha]]. eauto.
  - eauto.
Qed.

(** X26.  [walker(length, [Lx, Ly])] on a grid with at least one row and
    one column: with fewer columns than rows ([Lx < Ly]) the constructor
    raises [KeyError] while it builds [coupling]; otherwise [coupling] is
    built, with the keys 0, ..., [Lx*Ly - 1]. *)
Theorem walker_grid_coupling
        (get_backend : Py.str -> Layout.configuration) (Lx Ly : Z) :
  1 <= Lx -> 1 <= Ly ->
  if Lx <? Ly
  then init_coupling get_backend (Grid [Lx; Ly]) = Py.Raise Py.KeyError
  else exists coupling,
      init_coupling get_backend (Grid [Lx; Ly]) = Py.Ok (Lx * Ly, coupling) /\
      Dict.keys coupling = Py.range (Lx * Ly).
Proof.
  intros Hx Hy.
  rewrite (init_coupling_grid get_backend [Lx; Ly] Lx Ly eq_refl eq_refl).
  destruct (Z.ltb_spec Lx Ly) as [Hlt|Hle].
  - rewrite links_raise; [reflexivity|].
    exists (Lx - 1 + (Ly - 2) * Ly), (Lx - 1 + (Ly - 2) * Ly + Ly). split.
    + unfold Grid.couplers, Grid.vertical. apply in_or_app. right.
      apply in_flat_map. exists (Lx - 1). split; [apply in_range; lia|].
      apply in_map_iff. exists (Ly - 2). split; [reflexivity|].
      apply in_range. lia.
    + right. rewrite no_coupling_keys, in_range. nia.
  - destruct (links_ok (Grid.couplers Lx Ly) (no_coupling (Lx * Ly)))
      as [c Hc].
    + intros a b Hin. rewrite no_coupling_keys, !in_range.
      destruct (in_couplers _ _ _ _ Hin)
        as [x [y [-> [[Hx' [Hy' ->]]|[Hx' [Hy' ->]]]]]]; nia.
    + exists c. rewrite Hc. split; [reflexivity|].
      rewrite (proj1 (links_counts _ _ _ Hc)). apply no_coupling_keys.
Qed.

Lemma walker_grid_coupling_witness :
  init_coupling (fun _ => {| Layout.n_qubits := 0; Layout.coupling_map := [] |})
                (Grid [2; 3])
  = Py.Raise Py.KeyError.
Proof.
  apply (walker_grid_coupling
           (fun _ => {| Layout.n_qubits := 0; Layout.coupling_map := [] |})
           2 3); lia.
Defined.

(** X27.  In the coupling that the constructor builds, whatever the
    device, [m] is listed among the neighbours of [n] as often as [n]
    among those of [m]; so [m] is a neighbour of [n] exactly when [n] is
    one of [m]. *)
Theorem coupling_symmetric
        (get_backend : Py.str -> Layout.configuration) (dev : device)
        (num : Z) (coupling : Dict.t Z (list Z)) (n m : Z) :
  init_coupling get_backend dev = Py.Ok (num, coupling) ->
  count_occ Z.eq_dec (neighbours coupling n) m =
  count_occ Z.eq_dec (neighbours coupling m) n /\
  (In m (neighbours coupling n) <-> In n (neighbours coupling m)).
Proof.
  intro H. destruct (init_coupling_links _ _ _ _ H) as [prs Hprs].
  destruct (links_counts _ _ _ Hprs) as [_ [_ Hc]].
  assert (Hsym : count_occ Z.eq_dec (neighbours coupling n) m =
                 count_occ Z.eq_dec (neighbours coupling m) n).
  { rewrite !Hc, !no_coupling_empty. simpl. lia. }
  split; [exact Hsym|].
  rewrite (count_occ_In Z.eq_dec (neighbours coupling n) m).
  rewrite (count_occ_In Z.eq_dec (neighbours coupling m) n).
  rewrite Hsym. tauto.
Qed.

Lemma coupling_symmetric_witness :
  exists coupling,
    init_coupling
      (fun _ => {| Layout.n_qubits := 3;
                   Layout.coupling_map := [(0, 1); (2, 1)] |})
      (Name (Py.lit "ibmqx2")) = Py.Ok (3, coupling) /\
    count_occ Z.eq_dec (neighbours coupling 1) 2 =
    count_occ Z.eq_dec (neighbours coupling 2) 1 /\
    (In 2 (neighbours coupling 1) <-> In 1 (neighbours coupling 2)).
Proof.
  eexists. split; [vm_compute; reflexivity|].
  apply (coupling_symmetric
           (fun _ => {| Layout.n_qubits := 3;
                        Layout.coupling_map := [(0, 1); (2, 1)] |})
           (Name (Py.lit "ibmqx2")) 3).
  vm_compute. reflexivity.
Defined.

(** X28.  [walker(length, name)] for a device given by name.  Where the
    coupling map names an element that is not in [range(n_qubits)] the
    constructor raises [KeyError].  Otherwise [coupling] has the keys
    0, ..., [n_qubits - 1], and it lists [m] among the neighbours of [n]
    twice for every entry [[n, m]] and twice for every entry [[m, n]] of
    the coupling map. *)
Theorem walker_device_coupling
        (get_backend : Py.str -> Layout.configuration) (name : Py.str) :
  if forallb (fun pair : Z * Z =>
                (0 <=? fst pair) && (fst pair <? Layout.n_qubits (get_backend name))
                && (0 <=? snd pair) && (snd pair <? Layout.n_qubits (get_backend name)))
             (Layout.coupling_map (get_backend name))
  then exists coupling,
      init_coupling get_backend (Name name)
      = Py.Ok (Layout.n_qubits (get_backend name), coupling) /\
      Dict.keys coupling = Py.range (Layout.n_qubits (get_backend name)) /\
      forall n m,
        count_occ Z.eq_dec (neighbours coupling n) m =
        (2 * (entries (Layout.coupling_map (get_backend name)) n m
              + entries (Layout.coupling_map (get_backend name)) m n))%nat
  else init_coupling get_backend (Name name) = Py.Raise Py.KeyError.
Proof.
  rewrite init_coupling_name.
  destruct (forallb _ _) eqn:Eall.
  - rewrite forallb_forall in Eall.
    destruct (links_ok
                (flat_map (fun pair : Z * Z =>
                             [(fst pair, snd pair); (snd pair, fst pair)])
                          (Layout.coupling_map (get_backend name)))
                (no_coupling (Layout.n_qubits (get_backend name))))
      as [c Hc].
    + intros a b Hin. apply in_flat_map in Hin.
      destruct Hin as [pair [Hpair Hab]]. specialize (Eall pair Hpair).
      rewrite !andb_true_iff, !Z.leb_le, !Z.ltb_lt in Eall.
      rewrite no_coupling_keys, !in_range.
      destruct Hab as [[= <- <-]|[[= <- <-]|[]]]; lia.
    + exists c. rewrite Hc. split; [reflexivity|].
      destruct (links_counts _ _ _ Hc) as [K [_ C]].
      split; [rewrite K; apply no_coupling_keys|].
      intros n m. rewrite C, no_coupling_empty, !entries_both. simpl. lia.
  - apply forallb_fails in Eall. destruct Eall as [pair [Hpair Hout]].
    rewrite links_raise; [reflexivity|].
    exists (fst pair), (snd pair). split.
    + apply in_flat_map. exists pair. split; [exact Hpair | now left].
    + rewrite no_coupling_keys, !in_range.
      rewrite !andb_false_iff, !Z.leb_gt, !Z.ltb_ge in Hout. lia.
Qed.

End WalkerResults.

(** ** bell_correlation *)

Section BellCorrelation.
Import Bell.
Local Open Scope R_scope.

Lemma index_first_two (A : Type) (c0 c1 : A) (rest : list A) :
  Py.index (c0 :: c1 :: rest) 0 = Py.Ok c0 /\
  Py.index (c0 :: c1 :: rest) 1 = Py.Ok c1.
Proof.
  unfold Py.index. cbn [List.length Z.ltb Z.compare Z.leb].
  split.
  - destruct (Z.ltb_spec 0 (Z.of_nat (S (S (List.length rest)))));
      [reflexivity | lia].
  - destruct (Z.ltb_spec 1 (Z.of_nat (S (S (List.length rest)))));
      [reflexivity | lia].
Qed.

Lemma program_two (c0 c1 : ascii) (rest : Py.str) :
  program (c0 :: c1 :: rest) =
  Py.Ok ([h Q0; cx Q0 Q1; ry (PI / 4) Q1; h Q1] ++
         (if Ascii.eqb c0 "X" then [h Q0] else []) ++
         (if Ascii.eqb c1 "X" then [h Q1] else []) ++
         [barrier; measure]).
Proof.
  unfold program. change (Py.range 2) with [0%Z; 1%Z].
  cbn [Py.for_each].
  destruct (index_first_two _ c0 c1 rest) as [-> ->].
  cbn [Py.bind].
  destruct (Ascii.eqb c0 "X"); destruct (Ascii.eqb c1 "X"); reflexivity.
Qed.

Lemma program_short (basis : Py.str) :
  (List.length basis < 2)%nat -> program basis = Py.Raise Py.IndexError.
Proof.
  destruct basis as [|c0 [|c1 rest]]; simpl; intro H; try lia.
  - reflexivity.
  - unfold program. change (Py.range 2) with [0%Z; 1%Z].
    cbn [Py.for_each]. change (Py.index [c0] 0) with (Py.Ok c0).
    cbn [Py.bind]. change (Py.index [c0] 1) with (@Py.Raise ascii Py.IndexError).
    reflexivity.
Qed.

Lemma noiseless_sum (qc : list gate) (shots : Z) :
  shots <> 0%Z ->
  exists P,
    Py.for_each (noiseless qc shots)
      (fun (entry : Py.str * R) P =>
         let (string, count) := entry in
         if (shots =? 0)%Z then Py.Raise Py.ZeroDivisionError
         else
           let p := count / IZR shots in
           Py.Ok (if existsb (Py.str_eqb string) [Py.lit "00"; Py.lit "11"]
                  then P + p else P))
      0 = Py.Ok P /\
    P = probability (run qc) false false + probability (run qc) true true.
Proof.
  intro Hs. assert (HS : IZR shots <> 0) by (now apply not_0_IZR).
  apply Z.eqb_neq in Hs.
  unfold noiseless, outcome.
  generalize (probability (run qc) false false)
             (probability (run qc) true false)
             (probability (run qc) false true)
             (probability (run qc) true true).
  intros p00 p01 p10 p11.
  destruct (Req_dec_T p00 0) as [E00|E00];
    destruct (Req_dec_T p01 0) as [E01|E01];
    destruct (Req_dec_T p10 0) as [E10|E10];
    destruct (Req_dec_T p11 0) as [E11|E11];
    cbn [app Py.for_each]; rewrite ?Hs; cbn; rewrite ?Hs; cbn;
    eexists; (split; [reflexivity|]); subst; field; exact HS.
Qed.

Lemma half_angle :
  sqrt 2 * sqrt 2 = 2 /\ 0 < sqrt 2 /\
  cos (PI / 4 / 2) * cos (PI / 4 / 2) + sin (PI / 4 / 2) * sin (PI / 4 / 2) = 1 /\
  2 * sin (PI / 4 / 2) * cos (PI / 4 / 2) = sqrt 2 / 2 /\
  cos (PI / 4 / 2) * cos (PI / 4 / 2) - sin (PI / 4 / 2) * sin (PI / 4 / 2)
  = sqrt 2 / 2.
Proof.
  assert (H2 : sqrt 2 * sqrt 2 = 2) by (apply sqrt_sqrt; lra).
  assert (Hp : 0 < sqrt 2) by (apply sqrt_lt_R0; lra).
  assert (Hinv : 1 / sqrt 2 = sqrt 2 / 2).
  { apply (Rmult_eq_reg_l (sqrt 2)); [|lra]. field_simplify; lra. }
  split; [exact H2|]. split; [exact Hp|]. split.
  - pose proof (sin2_cos2 (PI / 4 / 2)) as H. unfold Rsqr in H. lra.
  - split.
    + rewrite <- sin_2a. replace (2 * (PI / 4 / 2)) with (PI / 4) by field.
      rewrite sin_PI4. exact Hinv.
    + rewrite <- cos_2a. replace (2 * (PI / 4 / 2)) with (PI / 4) by field.
      rewrite cos_PI4. exact Hinv.
Qed.

Lemma agreement (b0 b1 : bool) :
  probability
    (run ([h Q0; cx Q0 Q1; ry (PI / 4) Q1; h Q1] ++
          (if b0 then [h Q0] else []) ++ (if b1 then [h Q1] else []) ++
          [barrier; measure])) false false
  + probability
      (run ([h Q0; cx Q0 Q1; ry (PI / 4) Q1; h Q1] ++
            (if b0 then [h Q0] else []) ++ (if b1 then [h Q1] else []) ++
            [barrier; measure])) true true
  = if (b0 && b1)%bool then (2 - sqrt 2) / 4 else (2 + sqrt 2) / 4.
Proof.
  destruct half_angle as [H2 [Hp [Hcs [Hsc Hcc]]]].
  unfold probability, run.
  destruct b0; destruct b1; cbn [fold_left app apply andb]; cbn;
    revert H2 Hp Hcs Hsc Hcc;
    generalize (sqrt 2) (cos (PI / 4 / 2)) (sin (PI / 4 / 2));
    intros r c s H2 Hp Hcs Hsc Hcc;
    (field_simplify_eq; [|lra]);
    assert (P2 : r ^ 2 = 2) by (rewrite <- H2; ring);
    assert (P4 : r ^ 4 = 4)
      by (replace (r ^ 4) with (r ^ 2 * r ^ 2) by ring; rewrite P2; ring);
    assert (P5 : r ^ 5 = 4 * r)
      by (replace (r ^ 5) with (r ^ 4 * r) by ring; rewrite P4; ring);
    assert (P6 : r ^ 6 = 8)
      by (replace (r ^ 6) with (r ^ 4 * r ^ 2) by ring; rewrite P4, P2; ring);
    assert (P7 : r ^ 7 = 8 * r)
      by (replace (r ^ 7) with (r ^ 6 * r) by ring; rewrite P6; ring);
    assert (P8 : r ^ 8 = 16)
      by (replace (r ^ 8) with (r ^ 4 * r ^ 4) by ring; rewrite P4; ring);
    assert (P9 : r ^ 9 = 16 * r)
      by (replace (r ^ 9) with (r ^ 8 * r) by ring; rewrite P8; ring);
    rewrite ?P4, ?P5, ?P6, ?P7, ?P8, ?P9;
    replace (c ^ 2) with (c * c) by ring;
    try replace (s ^ 2) with (s * s) by ring;
    lra.
Qed.

Lemma fraction_bounds (shots : Z) (stats : Dict.t Py.str R) :
  (0 < shots)%Z ->
  (forall k v, In (k, v) stats -> 0 <= v) ->
  forall P0,
  exists P,
    Py.for_each stats
      (fun (entry : Py.str * R) P =>
         let (string, count) := entry in
         if (shots =? 0)%Z then Py.Raise Py.ZeroDivisionError
         else
           let p := count / IZR shots in
           Py.Ok (if existsb (Py.str_eqb string) [Py.lit "00"; Py.lit "11"]
                  then P + p else P))
      P0 = Py.Ok P /\
    P0 <= P <= P0 + total stats / IZR shots.
Proof.
  intros Hs. assert (HS : 0 < IZR shots) by (now apply IZR_lt).
  destruct (Z.eqb_spec shots 0) as [E|_]; [lia|].
  induction stats as [|[k v] stats IH]; intros Hv P0.
  - exists P0. split; [reflexivity|]. unfold total. simpl.
    unfold Rdiv. rewrite Rmult_0_l. lra.
  - cbn [Py.for_each Py.bind].
    assert (H0 : 0 <= v) by (apply (Hv k); now left).
    assert (Hq : 0 <= v / IZR shots).
    { apply Rmult_le_pos; [exact H0|]. left. now apply Rinv_0_lt_compat. }
    assert (Ht : total ((k, v) :: stats) / IZR shots
                 = v / IZR shots + total stats / IZR shots).
    { unfold total. simpl. field. lra. }
    rewrite Ht.
    destruct (existsb (Py.str_eqb k) [Py.lit "00"; Py.lit "11"]).
    + destruct (IH (fun k0 v0 H => Hv k0 v0 (or_intror H)) (P0 + v / IZR shots))
        as [P [HP Hb]].
      exists P. split; [exact HP | lra].
    + destruct (IH (fun k0 v0 H => Hv k0 v0 (or_intror H)) P0) as [P [HP Hb]].
      exists P. split; [exact HP | lra].
Qed.

(** X29.  Whatever the backend: a basis of fewer than two characters
    makes [bell_correlation] raise [IndexError]; with two or more, a
    positive number of shots and counts that are not negative and add up
    to [shots], the value returned lies between 0 and 1. *)
Theorem bell_correlation_is_a_fraction
        (get_counts : list gate -> Z -> Dict.t Py.str R)
        (basis : Py.str) (shots : Z) :
  ((List.length basis < 2)%nat ->
   bell_correlation get_counts basis shots = Py.Raise Py.IndexError) /\
  ((2 <= List.length basis)%nat ->
   (0 < shots)%Z ->
   (forall qc k v, In (k, v) (get_counts qc shots) -> 0 <= v) ->
   (forall qc, total (get_counts qc shots) = IZR shots) ->
   exists P,
     bell_correlation get_counts basis shots = Py.Ok P /\ 0 <= P <= 1).
Proof.
  split.
  - intro H. unfold bell_correlation. now rewrite (program_short basis H).
  - intros Hlen Hs Hv Ht.
    destruct basis as [|c0 [|c1 rest]]; simpl in Hlen; try lia.
    unfold bell_correlation. rewrite program_two. cbn [Py.bind].
    match goal with
    | |- context [get_counts ?qc shots] =>
        destruct (fraction_bounds shots (get_counts qc shots) Hs (Hv qc) 0)
          as [P [HP Hb]];
        rewrite (Ht qc) in Hb
    end.
    exists P. split; [exact HP|].
    assert (HS : 0 < IZR shots) by (now apply IZR_lt).
    replace (IZR shots / IZR shots) with 1 in Hb by (field; lra). lra.
Qed.

Lemma bell_correlation_is_a_fraction_witness :
  bell_correlation (fun _ _ => [(Py.lit "00", 3); (Py.lit "01", 1)])
                   (Py.lit "X") 4
  = Py.Raise Py.IndexError /\
  exists P,
    bell_correlation (fun _ _ => [(Py.lit "00", 3); (Py.lit "01", 1)])
                     (Py.lit "XZ") 4
    = Py.Ok P /\ 0 <= P <= 1.
Proof.
  split.
  - apply (proj1 (bell_correlation_is_a_fraction
                    (fun _ _ => [(Py.lit "00", 3); (Py.lit "01", 1)])
                    (Py.lit "X") 4)).
    simpl. lia.
  - apply (proj2 (bell_correlation_is_a_fraction
                    (fun _ _ => [(Py.lit "00", 3); (Py.lit "01", 1)])
                    (Py.lit "XZ") 4)).
    + simpl. lia.
    + lia.
    + intros qc k v [[= _ <-]|[[= _ <-]|[]]]; lra.
    + intro qc. unfold total. simpl. lra.
Defined.

(** X30.  On the noiseless backend, for any basis of at least two
    characters and any positive number of shots, [bell_correlation]
    returns [(2 - sqrt 2) / 4] when both characters are ['X'] and
    [(2 + sqrt 2) / 4] otherwise: the two qubits agree with probability
    about 0.85 in three of the four pairs of bases and 0.15 in the
    fourth. *)
Theorem bell_correlation_values (basis : Py.str) (shots : Z) :
  (2 <= List.length basis)%nat ->
  (0 < shots)%Z ->
  exists P,
    bell_correlation noiseless basis shots = Py.Ok P /\
    P = if (Ascii.eqb (nth 0 basis " "%char) "X"
            && Ascii.eqb (nth 1 basis " "%char) "X")%bool
        then (2 - sqrt 2) / 4 else (2 + sqrt 2) / 4.
Proof.
  intros Hlen Hs.
  destruct basis as [|c0 [|c1 rest]]; simpl in Hlen; try lia.
  unfold bell_correlation. rewrite program_two. cbn [Py.bind nth].
  match goal with
  | |- context [noiseless ?qc shots] =>
      destruct (noiseless_sum qc shots) as [P [HP Hsum]]; [lia|]
  end.
  exists P. split; [exact HP|].
  rewrite Hsum. apply agreement.
Qed.

Lemma bell_correlation_values_witness :
  exists P,
    bell_correlation noiseless (Py.lit "XX") 1024 = Py.Ok P /\
    P = (2 - sqrt 2) / 4.
Proof.
  apply (bell_correlation_values (Py.lit "XX") 1024).
  - simpl. lia.
  - lia.
Defined.

End BellCorrelation.

(** ** layout: calculate_probs in floats and in exact fractions *)

Section SameKeys.
Import Layout.
Variable N : Arith.t.

Lemma get_same_keys (V1 V2 : Type)
      (d1 : Dict.t node V1) (d2 : Dict.t node V2) (k : node) :
  Dict.keys d1 = Dict.keys d2 ->
  Dict.get node_eqb d1 k <> None -> Dict.get node_eqb d2 k <> None.
Proof.
  revert d2. induction d1 as [|[k1 x1] d1 IH]; intros [|[k2 x2] d2];
    simpl; intros H; try discriminate; [auto|].
  injection H as -> H. destruct (node_eqb k2 k); [discriminate|].
  now apply IH.
Qed.

Lemma set_same_keys (V1 V2 : Type)
      (d1 : Dict.t node V1) (d2 : Dict.t node V2) (k : node)
      (v1 : V1) (v2 : V2) :
  Dict.keys d1 = Dict.keys d2 ->
  Dict.keys (Dict.set node_eqb d1 k v1) = Dict.keys (Dict.set node_eqb d2 k v2).
Proof.
  revert d2. induction d1 as [|[k1 x1] d1 IH]; intros [|[k2 x2] d2];
    simpl; intros H; try discriminate; [reflexivity|].
  injection H as -> H. destruct (node_eqb k2 k); simpl.
  - now rewrite H.
  - f_equal. now apply IH.
Qed.

(** Two loops over one list whose bodies succeed together and keep a
    relation between their states. *)
Lemma for_each_sim (B S1 S2 : Type) (R : S1 -> S2 -> Prop)
      (body1 : B -> S1 -> Py.result S1) (body2 : B -> S2 -> Py.result S2)
      (xs : list B) :
  (forall a s1 s2 s1',
      In a xs -> R s1 s2 -> body1 a s1 = Py.Ok s1' ->
      exists s2', body2 a s2 = Py.Ok s2' /\ R s1' s2') ->
  forall s1 s2 s1',
    R s1 s2 -> Py.for_each xs body1 s1 = Py.Ok s1' ->
    exists s2', Py.for_each xs body2 s2 = Py.Ok s2' /\ R s1' s2'.
Proof.
  induction xs as [|a xs IH]; intros Hbody s1 s2 s1' HR Hrun.
  - simpl in Hrun. injection Hrun as <-. simpl. eauto.
  - cbn [Py.for_each] in Hrun |- *.
    destruct (body1 a s1) as [t1|] eqn:E1; [|discriminate].
    cbn [Py.bind] in Hrun.
    destruct (Hbody a s1 s2 t1 (or_introl eq_refl) HR E1) as [t2 [E2 HR']].
    rewrite E2. cbn [Py.bind].
    apply (IH (fun a0 u1 u2 u1' Hin => Hbody a0 u1 u2 u1' (or_intror Hin))
              t1 t2 s1' HR' Hrun).
Qed.

Lemma bump_same_keys
      (d1 d1' : Dict.t node (Arith.num N)) (d2 : Dict.t node Q)
      (k : node) (p1 : Arith.num N) (p2 : Q) :
  Dict.keys d1 = Dict.keys d2 ->
  bump N d1 k p1 = Py.Ok d1' ->
  exists d2', bump Arith.Exact d2 k p2 = Py.Ok d2' /\
              Dict.keys d1' = Dict.keys d2'.
Proof.
  intros HK H. unfold bump, Dict.item in *.
  destruct (Dict.get node_eqb d1 k) as [v1|] eqn:E1; [|discriminate].
  cbn [Py.bind] in H. injection H as <-.
  assert (G : Dict.get node_eqb d2 k <> None).
  { apply (get_same_keys _ _ d1 d2 k HK). congruence. }
  exact_arith.
  destruct (Dict.get node_eqb d2 k) as [v2|]; [|contradiction].
  cbn [Py.bind]. eexists. split; [reflexivity|].
  now apply set_same_keys.
Qed.

Lemma accumulate_same_keys (self : layout) (string : Py.str)
      (d1 d1' : Dict.t node (Arith.num N)) (d2 : Dict.t node Q)
      (p1 : Arith.num N) (p2 : Q) :
  Dict.keys d1 = Dict.keys d2 ->
  accumulate N self string p1 d1 = Py.Ok d1' ->
  exists d2', accumulate Arith.Exact self string p2 d2 = Py.Ok d2' /\
              Dict.keys d1' = Dict.keys d2'.
Proof.
  intros HK H. unfold accumulate in *.
  match type of H with
  | Py.bind (Py.for_each ?xs ?body ?s) _ = _ =>
      destruct (Py.for_each xs body s) as [e1|] eqn:E1; [|discriminate]
  end.
  cbn [Py.bind] in H.
  match type of E1 with
  | Py.for_each _ ?body1 _ = _ =>
      match goal with
      | |- exists d2', Py.bind (Py.for_each ?xs ?body ?s) _ = _ /\ _ =>
          destruct (for_each_sim _ _ _
                      (fun (u1 : Dict.t node (Arith.num N))
                           (u2 : Dict.t node (Arith.num Arith.Exact)) =>
                         Dict.keys u1 = Dict.keys u2)
                      body1 body xs) with (2 := HK) (3 := E1)
            as [e2 [E2 HK2]]
      end
  end.
  { intros n u1 u2 u1' _ HR Hb.
    destruct (Py.index string (- n - 1)) as [c|]; [|discriminate].
    cbn [Py.bind] in Hb |- *.
    destruct (Ascii.eqb c "1").
    - exact (bump_same_keys _ _ _ _ _ _ HR Hb).
    - injection Hb as <-. eauto. }
  rewrite E2. cbn [Py.bind].
  match type of H with
  | Py.for_each _ ?body1 _ = _ =>
      match goal with
      | |- exists d2', Py.for_each ?xs ?body ?s = _ /\ _ =>
          apply (for_each_sim _ _ _
                   (fun (u1 : Dict.t node (Arith.num N))
                        (u2 : Dict.t node (Arith.num Arith.Exact)) =>
                      Dict.keys u1 = Dict.keys u2)
                   body1 body xs) with (2 := HK2) (3 := H)
      end
  end.
  intros [l [a0 a1]] u1 u2 u1' _ HR Hb.
  destruct (Py.index string (- a0 - 1)) as [c0|]; [|discriminate].
  cbn [Py.bind] in Hb |- *.
  destruct (Py.index string (- a1 - 1)) as [c1|]; [|discriminate].
  cbn [Py.bind] in Hb |- *.
  destruct (negb (Ascii.eqb c0 c1)).
  - exact (bump_same_keys _ _ _ _ _ _ HR Hb).
  - injection Hb as <-. eauto.
Qed.

Lemma zeros_same_keys (ks : list node)
      (d1 : Dict.t node (Arith.num N)) (d2 : Dict.t node Q) :
  Dict.keys d1 = Dict.keys d2 ->
  Dict.keys (fold_left (fun probs n => Dict.set node_eqb probs n (Arith.zero N))
                       ks d1)
  = Dict.keys (fold_left (fun probs n =>
                            Dict.set node_eqb probs n (Arith.zero Arith.Exact))
                         ks d2).
Proof.
  revert d1 d2. induction ks as [|k ks IH]; intros d1 d2 HK;
    cbn [fold_left]; [exact HK|].
  apply IH. now apply set_same_keys.
Qed.

(** A call that returns in the arithmetic [N] returns with exact fractions
    too, and with the same keys: no test of the code looks at a number. *)
Lemma calculate_probs_same_keys
      (self : layout) (raw_stats : Dict.t Py.str Z)
      (probs : Dict.t node (Arith.num N)) :
  NoDup (Dict.keys raw_stats) ->
  calculate_probs N raw_stats self = Py.Ok probs ->
  exists exact,
    calculate_probs Arith.Exact raw_stats self = Py.Ok exact /\
    Dict.keys exact = Dict.keys probs.
Proof.
  intros Hnd H. unfold calculate_probs in *.
  destruct (normalize N raw_stats) as [stats|] eqn:En; [|discriminate].
  pose proof (normalized N _ _ Hnd En) as ->.
  cbn [Py.bind] in H.
  assert (Hex : normalize Arith.Exact raw_stats
                = Py.Ok (scaled Arith.Exact (total raw_stats) raw_stats)).
  { destruct raw_stats as [|entry raw]; [reflexivity|].
    apply normalize_ok; [|intros; reflexivity|exact Hnd].
    intro Hz. rewrite (normalize_zero N) in En;
      [discriminate | discriminate | exact Hz]. }
  rewrite Hex. cbn [Py.bind].
  unfold scaled in H |- *. rewrite for_each_map in H. rewrite for_each_map.
  match type of H with
  | Py.for_each _ ?body1 ?z1 = _ =>
      match goal with
      | |- exists exact, Py.for_each ?xs ?body ?z2 = _ /\ _ =>
          destruct (for_each_sim _ _ _
                      (fun (u1 : Dict.t node (Arith.num N))
                           (u2 : Dict.t node (Arith.num Arith.Exact)) =>
                         Dict.keys u1 = Dict.keys u2)
                      body1 body xs) with (s1 := z1) (s2 := z2) (3 := H)
            as [exact [Hrun HK]]
      end
  end.
  - intros entry u1 u2 u1' _ HR Hb. cbn [fst snd] in Hb |- *.
    exact (accumulate_same_keys _ _ _ _ _ _ _ HR Hb).
  - now apply zeros_same_keys.
  - exists exact. split; [exact Hrun | now symmetry].
Qed.
End SameKeys.


(** ** layout: the sign of binary64 quotients and sums *)

Section Binary64Sign.
Import SpecFloat.

Lemma shr_1_nonneg (mrs : shr_record) :
  (0 <= shr_m mrs)%Z -> (0 <= shr_m (shr_1 mrs))%Z.
Proof.
  destruct mrs as [m r s]. simpl. destruct m as [|p|p]; [simpl; lia | | lia].
  destruct p; simpl; lia.
Qed.

Lemma iter_shr_1_nonneg (p : positive) :
  forall mrs, (0 <= shr_m mrs)%Z -> (0 <= shr_m (iter_pos shr_1 p mrs))%Z.
Proof.
  induction p as [p IH|p IH|]; intros mrs H; simpl.
  - apply IH, IH, shr_1_nonneg, H.
  - apply IH, IH, H.
  - apply shr_1_nonneg, H.
Qed.

Lemma shr_fexp_nonneg (m e : Z) (l : location) :
  (0 <= m)%Z ->
  (0 <= shr_m (fst (shr_fexp Arith.prec Arith.emax m e l)))%Z.
Proof.
  intro H. unfold shr_fexp, shr.
  assert (H0 : (0 <= shr_m (shr_record_of_loc m l))%Z)
    by (destruct l as [|[]]; exact H).
  destruct (fexp Arith.prec Arith.emax (Zdigits2 m + e) - e)%Z; simpl; auto.
  now apply iter_shr_1_nonneg.
Qed.

Lemma round_nearest_even_nonneg (m : Z) (l : location) :
  (0 <= m)%Z -> (0 <= round_nearest_even m l)%Z.
Proof.
  intro H. unfold round_nearest_even. destruct l as [|[]]; try lia.
  destruct (Z.even m); lia.
Qed.

(** Rounding what is not below zero gives nothing below zero, and no
    NaN. *)
Lemma binary_round_aux_nonneg (m e : Z) (l : location) :
  (0 <= m)%Z ->
  Arith.nonneg (binary_round_aux Arith.prec Arith.emax false m e l).
Proof.
  intro H. unfold binary_round_aux.
  pose proof (shr_fexp_nonneg m e l H) as H1.
  destruct (shr_fexp Arith.prec Arith.emax m e l) as [mrs' e'].
  simpl in H1.
  pose proof (shr_fexp_nonneg _ e' loc_Exact
                (round_nearest_even_nonneg _ (loc_of_shr_record mrs') H1))
    as H2.
  destruct (shr_fexp Arith.prec Arith.emax _ e' loc_Exact) as [mrs'' e''].
  simpl in H2.
  destruct (shr_m mrs'') as [|p|p]; [exact I | | lia].
  destruct (e'' <=? Arith.emax - Arith.prec)%Z; exact I.
Qed.

Lemma add_nonneg (x y : spec_float) :
  Arith.nonneg x -> Arith.nonneg y ->
  Arith.nonneg (Arith.add Arith.Binary64 x y).
Proof.
  cbn [Arith.add Arith.Binary64].
  destruct x as [[]|[]| |[] mx ex]; destruct y as [[]|[]| |[] my ey];
    try (simpl; tauto).
  intros _ _. cbn [SFadd cond_Zopp].
  match goal with
  | |- context [(Z.pos ?a + Z.pos ?b)%Z] =>
      change (Z.pos a + Z.pos b)%Z with (Z.pos (a + b))
  end.
  cbn [binary_normalize]. unfold binary_round.
  destruct (shl_align _ _ _) as [mz ez].
  apply binary_round_aux_nonneg. lia.
Qed.

Lemma rounded_nonneg (a b : Z) :
  (0 <= a)%Z -> (0 < b)%Z -> Arith.nonneg (Arith.rounded a b).
Proof.
  intros Ha Hb. unfold Arith.rounded.
  destruct b as [|mb|mb]; try lia.
  destruct a as [|ma|ma]; try lia; [exact I|].
  cbn [Arith.of_int SFdiv xorb].
  unfold SFdiv_core_binary.
  match goal with
  | |- context [Z.div_eucl ?m ?d] =>
      pose proof (Z.div_pos m d) as Hq; unfold Z.div in Hq;
      assert (Hm : (0 <= m)%Z); [| destruct (Z.div_eucl m d) as [q r] ]
  end.
  { destruct (_ - _ - _)%Z; try lia. apply Z.shiftl_nonneg. lia. }
  apply binary_round_aux_nonneg. apply Hq; lia.
Qed.

Lemma nonneg_leb (x : spec_float) :
  Arith.nonneg x -> SFleb (S754_zero false) x = true.
Proof. destruct x as [[]|[]| |[] m e]; simpl; tauto. Qed.
End Binary64Sign.

(** ** layout: what every value of the map keeps *)

Section ValuesKept.
Import Layout.
Variable N : Arith.t.
(** A property of numbers that sums keep. *)
Variable P : Arith.num N -> Prop.
Hypothesis P_add : forall x y, P x -> P y -> P (Arith.add N x y).

Lemma for_each_kept (B S : Type) (I : S -> Prop)
      (body : B -> S -> Py.result S) (xs : list B) :
  (forall a s s', In a xs -> I s -> body a s = Py.Ok s' -> I s') ->
  forall s s', I s -> Py.for_each xs body s = Py.Ok s' -> I s'.
Proof.
  induction xs as [|a xs IH]; intros Hbody s s' Hs Hrun; simpl in Hrun.
  - now injection Hrun as <-.
  - destruct (body a s) as [s1|e] eqn:E; [|discriminate].
    cbn [Py.bind] in Hrun.
    apply (IH (fun a0 u u' Hin => Hbody a0 u u' (or_intror Hin)) s1 s');
      [|exact Hrun].
    exact (Hbody a s s1 (or_introl eq_refl) Hs E).
Qed.

Lemma bump_keeps (probs probs' : Dict.t node (Arith.num N)) (k : node)
      (p : Arith.num N) :
  P p ->
  (forall k0 v, In (k0, v) probs -> P v) ->
  bump N probs k p = Py.Ok probs' ->
  forall k0 v, In (k0, v) probs' -> P v.
Proof.
  intros Hp Hall H k0 v0 Hin. unfold bump, Dict.item in H.
  destruct (Dict.get node_eqb probs k) as [v|] eqn:E; [|discriminate].
  cbn [Py.bind] in H. injection H as <-.
  destruct (@in_set _ _ _ node_eqb_eq _ _ _ _ _ Hin) as [H|[_ ->]].
  - exact (Hall _ _ H).
  - apply P_add; [|exact Hp].
    exact (Hall _ _ (@get_in _ _ _ node_eqb_eq _ _ _ E)).
Qed.

Lemma accumulate_keeps (self : layout) (string : Py.str) (p : Arith.num N)
      (probs probs' : Dict.t node (Arith.num N)) :
  P p ->
  (forall k v, In (k, v) probs -> P v) ->
  accumulate N self string p probs = Py.Ok probs' ->
  forall k v, In (k, v) probs' -> P v.
Proof.
  intros Hp Hall H. unfold accumulate in H.
  match type of H with
  | Py.bind (Py.for_each ?xs ?body ?s) _ = _ =>
      destruct (Py.for_each xs body s) as [probs1|] eqn:E1; [|discriminate]
  end.
  cbn [Py.bind] in H.
  assert (H1 : forall k v, In (k, v) probs1 -> P v).
  { refine (for_each_kept _ _ (fun d : Dict.t node (Arith.num N) =>
                             forall k v, In (k, v) d -> P v)
                          _ _ _ _ _ Hall E1).
    intros n s s' _ Hs Hb.
    destruct (Py.index string (- n - 1)) as [c|]; [|discriminate].
    cbn [Py.bind] in Hb. destruct (Ascii.eqb c "1").
    - exact (bump_keeps _ _ _ _ Hp Hs Hb).
    - now injection Hb as <-. }
  refine (for_each_kept _ _ (fun d : Dict.t node (Arith.num N) =>
                           forall k v, In (k, v) d -> P v)
                        _ _ _ _ _ H1 H).
  intros [l [e0 e1]] s s' _ Hs Hb.
  destruct (Py.index string (- e0 - 1)) as [c0|]; [|discriminate].
  cbn [Py.bind] in Hb.
  destruct (Py.index string (- e1 - 1)) as [c1|]; [|discriminate].
  cbn [Py.bind] in Hb. destruct (negb (Ascii.eqb c0 c1)).
  - exact (bump_keeps _ _ _ _ Hp Hs Hb).
  - now injection Hb as <-.
Qed.

(** What holds of 0 and of every quotient [count/Z], and is kept by
    sums, holds of every value of the map returned. *)
Lemma calculate_probs_keeps (self : layout) (raw_stats : Dict.t Py.str Z)
      (probs : Dict.t node (Arith.num N)) :
  NoDup (Dict.keys raw_stats) ->
  P (Arith.zero N) ->
  (forall string count,
      In (string, count) raw_stats ->
      P (Arith.quot N count (total raw_stats))) ->
  calculate_probs N raw_stats self = Py.Ok probs ->
  forall k v, In (k, v) probs -> P v.
Proof.
  intros Hnd H0 Hq H. unfold calculate_probs in H.
  destruct (normalize N raw_stats) as [stats|] eqn:En; [|discriminate].
  pose proof (normalized N _ _ Hnd En) as ->.
  cbn [Py.bind] in H.
  refine (for_each_kept _ _ (fun d : Dict.t node (Arith.num N) =>
                           forall k v, In (k, v) d -> P v)
                        _ _ _ _ _ _ H).
  - intros [string p] s s' Hin Hs Hb. cbn [fst snd] in Hb.
    refine (accumulate_keeps _ _ _ _ _ _ Hs Hb).
    unfold scaled in Hin. apply in_map_iff in Hin.
    destruct Hin as [[string' count] [[= <- <-] Hin]].
    exact (Hq _ _ Hin).
  - intros k v Hin.
    rewrite (zeros_value N _ [] (fun _ _ F => match F with end) _ _ Hin).
    exact H0.
Qed.
End ValuesKept.



